(** * Dotfiles provisioning scripts: a shallow embedding

    The development follows the three scripts of the repository:

    - [scripts/setup_mise.py]      (modules [Mise] and [Config]): the marked
      text block and [update_fish_config], which inserts it into the Fish
      configuration file or replaces it there; (modules [FishCheck] and
      [Runtimes]): the reading of the answer of the fish session in
      [verify_bins_in_fish], and [run] and [install_runtimes]; (module
      [MiseMain]): [main], from [parse_args] to the last [sys.exit];
    - [scripts/setup.py]           (modules [Links], [Batch] and [Setup]):
      the symlink loop of [create_symlinks], the other steps, and the
      seven-step [main];
    - [scripts/setup_astronvim.py] (module [AstroNvim]): the time-stamped
      backup of an existing Neovim configuration, and the clone.

    Modelling choices.

    - A text is a list of characters.  The configuration file of
      [setup_mise.py] is modelled by the characters it holds: [read_text]
      reads them with universal newlines (a carriage return followed by a
      newline, and a carriage return alone, come out as one newline), and
      raises on a file that is not text; what is written is written as it
      is.  The other files are never read by the scripts.
    - The file system is a tree of files, symbolic links and directories,
      addressed by absolute paths.  The directory part of a path is taken as
      it is written (no symbolic link in it is followed); a link at the last
      component is followed by [exists], [is_dir] and [resolve], as the
      system does.  Where a theorem rests on a path that does not exist, it
      asks that no directory on the way is a symbolic link ([Batch.absent]).
      Permissions are not modelled.
    - A computation takes a state and gives an outcome (a value or a raised
      exception), the state it leaves, and the lines it printed with
      [print_status].  Plain [print] calls (banners, empty lines) carry no
      decision and are left out; the text of an exception in a message is
      the name of its error.
    - External programs, the command line and the terminal are parameters
      of [Setup] and [MiseMain]: [subprocess_run], [subprocess_call],
      [parse_args] and [input] may return or raise, and may do anything to
      the world.

    The first half of the file holds the definitions, the second half the
    properties; the theorems that settle C1 to C10 are in [ConfigSpec],
    [LinksSpec], [SetupSpec], [ExitSpec] and [Runs].  The further
    properties X1 to X20 are in [FishCheckSpec], [ConfigSpec],
    [RuntimesSpec], [StepsSpec], [LinkStepSpec] and [AstroNvimSpec], with
    their instances in [Examples]. *)

From Stdlib Require Import Ascii String Bool Arith ZArith Lia List.
Import ListNotations.
Local Open Scope list_scope.
Set Warnings "-register-all,-notation-for-abbreviation".

(* ================================================================= *)
(** ** Text: the fragment of Python's [str] the scripts use *)

Module Text.

Definition text := list ascii.

(** A literal of the source, as text. *)
Definition txt (s : string) : text := list_ascii_of_string s.

Definition nl : ascii := ascii_of_nat 10.

Definition is_nl (c : ascii) : bool := Ascii.eqb c nl.

(** [hay.startswith(needle)] *)
Fixpoint starts_with (needle hay : text) : bool :=
  match needle, hay with
  | [], _ => true
  | _ :: _, [] => false
  | a :: needle', b :: hay' => Ascii.eqb a b && starts_with needle' hay'
  end.

(** [s.split(sep, 1)] when [sep] occurs in [s]: the text before the first
    occurrence and the text after it; [None] when [sep] does not occur. *)
Fixpoint partition (sep s : text) : option (text * text) :=
  if starts_with sep s then Some ([], skipn (length sep) s)
  else match s with
       | [] => None
       | c :: s' =>
           match partition sep s' with
           | Some (a, b) => Some (c :: a, b)
           | None => None
           end
       end.

(** [sep in s] *)
Definition contains (sep s : text) : bool :=
  match partition sep s with Some _ => true | None => false end.

(** [s.split(sep, 1)[0]] *)
Definition split_head (sep s : text) : text :=
  match partition sep s with Some (a, _) => a | None => s end.

(** [s.split(sep, 1)[-1]] *)
Definition split_last (sep s : text) : text :=
  match partition sep s with Some (_, b) => b | None => s end.

(** [s.lstrip("\n")] *)
Fixpoint lstrip_nl (s : text) : text :=
  match s with
  | c :: s' => if is_nl c then lstrip_nl s' else s
  | [] => []
  end.

(** [s.endswith("\n")] *)
Definition ends_with_nl (s : text) : bool :=
  match rev s with
  | c :: _ => is_nl c
  | [] => false
  end.

(** Number of newline characters at the front of a text. *)
Fixpoint leading_nl (s : text) : nat :=
  match s with
  | c :: s' => if is_nl c then S (leading_nl s') else 0
  | [] => 0
  end.

(** Number of empty lines at the end of a text.  A text made of [k]
    newlines only is [k] empty lines; otherwise the first of the trailing
    newlines terminates the last non-empty line and the others are empty
    lines of their own. *)
Definition blank_lines_at_end (s : text) : nat :=
  let k := leading_nl (rev s) in
  if Nat.eqb k (length s) then k else pred k.

(** [s == t] *)
Fixpoint text_eqb (s t : text) : bool :=
  match s, t with
  | [], [] => true
  | a :: s', b :: t' => Ascii.eqb a b && text_eqb s' t'
  | _, _ => false
  end.

(** The first character of [s], if any, does not occur in [cs]. *)
Definition head_not_in (s cs : text) : bool :=
  match s with
  | h :: _ => negb (existsb (Ascii.eqb h) cs)
  | [] => true
  end.

End Text.

(* ================================================================= *)
(** ** scripts/setup_mise.py *)

Module Mise.
Import Text.

Definition MISE_BLOCK_BEGIN : text :=
  txt "# >>> MISE INIT - managed by setup_mise.py".

Definition MISE_BLOCK_END : text :=
  txt "# <<< MISE INIT - managed by setup_mise.py".

(** The lines between the two markers. *)
Definition MISE_BLOCK_BODY : text :=
  nl :: txt "if type -q mise" ++ nl :: txt "    eval (mise env fish)"
     ++ nl :: txt "end" ++ [nl].

Definition MISE_BLOCK : text :=
  MISE_BLOCK_BEGIN ++ MISE_BLOCK_BODY ++ MISE_BLOCK_END ++ [nl].

(** What the append branch writes at the end of the file. *)
Definition appended (t : text) : text :=
  (if negb (ends_with_nl t) then [nl] else []) ++ nl :: MISE_BLOCK.

(** The characters a call of [update_fish_config] leaves in a file of
    which [read_text] returned the text [t], when the characters of the file
    are that text (it holds no carriage return); [None]: there was no file.
    [Config.update_fish_config] is the function of the script; this one
    serves to reason about it. *)
Definition updated (file : option text) : text :=
  match file with
  | None => MISE_BLOCK
  | Some t =>
      if contains MISE_BLOCK_BEGIN t && contains MISE_BLOCK_END t then
        let pre := split_head MISE_BLOCK_BEGIN t in
        let post := split_last MISE_BLOCK_END t in
        pre ++ MISE_BLOCK ++ lstrip_nl post
      else
        t ++ appended t
  end.

(** The texts in which the block is well formed: no file, a text with
    neither marker, or a text with both markers and no end marker in front
    of the first begin marker. *)
Definition well_marked_text (file : option text) : bool :=
  match file with
  | None => true
  | Some t =>
      if contains MISE_BLOCK_BEGIN t then
        contains MISE_BLOCK_END t
        && negb (contains MISE_BLOCK_END (split_head MISE_BLOCK_BEGIN t))
      else negb (contains MISE_BLOCK_END t)
  end.

(** [ans.lower() != "y"] *)
Definition declines (ans : text) : bool :=
  negb (text_eqb ans (txt "y") || text_eqb ans (txt "Y")).

End Mise.

(* ================================================================= *)
(** ** The file system *)

Module FS.
Import Text.

(** An absolute path: its components from the root; [[]] is the root. *)
Definition path := list string.

Inductive node :=
| File (data : text)
| Link (target : path)
| Dir (entries : list (string * node)).

(** The errors of the system calls ([OSError] and its subclasses). *)
Inductive oserror :=
| ENOENT      (* FileNotFoundError *)
| EEXIST      (* FileExistsError *)
| EISDIR      (* IsADirectoryError; PermissionError from unlink on macOS *)
| ENOTDIR     (* NotADirectoryError *)
| ENOTEMPTY
| EINVAL
| EBUSY.

Inductive result (A : Type) :=
| Ok (a : A)
| Err (e : oserror).
Arguments Ok {A} a.
Arguments Err {A} e.

Fixpoint path_eqb (p q : path) : bool :=
  match p, q with
  | [], [] => true
  | a :: p', b :: q' => String.eqb a b && path_eqb p' q'
  | _, _ => false
  end.

(** [p] is [q] or an ancestor of [q]. *)
Fixpoint is_prefix (p q : path) : bool :=
  match p, q with
  | [], _ => true
  | a :: p', b :: q' => String.eqb a b && is_prefix p' q'
  | _ :: _, [] => false
  end.

(** Neither path is the other or an ancestor of the other. *)
Definition apart (p q : path) : bool :=
  negb (is_prefix p q) && negb (is_prefix q p).

(** [p.parent] *)
Definition parent (p : path) : path := removelast p.

(** [p.name] *)
Definition name (p : path) : string := last p EmptyString.

(** [Path(str(p) + suffix)] *)
Definition add_suffix (p : path) (suffix : string) : path :=
  parent p ++ [String.append (name p) suffix].

(** [str(p)] *)
Definition path_str (p : path) : string :=
  String.append "/" (String.concat "/" p).

Definition child (c : string) (es : list (string * node)) : option node :=
  match find (fun kv => String.eqb c (fst kv)) es with
  | Some kv => Some (snd kv)
  | None => None
  end.

(** The entries of a directory with the entry named [c] set to [o]
    ([None]: removed). *)
Definition set_child (c : string) (o : option node) (es : list (string * node))
  : list (string * node) :=
  match o with Some v => [(c, v)] | None => [] end
  ++ filter (fun kv => negb (String.eqb c (fst kv))) es.

(** [os.lstat]: the node at a path, symbolic links not followed. *)
Fixpoint lstat (n : node) (p : path) : option node :=
  match p with
  | [] => Some n
  | c :: p' =>
      match n with
      | Dir es =>
          match child c es with
          | Some k => lstat k p'
          | None => None
          end
      | _ => None
      end
  end.

(** The tree with the directory entry at [p] set to [o]. *)
Fixpoint store (n : node) (p : path) (o : option node) : result node :=
  match p with
  | [] => Err EBUSY
  | c :: p' =>
      match n with
      | Dir es =>
          match p' with
          | [] => Ok (Dir (set_child c o es))
          | _ :: _ =>
              match child c es with
              | Some k =>
                  match store k p' o with
                  | Ok k' => Ok (Dir (set_child c (Some k') es))
                  | Err e => Err e
                  end
              | None => Err ENOENT
              end
          end
      | _ => Err ENOTDIR
      end
  end.

(** How many symbolic links a lookup follows before it gives up. *)
Definition MAXSYMLINKS : nat := 40.

(** [os.stat]: as [lstat], a symbolic link at the path followed. *)
Fixpoint stat_from (fuel : nat) (root : node) (p : path) : option node :=
  match lstat root p with
  | Some (Link t) =>
      match fuel with
      | O => None
      | S fuel' => stat_from fuel' root t
      end
  | o => o
  end.

Definition stat := stat_from MAXSYMLINKS.

(** [p.exists()] *)
Definition exists_ (root : node) (p : path) : bool :=
  match stat root p with Some _ => true | None => false end.

(** [p.is_symlink()] *)
Definition is_symlink (root : node) (p : path) : bool :=
  match lstat root p with Some (Link _) => true | _ => false end.

(** A file or a directory: what the symlink loop treats as foreign. *)
Definition not_link (x : node) : bool :=
  match x with Link _ => false | _ => true end.

(** [p.is_dir()] *)
Definition is_dir (root : node) (p : path) : bool :=
  match stat root p with Some (Dir _) => true | _ => false end.

(** [p.resolve()]: the path reached through the symbolic links at [p]. *)
Fixpoint resolve_from (fuel : nat) (root : node) (p : path) : path :=
  match lstat root p, fuel with
  | Some (Link t), S fuel' => resolve_from fuel' root t
  | _, _ => p
  end.

Definition resolve := resolve_from MAXSYMLINKS.

(** [p.unlink()] *)
Definition unlink (root : node) (p : path) : result node :=
  match lstat root p with
  | None => Err ENOENT
  | Some (Dir _) => Err EISDIR
  | Some _ => store root p None
  end.

(** [os.rename(a, b)] *)
Definition rename (root : node) (a b : path) : result node :=
  match lstat root a with
  | None => Err ENOENT
  | Some x =>
      if path_eqb a b then Ok root
      else if is_prefix a b then Err EINVAL
      else
        match lstat root b, x with
        | Some (Dir (_ :: _)), Dir _ => Err ENOTEMPTY
        | Some (Dir _), (File _ | Link _) => Err EISDIR
        | Some (File _ | Link _), Dir _ => Err ENOTDIR
        | _, _ =>
            match store root a None with
            | Ok root' => store root' b (Some x)
            | Err e => Err e
            end
        end
  end.

(** The directories of [p] that are missing, created from the top. *)
Fixpoint create_dirs (n : node) (p : path) : result node :=
  match p with
  | [] => match n with Dir _ => Ok n | _ => Err EEXIST end
  | c :: p' =>
      match n with
      | Dir es =>
          match create_dirs
                  (match child c es with Some k => k | None => Dir [] end) p'
          with
          | Ok k' => Ok (Dir (set_child c (Some k') es))
          | Err e => Err e
          end
      | _ => Err ENOTDIR
      end
  end.

(** [p.mkdir(parents=True, exist_ok=True)] *)
Definition mkdir_parents (root : node) (p : path) : result node :=
  match lstat root p with
  | Some _ => if is_dir root p then Ok root else Err EEXIST
  | None => create_dirs root p
  end.

(** [os.symlink(target, p)] *)
Definition symlink (root : node) (target p : path) : result node :=
  match lstat root p with
  | Some _ => Err EEXIST
  | None => store root p (Some (Link target))
  end.

End FS.

(* ================================================================= *)
(** ** Effects: state, exceptions and the lines of [print_status] *)

Module Eff.

Inductive status := INFO | SUCCESS | WARNING | ERROR.

(** One call [print_status(message, status)]. *)
Definition event := (status * string)%type.

Inductive exn :=
| OSError (e : FS.oserror)
| CalledProcessError (returncode : Z)
| KeyError
| EOFError
| UnicodeDecodeError
| SystemExit (code : Z).

(** [except Exception] catches everything but [SystemExit]. *)
Definition is_Exception (e : exn) : bool :=
  match e with SystemExit _ => false | _ => true end.

Inductive outcome (A : Type) :=
| Ret (a : A)
| Raise (e : exn).
Arguments Ret {A} a.
Arguments Raise {A} e.

(** A computation on a state [S]: its outcome, the state it leaves, and
    what it printed. *)
Definition M (S A : Type) : Type := S -> outcome A * S * list event.

Definition ret {S A} (a : A) : M S A := fun s => (Ret a, s, []).

Definition raise {S A} (e : exn) : M S A := fun s => (Raise e, s, []).

Definition bind {S A B} (c : M S A) (k : A -> M S B) : M S B :=
  fun s =>
    match c s with
    | (Ret a, s', l) => let '(r, s'', l') := k a s' in (r, s'', l ++ l')
    | (Raise e, s', l) => (Raise e, s', l)
    end.

Definition gets {S A} (f : S -> A) : M S A := fun s => (Ret (f s), s, []).

Definition print_status {S} (message : string) (st : status) : M S unit :=
  fun s => (Ret tt, s, [(st, message)]).

(** [try: body except Exception as e: handler(e)] *)
Definition try_except {S A} (body : M S A) (handler : exn -> M S A) : M S A :=
  fun s =>
    match body s with
    | (Raise e, s', l) =>
        if is_Exception e
        then let '(r, s'', l') := handler e s' in (r, s'', l ++ l')
        else (Raise e, s', l)
    | r => r
    end.

(** [try: body except subprocess.CalledProcessError: handler] *)
Definition try_except_CalledProcessError {S A}
  (body : M S A) (handler : M S A) : M S A :=
  fun s =>
    match body s with
    | (Raise (CalledProcessError _), s', l) =>
        let '(r, s'', l') := handler s' in (r, s'', l ++ l')
    | r => r
    end.

(** The exit status of the interpreter for [sys.exit(main())]: the value
    [main] returns, the code of a [SystemExit], and 1 for an exception that
    nothing caught. *)
Definition exit_status (r : outcome Z) : Z :=
  match r with
  | Ret n => n
  | Raise (SystemExit code) => code
  | Raise _ => 1%Z
  end.

(** A system call on the file system. *)
Definition syscall (op : FS.node -> FS.result FS.node) : M FS.node unit :=
  fun fs =>
    match op fs with
    | FS.Ok fs' => (Ret tt, fs', [])
    | FS.Err e => (Raise (OSError e), fs, [])
    end.

(** A computation on a part of the state. *)
Definition zoom {S T A} (get : S -> T) (set : T -> S -> S) (c : M T A) : M S A :=
  fun s => let '(r, t, l) := c (get s) in (r, set t s, l).

Definition outcome_of {S A} (x : outcome A * S * list event) : outcome A :=
  fst (fst x).
Definition state_of {S A} (x : outcome A * S * list event) : S :=
  snd (fst x).
Definition printed {S A} (x : outcome A * S * list event) : list event :=
  snd x.

(** [P] holds of the state a computation leaves whenever it held of the
    state it started in. *)
Definition preserves {S A} (P : S -> Prop) (c : M S A) : Prop :=
  forall s, P s -> P (state_of (c s)).

(** Something was printed as a warning or as an error. *)
Definition warned (l : list event) : bool :=
  existsb (fun ev => match fst ev with
                     | WARNING | ERROR => true
                     | _ => false
                     end) l.

(** A computation that prints a warning or an error whenever it returns
    [False]. *)
Definition warns_on_false {S} (c : M S bool) : Prop :=
  forall s s' l, c s = (Ret false, s', l) -> warned l = true.

(** A computation that raises nothing but what [except Exception] catches. *)
Definition catchable {S A} (c : M S A) : Prop :=
  forall s, match outcome_of (c s) with
            | Raise e => is_Exception e = true
            | Ret _ => True
            end.

Declare Scope eff_scope.
Delimit Scope eff_scope with eff.
Notation "x <- c ;; k" := (bind c (fun x => k))
  (at level 61, c at next level, right associativity) : eff_scope.
Notation "c ;; k" := (bind c (fun _ => k))
  (at level 61, right associativity) : eff_scope.

End Eff.

(* ================================================================= *)
(** ** scripts/setup.py: the symlink loop *)

Module Links.
Import Text FS Eff.
Local Open Scope eff_scope.
Local Open Scope string_scope.

(** One entry of the [symlinks] dictionary: the source relative to the
    repository root, and the destination. *)
Definition mapping := (path * path)%type.

(** The [symlinks] dictionary of [create_symlinks], in insertion order. *)
Definition symlinks (home : path) : list mapping :=
  let config_dir := (home ++ [".config"])%list in
  [ (["ghostty"], config_dir ++ ["ghostty"]);
    (["fish"], config_dir ++ ["fish"]);
    (["starship"], config_dir ++ ["starship"]);
    (["nvim"], config_dir ++ ["nvim"]);
    (["brewfile"], config_dir ++ ["brewfile"]);
    (["tmux"; "tmux.conf"], home ++ [".tmux.conf"]) ]%list.

Definition oserror_str (e : oserror) : string :=
  match e with
  | ENOENT => "No such file or directory"
  | EEXIST => "File exists"
  | EISDIR => "Is a directory"
  | ENOTDIR => "Not a directory"
  | ENOTEMPTY => "Directory not empty"
  | EINVAL => "Invalid argument"
  | EBUSY => "Resource busy"
  end.

Definition exn_str (e : exn) : string :=
  match e with
  | OSError e => oserror_str e
  | CalledProcessError _ => "CalledProcessError"
  | KeyError => "KeyError"
  | EOFError => "EOFError"
  | UnicodeDecodeError => "UnicodeDecodeError"
  | SystemExit _ => "SystemExit"
  end.

(** [Path(str(dst) + ".backup")] *)
Definition backup_of (dst : path) : path := add_suffix dst ".backup".

(** The [if dst.exists() or dst.is_symlink():] statement of the loop body:
    what stands at the destination is taken out of the way. *)
Definition clear_destination (dst : path) : M node unit :=
  occupied <- gets (fun fs => exists_ fs dst || is_symlink fs dst) ;;
  if occupied : bool then
    link <- gets (fun fs => is_symlink fs dst) ;;
    if link : bool then
      syscall (fun fs => unlink fs dst) ;;
      print_status ("Replaced existing symlink: " ++ path_str dst) INFO
    else
      let backup_dst := backup_of dst in
      backed_up <- gets (fun fs => exists_ fs backup_dst) ;;
      if negb backed_up then
        syscall (fun fs => rename fs dst backup_dst) ;;
        print_status
          ("Backed up existing config to: " ++ path_str backup_dst) WARNING
      else
        print_status
          ("Config already backed up at: " ++ path_str backup_dst) INFO ;;
        syscall (fun fs => unlink fs dst)
  else ret tt.

(** The rest of the [try] block: the parent directory, then the link. *)
Definition make_link (src_rel src dst : path) : M node unit :=
  syscall (fun fs => mkdir_parents fs (parent dst)) ;;
  target <- gets (fun fs => resolve fs src) ;;
  syscall (fun fs => symlink fs target dst) ;;
  print_status
    ("Symlink created: " ++ name dst ++ " → " ++ String.concat "/" src_rel)
    SUCCESS.

(** The [try] block of the loop body. *)
Definition link_body (src_rel src dst : path) : M node unit :=
  clear_destination dst ;;
  make_link src_rel src dst.

(** The destinations and backup paths of [ms] are apart from [q]. *)
Definition leaves_alone (q : path) (ms : list mapping) : bool :=
  forallb (fun m => apart (snd m) q && apart (backup_of (snd m)) q) ms.

(** One iteration of the loop of [create_symlinks]; [success] is the
    variable of that name, before and after the iteration. *)
Definition link_one (repo_root : path) (m : mapping) (success : bool)
  : M node bool :=
  let '(src_rel, dst) := m in
  let src := (repo_root ++ src_rel)%list in
  found <- gets (fun fs => exists_ fs src) ;;
  if negb found then
    print_status ("Source not found: " ++ path_str src) WARNING ;;
    ret success
  else
    try_except
      (link_body src_rel src dst ;; ret success)
      (fun e =>
         print_status
           ("Failed to create symlink " ++ path_str dst ++ ": " ++ exn_str e)
           ERROR ;;
         ret false).

(** The loop of [create_symlinks] over the mappings that remain. *)
Fixpoint link_all (repo_root : path) (ms : list mapping) (success : bool)
  : M node bool :=
  match ms with
  | [] => ret success
  | m :: ms' =>
      success' <- link_one repo_root m success ;;
      link_all repo_root ms' success'
  end.

(** Whether, in the run of the loop over [ms] from the file system [fs],
    the [try] block of some mapping raised. *)
Fixpoint some_link_failed (repo_root : path) (ms : list mapping) (fs : node)
  : bool :=
  match ms with
  | [] => false
  | (src_rel, dst) :: ms' =>
      let src := (repo_root ++ src_rel)%list in
      (exists_ fs src
       && match outcome_of (link_body src_rel src dst fs) with
          | Raise _ => true
          | Ret _ => false
          end)
      || some_link_failed repo_root ms'
           (state_of (link_one repo_root (src_rel, dst) true fs))
  end.

(** [create_symlinks(repo_root)]; [home] is [Path.home()]. *)
Definition create_symlinks (home repo_root : path) : M node bool :=
  link_all repo_root (symlinks home) true.

(** The file system after [n] consecutive runs of the loop on [ms]. *)
Fixpoint runs (n : nat) (repo_root : path) (ms : list mapping) (fs : node)
  : node :=
  match n with
  | O => fs
  | S n' => runs n' repo_root ms (state_of (link_all repo_root ms true fs))
  end.

End Links.

(* ================================================================= *)
(** ** scripts/setup.py: the steps and [main] *)

Module Setup.
Import Text FS Eff Links.
Local Open Scope eff_scope.
Local Open Scope string_scope.

(** [subprocess.CompletedProcess] *)
Record completed := {
  returncode : Z;
  stdout : text;
  stderr : text
}.

(** What [main] itself prints: the first line, and the warnings after the
    two optional steps whose result it looks at. *)
Definition repository_line (repo_root : path) : event :=
  (INFO, "Repository: " ++ path_str repo_root).

Definition symlinks_warning (linked : bool) : list event :=
  if linked then []
  else [(WARNING, "Some symlinks failed to create, but continuing...")].

Definition brewfile_warning (bundled : bool) : list event :=
  if bundled then []
  else [(WARNING, "Brewfile installation had issues, but continuing...")].

Section World.

(** What lies outside the model: the programs installed, the network, the
    terminal. *)
Variable Ext : Type.

Record World := {
  fs : node;
  environ : list (string * text);
  ext : Ext
}.

(** [subprocess.run(cmd, check=False)]: the completed process, or the
    exception raised when the program cannot be started. *)
Variable subprocess_run : list string -> World -> outcome completed * World.

(** [input(prompt)] *)
Variable input : string -> World -> outcome text * World.

Definition run_process (cmd : list string) : M World completed :=
  fun w => let '(r, w') := subprocess_run cmd w in (r, w', []).

Definition read_input (prompt : string) : M World text :=
  fun w => let '(r, w') := input prompt w in (r, w', []).

Definition on_fs {A} (c : M node A) : M World A :=
  zoom fs (fun t w => {| fs := t; environ := environ w; ext := ext w |}) c.

Definition str (t : text) : string := string_of_list_ascii t.

Definition nonempty (t : text) : bool :=
  match t with [] => false | _ :: _ => true end.

Fixpoint lookup (key : string) (env : list (string * text)) : option text :=
  match env with
  | [] => None
  | (k, v) :: env' => if String.eqb key k then Some v else lookup key env'
  end.

Definition is_space (c : ascii) : bool :=
  let n := nat_of_ascii c in
  Nat.eqb n 32 || (Nat.leb 9 n && Nat.leb n 13).

Fixpoint lstrip (t : text) : text :=
  match t with
  | c :: t' => if is_space c then lstrip t' else t
  | [] => []
  end.

(** [t.strip()] *)
Definition strip (t : text) : text := rev (lstrip (rev (lstrip t))).

(** [run_command(cmd, description, check)] *)
Definition run_command (cmd : list string) (description : string)
  (check : bool) : M World (Z * text) :=
  (if String.eqb description "" then ret tt
   else print_status description INFO) ;;
  try_except_CalledProcessError
    (result <- run_process cmd ;;
     if check && negb (Z.eqb (returncode result) 0) then
       (if nonempty (stderr result)
        then print_status ("Command failed: " ++ str (stderr result)) ERROR
        else ret tt) ;;
       raise (CalledProcessError (returncode result))
     else ret (returncode result, (stdout result ++ stderr result)%list))
    (print_status ("Failed to execute: " ++ String.concat " " cmd) ERROR ;;
     raise (SystemExit 1)).

(** [check_command_exists(cmd)] *)
Definition check_command_exists (cmd : string) : M World bool :=
  result <- run_process ["which"; cmd] ;;
  ret (Z.eqb (returncode result) 0).

Definition install_xcode_clt : M World bool :=
  found <- check_command_exists "gcc" ;;
  if found : bool then
    print_status "Xcode Command Line Tools already installed" SUCCESS ;;
    ret true
  else
    print_status "Installing Xcode Command Line Tools..." INFO ;;
    r <- run_command ["xcode-select"; "--install"]
           "Initializing Xcode CLT installer" false ;;
    let code := fst r in
    if Z.eqb code 0 then
      print_status
        "Xcode CLT install initiated. Please complete the installation when prompted."
        INFO ;;
      read_input "Press Enter after installation is complete..." ;;
      found' <- check_command_exists "gcc" ;;
      if found' : bool then
        print_status "Xcode Command Line Tools installed successfully" SUCCESS ;;
        ret true
      else
        print_status "Xcode CLT installation could not be verified" WARNING ;;
        ret false
    else if Z.eqb code 1 then
      print_status "Xcode Command Line Tools already installed" SUCCESS ;;
      ret true
    else
      print_status "Failed to install Xcode Command Line Tools" ERROR ;;
      ret false.

(** [os.environ["PATH"] = f"/opt/homebrew/bin:{os.environ['PATH']}"] *)
Definition prepend_homebrew_to_PATH : M World unit :=
  fun w =>
    match lookup "PATH" (environ w) with
    | Some v =>
        (Ret tt,
         {| fs := fs w;
            environ := ("PATH", (txt "/opt/homebrew/bin:" ++ v)%list) :: environ w;
            ext := ext w |},
         [])
    | None => (Raise KeyError, w, [])
    end.

Definition install_homebrew : M World bool :=
  found <- check_command_exists "brew" ;;
  if found : bool then
    print_status "Homebrew already installed" SUCCESS ;; ret true
  else
    print_status "Installing Homebrew..." INFO ;;
    r <- run_command
           ["/bin/bash"; "-c";
            "$(curl -fsSL https://raw.githubusercontent.com/Homebrew/install/HEAD/install.sh)"]
           "Downloading and running Homebrew installer" false ;;
    installed <-
      (if Z.eqb (fst r) 0 then
         silicon <- gets (fun w => exists_ (fs w) ["opt"; "homebrew"; "bin"]) ;;
         (if silicon : bool then prepend_homebrew_to_PATH else ret tt) ;;
         check_command_exists "brew"
       else ret false) ;;
    if installed : bool then
      print_status "Homebrew installed successfully" SUCCESS ;; ret true
    else
      print_status "Homebrew installation failed" ERROR ;; ret false.

Definition create_config_structure (home : path) : M World bool :=
  let config_dir := (home ++ [".config"])%list in
  try_except
    (on_fs (syscall (fun t => mkdir_parents t config_dir)) ;;
     print_status ("Config directory ready: " ++ path_str config_dir) SUCCESS ;;
     ret true)
    (fun e =>
       print_status
         ("Failed to create config directory: " ++ exn_str e) ERROR ;;
       ret false).

Definition brew_bundle (brewfile_path : path) : list string :=
  ["brew"; "bundle"; "install"; "--file"; path_str brewfile_path].

Definition install_brewfile (repo_root : path) : M World bool :=
  let brewfile_path := (repo_root ++ ["brewfile"; "Brewfile"])%list in
  found <- gets (fun w => exists_ (fs w) brewfile_path) ;;
  if negb found then
    print_status ("Brewfile not found at " ++ path_str brewfile_path) WARNING ;;
    ret false
  else
    try_except
      (print_status "Installing packages from Brewfile..." INFO ;;
       r <- run_command (brew_bundle brewfile_path) "Running brew bundle" false ;;
       let '(code, output) := r in
       if Z.eqb code 0 then
         print_status "Brewfile packages installed successfully" SUCCESS ;;
         ret true
       else if contains (txt "already satisfied") output
               || contains (txt "is already installed") output then
         print_status
           "Brewfile processed (some packages already installed)" SUCCESS ;;
         ret true
       else
         print_status "Brewfile installation had issues" WARNING ;;
         print_status (str output) INFO ;;      (* logger.info(output) *)
         ret true)
      (fun e =>
         print_status ("Failed to install Brewfile: " ++ exn_str e) ERROR ;;
         ret false).

(** [subprocess.run(cmd, check=True)] *)
Definition run_process_checked (cmd : list string) : M World completed :=
  result <- run_process cmd ;;
  if Z.eqb (returncode result) 0 then ret result
  else raise (CalledProcessError (returncode result)).

Definition setup_fish_shell : M World bool :=
  current_shell <-
    gets (fun w => match lookup "SHELL" (environ w) with
                   | Some v => v | None => [] end) ;;
  if contains (txt "fish") current_shell then
    print_status "Fish shell already set as default" SUCCESS ;; ret true
  else
    found <- check_command_exists "fish" ;;
    if negb found then
      print_status
        "Fish shell not installed (should be installed via Brewfile)" WARNING ;;
      ret false
    else
      try_except
        (which <- run_process_checked ["which"; "fish"] ;;
         let fish_path := str (strip (stdout which)) in
         result <- run_process ["grep"; "-q"; fish_path; "/etc/shells"] ;;
         added <-
           (if negb (Z.eqb (returncode result) 0) then
              r <- run_command
                     ["sh"; "-c";
                      "echo " ++ fish_path ++ " | sudo tee -a /etc/shells"]
                     "Adding fish to /etc/shells" false ;;
              ret (Z.eqb (fst r) 0)
            else ret true) ;;
         if negb added then
           print_status "Could not add fish to /etc/shells" WARNING ;;
           ret false
         else
           r <- run_command ["chsh"; "-s"; fish_path]
                  "Setting fish as default shell" false ;;
           if Z.eqb (fst r) 0 then
             print_status
               "Fish shell set as default (will take effect on next login)"
               SUCCESS ;;
             ret true
           else
             print_status "Failed to set fish as default shell" WARNING ;;
             ret false)
        (fun e =>
           print_status ("Failed to setup fish shell: " ++ exn_str e) WARNING ;;
           ret false).

(** The [checks] dictionary of [verify_installation]: label and command. *)
Definition checks : list (string * string) :=
  [("Homebrew", "brew"); ("Fish", "fish"); ("Git", "git");
   ("Starship", "starship"); ("Neovim", "nvim")].

Fixpoint verify_all (cs : list (string * string)) (all_good : bool)
  : M World bool :=
  match cs with
  | [] => ret all_good
  | (name, cmd) :: cs' =>
      found <- check_command_exists cmd ;;
      if found : bool then
        print_status (name ++ " is installed") SUCCESS ;;
        verify_all cs' all_good
      else
        print_status (name ++ " is NOT installed") WARNING ;;
        verify_all cs' false
  end.

Definition verify_installation : M World bool := verify_all checks true.

(** [main]; [home] is [Path.home()] and [repo_root] the resolved parent of
    the directory of the script. *)
Definition main (home repo_root : path) : M World Z :=
  print_status ("Repository: " ++ path_str repo_root) INFO ;;
  clt <- install_xcode_clt ;;
  if negb clt then
    print_status "Xcode CLT installation is required. Exiting." ERROR ;;
    ret 1%Z
  else
  brew <- install_homebrew ;;
  if negb brew then
    print_status "Homebrew installation is required. Exiting." ERROR ;;
    ret 1%Z
  else
  made <- create_config_structure home ;;
  if negb made then
    print_status "Failed to create config directory. Exiting." ERROR ;;
    ret 1%Z
  else
  linked <- on_fs (create_symlinks home repo_root) ;;
  (if negb linked then
     print_status "Some symlinks failed to create, but continuing..." WARNING
   else ret tt) ;;
  bundled <- install_brewfile repo_root ;;
  (if negb bundled then
     print_status "Brewfile installation had issues, but continuing..." WARNING
   else ret tt) ;;
  setup_fish_shell ;;
  verify_installation ;;
  ret 0%Z.

End World.

Arguments fs {Ext} w.
Arguments environ {Ext} w.
Arguments ext {Ext} w.
Arguments run_process {Ext} subprocess_run cmd.
Arguments run_command {Ext} subprocess_run cmd description check.
Arguments check_command_exists {Ext} subprocess_run cmd.
Arguments install_xcode_clt {Ext} subprocess_run input.
Arguments install_homebrew {Ext} subprocess_run.
Arguments install_brewfile {Ext} subprocess_run repo_root.
Arguments setup_fish_shell {Ext} subprocess_run.
Arguments verify_all {Ext} subprocess_run cs all_good.
Arguments verify_installation {Ext} subprocess_run.
Arguments main {Ext} subprocess_run input home repo_root.
Arguments on_fs {Ext A} c.

End Setup.

(* ================================================================= *)
(** ** scripts/setup_astronvim.py: the backup and the clone *)

Module AstroNvim.
Import Text FS Eff.
Local Open Scope eff_scope.
Local Open Scope string_scope.

(** [nvim.with_name(nvim.name + f".backup.{ts}")] *)
Definition backup_name (nvim : path) (ts : string) : path :=
  (parent nvim ++ [String.append (name nvim) (String.append ".backup." ts)])%list.

(** [backup_existing(nvim)]; [ts] is the time stamp
    [datetime.datetime.now().strftime("%Y%m%d%H%M%S")]. *)
Definition backup_existing (ts : string) (nvim : path) : M node unit :=
  present <- gets (fun fs => exists_ fs nvim) ;;
  if present : bool then syscall (fun fs => rename fs nvim (backup_name nvim ts))
  else ret tt.

(** [clone_astronvim(nvim)]: [git clone] leaves the tree [checkout] at
    [nvim] when nothing stands there or an empty directory does, and fails
    otherwise ([check_call] raises). *)
Definition clone_astronvim (checkout : node) (nvim : path) : M node unit :=
  fun fs =>
    match lstat fs nvim with
    | None | Some (Dir []) =>
        match store fs nvim (Some checkout) with
        | Ok fs' => (Ret tt, fs', [])
        | Err _ => (Raise (CalledProcessError 128), fs, [])
        end
    | Some _ => (Raise (CalledProcessError 128), fs, [])
    end.

(** The first two calls of [main]: the backup, then the clone. *)
Definition backup_and_clone (ts : string) (checkout : node) (nvim : path)
  : M node unit :=
  backup_existing ts nvim ;;
  clone_astronvim checkout nvim.

End AstroNvim.

(* ================================================================= *)
(** ** scripts/setup_mise.py: the configuration file *)

Module Config.
Import Text Mise Eff.

Definition cr : ascii := ascii_of_nat 13.

Definition is_cr (c : ascii) : bool := Ascii.eqb c cr.

(** The text [read_text] returns for a file that holds the characters [s]:
    Python reads with universal newlines, so a carriage return followed by
    a newline, and a carriage return alone, are each read as one newline. *)
Fixpoint universal_newlines (s : text) : text :=
  match s with
  | [] => []
  | c :: s' =>
      if is_cr c then
        nl :: match s' with
              | d :: s'' =>
                  if is_nl d then universal_newlines s''
                  else universal_newlines s'
              | [] => []
              end
      else c :: universal_newlines s'
  end.

(** A carriage return occurs in [s]. *)
Definition has_cr (s : text) : bool := existsb is_cr s.

(** [s] ends in a carriage return. *)
Definition ends_with_cr (s : text) : bool :=
  match rev s with
  | c :: _ => is_cr c
  | [] => false
  end.

(** What stands at [config_path]. *)
Inductive config_file :=
| Absent                 (* nothing: [config_path.exists()] is false *)
| Unreadable (e : exn)   (* something [read_text] raises [e] on: a directory
                            ([IsADirectoryError]), or bytes that are not
                            text in the encoding of the locale
                            ([UnicodeDecodeError]) *)
| Holds (raw : text).    (* a text file with the characters [raw] *)

(** [update_fish_config(config_path)], on the state of the path.  The file
    is read with universal newlines; [write_text] and the file opened with
    ["a"] write a newline as it is (the scripts are for macOS), the first
    in place of the old content, the second after it.  The lines the
    function reports with go through [print]. *)
Definition update_fish_config : M config_file unit :=
  fun file =>
    match file with
    | Absent => (Ret tt, Holds MISE_BLOCK, [])
    | Unreadable e => (Raise e, file, [])
    | Holds raw =>
        let text := universal_newlines raw in
        if contains MISE_BLOCK_BEGIN text && contains MISE_BLOCK_END text then
          let pre := split_head MISE_BLOCK_BEGIN text in
          let post := split_last MISE_BLOCK_END text in
          (Ret tt, Holds (pre ++ MISE_BLOCK ++ lstrip_nl post), [])
        else
          (Ret tt, Holds (raw ++ appended text), [])
    end.

(** The state of the path after [n] calls in a row. *)
Fixpoint calls (n : nat) (file : config_file) : config_file :=
  match n with
  | O => file
  | S n' => calls n' (state_of (update_fish_config file))
  end.

(** The characters of a text file; none for the other states. *)
Definition characters (file : config_file) : text :=
  match file with Holds raw => raw | _ => [] end.

(** The states of the path that one call brings to a fixed point: nothing
    at the path; something that cannot be read, which stays as it is; a
    file that is read with both markers and with no end marker in front of
    the first begin marker; a file that is read with neither marker and
    holds no carriage return. *)
Definition well_marked (file : config_file) : bool :=
  match file with
  | Absent | Unreadable _ => true
  | Holds raw =>
      let text := universal_newlines raw in
      if contains MISE_BLOCK_BEGIN text then
        contains MISE_BLOCK_END text
        && negb (contains MISE_BLOCK_END (split_head MISE_BLOCK_BEGIN text))
      else negb (contains MISE_BLOCK_END text) && negb (has_cr raw)
  end.

End Config.

(* ================================================================= *)
(** ** scripts/setup_mise.py: reading the answer of the fish session *)

Module FishCheck.
Import Text.

(** [line.endswith(":")] *)
Definition ends_with_colon (line : text) : bool :=
  match rev line with
  | c :: _ => Ascii.eqb c ":"%char
  | [] => false
  end.

(** The dictionary [found]; the binding that comes first is the one that
    was assigned last. *)
Definition found_map := list (text * text).

(** [found.get(b, "")] *)
Fixpoint get (found : found_map) (b : text) : text :=
  match found with
  | [] => []
  | (k, v) :: found' => if text_eqb b k then v else get found' b
  end.

(** The [while] loop of [verify_bins_in_fish] over the lines from index
    [i] on: a line that ends in a colon names a binary, whose value is the
    next line unless that one ends in a colon too or is missing; the index
    then moves on by two, and by one after any other line. *)
Fixpoint scan (lines : list text) (found : found_map) : found_map :=
  match lines with
  | [] => found
  | line :: rest =>
      if ends_with_colon line then
        let name := removelast line in
        match rest with
        | next :: rest' =>
            let val := if ends_with_colon next then [] else next in
            scan rest' ((name, val) :: found)
        | [] => (name, []) :: found
        end
      else scan rest found
  end.

(** [not path] *)
Definition no_path (path : text) : bool :=
  match path with [] => true | _ :: _ => false end.

(** The list [missing]. *)
Definition missing (bins : list text) (found : found_map) : list text :=
  filter (fun b => no_path (get found b)) bins.

(** [verify_bins_in_fish(bins)], from what running fish gave: [None] when
    fish could not be started ([FileNotFoundError]), otherwise the list
    [lines], the lines of the stripped output that are not blank. *)
Definition verify_bins_in_fish (bins : list text)
  (session : option (list text)) : bool :=
  match session with
  | None => false
  | Some lines =>
      match missing bins (scan lines []) with
      | [] => true
      | _ :: _ => false
      end
  end.

(** What the command given to fish prints for one binary: the line
    [printf '%s\n' "b:"], then the path of [command -v b] when there is
    one. *)
Definition answer_lines (answer : text * option text) : list text :=
  let '(b, found) := answer in
  (b ++ [":"%char])
  :: match found with Some path => [path] | None => [] end.

(** The lines of a whole session. *)
Definition session_lines (answers : list (text * option text)) : list text :=
  flat_map answer_lines answers.

(** A path as [command -v] prints it: not empty, and not ending in a
    colon. *)
Definition plain_path (answer : text * option text) : bool :=
  match snd answer with
  | Some path => negb (no_path path) && negb (ends_with_colon path)
  | None => true
  end.

Definition has_path (answer : text * option text) : bool :=
  match snd answer with Some _ => true | None => false end.

(** The value bound to the name of an answer that carries a path. *)
Definition val (answer : text * option text) : text :=
  match snd answer with Some path => path | None => [] end.

(** [found] after the loop has read the lines of [answers], each of which
    carries a path, starting from [found]. *)
Definition record (found : found_map) (answers : list (text * option text))
  : found_map :=
  fold_left (fun f a => (fst a, val a) :: f) answers found.

End FishCheck.

(* ================================================================= *)
(** ** scripts/setup_mise.py: installing the runtimes *)

Module Runtimes.
Import Eff.

Section Calls.

(** The machine the commands run on. *)
Variable W : Type.

(** [subprocess.call(cmd)]: the exit status of the command, or the
    exception raised when it cannot be started. *)
Variable subprocess_call : list string -> W -> outcome Z * W.

Definition is_FileNotFoundError (e : exn) : bool :=
  match e with OSError FS.ENOENT => true | _ => false end.

(** [run(cmd)] *)
Definition run (cmd : list string) : M W Z :=
  fun w =>
    match subprocess_call cmd w with
    | (Raise e, w') =>
        if is_FileNotFoundError e then (Ret 127%Z, w', [])
        else (Raise e, w', [])
    | (Ret rc, w') => (Ret rc, w', [])
    end.

(** [install_runtimes(runtimes)]; what it reports goes through [print]
    and is left out. *)
Fixpoint install_runtimes (runtimes : list string) : M W unit :=
  match runtimes with
  | [] => ret tt
  | r :: runtimes' =>
      bind (run ["mise"; "install"; r]%string)
           (fun _ => install_runtimes runtimes')
  end.

(** The machine after [mise install] has been started for each of the
    runtimes in turn. *)
Definition attempted (runtimes : list string) (w : W) : W :=
  fold_left
    (fun w r => snd (subprocess_call ["mise"; "install"; r]%string w))
    runtimes w.

End Calls.

Arguments run {W} subprocess_call cmd.
Arguments install_runtimes {W} subprocess_call runtimes.
Arguments attempted {W} subprocess_call runtimes w.

End Runtimes.

(* ================================================================= *)
(** ** scripts/setup_mise.py: [main] *)

Module MiseMain.
Import Text Mise Config Eff.
Local Open Scope eff_scope.
Local Open Scope string_scope.

Section Machine.

(** What lies outside the model: the programs installed, the terminal. *)
Variable W : Type.

Record machine := {
  config : config_file;      (* what stands at [config_path] *)
  world : W
}.

(** [parse_args()]: the value of [--yes], or the [SystemExit] argparse
    raises (with status 2 for a command line it rejects, with status 0
    after printing the help).  The path [--config] gives, or its default,
    is the one whose state is [config]. *)
Variable parse_args : outcome bool.

(** [input(prompt)] *)
Variable input : string -> W -> outcome text * W.

(** [shutil.which("mise") is not None] *)
Variable which_mise : W -> bool.

(** [subprocess.call(cmd)] *)
Variable subprocess_call : list string -> W -> outcome Z * W.

(** [subprocess.run(["fish", "-ic", fish_cmd], ...)] for the binaries
    [bins], in front of the configuration file as it stands: the lines of
    the stripped output that are not blank, or the exception raised. *)
Variable fish : list text -> config_file -> W -> outcome (list text) * W.

Definition on_world {A} (c : M W A) : M machine A :=
  zoom world (fun w m => {| config := config m; world := w |}) c.

Definition on_config {A} (c : M config_file A) : M machine A :=
  zoom config (fun f m => {| config := f; world := world m |}) c.

(** The confirmation: lines 136 to 140 of the script. *)
Definition confirm (yes : bool) : M machine unit :=
  if yes then ret tt
  else
    ans <- on_world (fun w => let '(r, w') := input "Continue? [y/N] " w in
                              (r, w', [])) ;;
    if declines ans then raise (SystemExit 0) else ret tt.

(** [verify_bins_in_fish(bins)]: the call of fish, then the reading of its
    answer. *)
Definition verify_bins_in_fish (bins : list text) : M machine bool :=
  fun m =>
    match fish bins (config m) (world m) with
    | (Ret lines, w') =>
        (Ret (FishCheck.verify_bins_in_fish bins (Some lines)),
         {| config := config m; world := w' |}, [])
    | (Raise e, w') =>
        if Runtimes.is_FileNotFoundError e then
          (Ret (FishCheck.verify_bins_in_fish bins None),
           {| config := config m; world := w' |}, [])
        else (Raise e, {| config := config m; world := w' |}, [])
    end.

Definition runtimes : list string := ["python"; "rust"; "bun"].

Definition bins_to_check : list text := [txt "python"; txt "rustc"; txt "bun"].

(** [main()] *)
Definition main : M machine unit :=
  yes <- (fun m => (parse_args, m, [])) ;;
  confirm yes ;;
  found <- gets (fun m => which_mise (world m)) ;;
  if negb found then raise (SystemExit 1)
  else
    on_world (Runtimes.install_runtimes subprocess_call runtimes) ;;
    on_config update_fish_config ;;
    ok <- verify_bins_in_fish bins_to_check ;;
    if negb ok then raise (SystemExit 2) else ret tt.

End Machine.

Arguments config {W} m.
Arguments world {W} m.
Arguments on_world {W A} c.
Arguments on_config {W A} c.
Arguments confirm {W} input yes.
Arguments verify_bins_in_fish {W} fish bins.
Arguments main {W} parse_args input which_mise subprocess_call fish.

(** The exit status of the interpreter for the script, whose last statement
    is [main()]: 0 when [main] returns, the code of a [SystemExit], and 1
    for an exception that nothing caught. *)
Definition exit_status (r : outcome unit) : Z :=
  match r with
  | Ret _ => 0%Z
  | Raise (SystemExit code) => code
  | Raise _ => 1%Z
  end.

End MiseMain.

(* ================================================================= *)
(** ** The symlink loop, mapping by mapping *)

Module Batch.
Import Text FS Eff Links.
Local Open Scope string_scope.

(** The proper ancestors of a path, the root first. *)
Fixpoint ancestors (p : path) : list path :=
  match p with
  | [] => []
  | c :: p' => [] :: map (cons c) (ancestors p')
  end.

(** No directory on the way to [p] is a symbolic link. *)
Definition no_link_above (root : node) (p : path) : bool :=
  forallb (fun q => negb (is_symlink root q)) (ancestors p).

(** The same for [p] and for every path the links at [p] lead to: the
    lookup of [p] then meets the directories as the paths write them, and
    [exists_] is the answer of the system. *)
Fixpoint plain_from (fuel : nat) (root : node) (p : path) : bool :=
  no_link_above root p
  && match lstat root p, fuel with
     | Some (Link t), S fuel' => plain_from fuel' root t
     | _, _ => true
     end.

Definition plain := plain_from MAXSYMLINKS.

(** [not src.exists()], where no directory on the way is a symbolic
    link. *)
Definition absent (root : node) (p : path) : bool :=
  negb (exists_ root p) && plain root p.

(** The line the loop prints for a source that is missing. *)
Definition not_found (repo_root : path) (m : mapping) : event :=
  (WARNING, "Source not found: " ++ path_str (repo_root ++ fst m)%list).

(** One mapping attempted after the others: from the outcome so far (the
    value of [success]), the file system and the lines printed, to the
    same after the iteration on [m]. *)
Definition attempt (repo_root : path)
  (sofar : outcome bool * node * list event) (m : mapping)
  : outcome bool * node * list event :=
  match sofar with
  | (Ret success, fs, out) =>
      let '(r, fs', l) := link_one repo_root m success fs in
      (r, fs', (out ++ l)%list)
  | (Raise e, fs, out) => (Raise e, fs, out)
  end.

(** Every mapping of [ms] attempted, one after the other. *)
Definition attempts (repo_root : path) (ms : list mapping)
  (sofar : outcome bool * node * list event)
  : outcome bool * node * list event :=
  fold_left (attempt repo_root) ms sofar.

End Batch.

(* ================================================================= *)
(** ** Leaving the interpreter *)

Module Exit.
Import Eff.

(** A computation that leaves the interpreter, if it does, through
    [sys.exit(1)]. *)
Definition exits_with_1 {S A} (c : M S A) : Prop :=
  forall s, match outcome_of (c s) with
            | Raise (SystemExit code) => code = 1%Z
            | _ => True
            end.

End Exit.

(* ================================================================= *)
(** ** A sample machine *)

Module Sample.
Import Text FS.
Local Open Scope string_scope.

Definition home : path := ["Users"; "me"].

Definition repo_root : path := ["Users"; "me"; "dotfiles"].

Definition ghostty_dst : path := ["Users"; "me"; ".config"; "ghostty"].
Definition fish_dst : path := ["Users"; "me"; ".config"; "fish"].
Definition nvim_dst : path := ["Users"; "me"; ".config"; "nvim"].

Definition own_fish : node :=
  Dir [("config.fish", File (txt "alias v vim"))].
Definition own_nvim : node :=
  Dir [("init.lua", File (txt "vim.o.number = true"))].

(** A home directory with the repository checked out, an own Fish
    configuration, an own [.tmux.conf], and a Neovim configuration next to
    an earlier backup of it. *)
Definition disk : node :=
  Dir [("Users", Dir [("me", Dir [
     ("dotfiles",
      Dir [("fish", Dir [("config.fish", File (txt "set -gx EDITOR nvim"))]);
           ("nvim", Dir [("init.lua", File (txt "require('config')"))]);
           ("tmux", Dir [("tmux.conf", File (txt "set -g mouse on"))])]);
     (".tmux.conf", File (txt "set -g prefix C-a"));
     (".config",
      Dir [("fish", own_fish);
           ("nvim", own_nvim);
           ("nvim.backup", Dir [("init.vim", File (txt "set number"))])])])])].

(** The same machine with nothing in the repository. *)
Definition bare_disk : node :=
  Dir [("Users", Dir [("me", Dir [
     ("dotfiles", Dir []);
     (".config", Dir [])])])].

(** A machine whose repository is complete and whose [~/.config] is
    empty. *)
Definition ready_disk : node :=
  Dir [("Users", Dir [("me", Dir [
     ("dotfiles",
      Dir [("ghostty", Dir []); ("fish", Dir []); ("starship", Dir []);
           ("nvim", Dir []);
           ("brewfile", Dir [("Brewfile", File (txt "brew 'fish'"))]);
           ("tmux", Dir [("tmux.conf", File (txt "set -g mouse on"))])]);
     (".config", Dir [])])])].

(** The programs of the sample machine: [which] finds every command but
    those of [missing]; [brew bundle] ends with status 1; every other
    command ends with status 0. *)
Definition programs (missing : list string) (cmd : list string)
  (w : Setup.World unit) : Eff.outcome Setup.completed * Setup.World unit :=
  let ended (code : Z) (out : text) :=
    (Eff.Ret {| Setup.returncode := code; Setup.stdout := out;
                Setup.stderr := [] |}, w) in
  match cmd with
  | ["which"; c] =>
      if existsb (String.eqb c) missing then ended 1%Z []
      else ended 0%Z (txt "/opt/homebrew/bin/" ++ list_ascii_of_string c)%list
  | "brew" :: _ => ended 1%Z (txt "Error: 1 Brewfile dependency failed")
  | _ => ended 0%Z []
  end.

Definition keyboard (prompt : string) (w : Setup.World unit)
  : Eff.outcome text * Setup.World unit := (Eff.Ret [], w).

Definition machine (disk : node) : Setup.World unit :=
  {| Setup.fs := disk;
     Setup.environ := [("SHELL", txt "/opt/homebrew/bin/fish");
                       ("PATH", txt "/usr/bin:/bin")];
     Setup.ext := tt |}.

(** What [git clone] of AstroNvim delivers. *)
Definition checkout : node :=
  Dir [("init.lua", File (txt "require('astronvim')"))].

End Sample.

(* ================================================================= *)
(** ** Further machines and sessions *)

Module Cases.
Import Text FS.
Local Open Scope string_scope.

(** A fish session in which [rustc] is not found. *)
Definition rustc_missing : list (text * option text) :=
  [(txt "python", Some (txt "/Users/me/.local/share/mise/shims/python"));
   (txt "rustc", None);
   (txt "bun", Some (txt "/Users/me/.local/share/mise/shims/bun"))].

(** A fish session in which [python] is not found. *)
Definition python_missing : list (text * option text) :=
  [(txt "python", None);
   (txt "rustc", Some (txt "/Users/me/.cargo/bin/rustc"));
   (txt "bun", Some (txt "/Users/me/.bun/bin/bun"))].

(** A fish session in which the three binaries are found. *)
Definition all_found : list (text * option text) :=
  [(txt "python", Some (txt "/Users/me/.local/share/mise/shims/python"));
   (txt "rustc", Some (txt "/Users/me/.cargo/bin/rustc"));
   (txt "bun", Some (txt "/Users/me/.bun/bin/bun"))].

(** Programs that end with the status the table gives for their first
    word, and with 0 when it gives none; they print nothing. *)
Fixpoint status_of (c : string) (codes : list (string * Z)) : Z :=
  match codes with
  | [] => 0%Z
  | (k, v) :: codes' => if String.eqb c k then v else status_of c codes'
  end.

Definition scripted (codes : list (string * Z)) (cmd : list string)
  (w : Setup.World unit) : Eff.outcome Setup.completed * Setup.World unit :=
  (Eff.Ret {| Setup.returncode :=
                match cmd with c :: _ => status_of c codes | [] => 0%Z end;
              Setup.stdout := [];
              Setup.stderr := [] |}, w).

(** An Apple Silicon machine on which [PATH] is not set. *)
Definition silicon_disk : node :=
  Dir [("opt", Dir [("homebrew", Dir [("bin", Dir [])])]);
       ("Users", Dir [("me", Dir [("dotfiles", Dir [])])])].

Definition without_PATH : Setup.World unit :=
  {| Setup.fs := silicon_disk;
     Setup.environ := [("SHELL", txt "/bin/zsh")];
     Setup.ext := tt |}.

(** A home directory in which [.config] is a regular file. *)
Definition blocked_disk : node :=
  Dir [("Users", Dir [("me", Dir [
     ("dotfiles", Dir []);
     (".config", File (txt "theme=dark"))])])].

(** A home directory with a [.tmux.conf] of the user next to an earlier
    backup of it. *)
Definition tmux_disk : node :=
  Dir [("Users", Dir [("me", Dir [
     ("dotfiles",
      Dir [("tmux", Dir [("tmux.conf", File (txt "set -g mouse on"))])]);
     (".tmux.conf", File (txt "set -g prefix C-a"));
     (".tmux.conf.backup", File (txt "set -g prefix C-b"))])])].

Definition tmux_dst : path := ["Users"; "me"; ".tmux.conf"].

(** A [~/.config/nvim] that is a link to a directory that is gone. *)
Definition dangling_disk : node :=
  Dir [("Users", Dir [("me", Dir [
     (".config", Dir [("nvim", Link ["Users"; "me"; "old-nvim"])])])])].

(** A machine without [mise]: starting a command fails, and the machine
    keeps the list of the commands that were tried, the last one first. *)
Definition no_mise (cmd : list string) (tried : list (list string))
  : Eff.outcome Z * list (list string) :=
  (Eff.Raise (Eff.OSError ENOENT), cmd :: tried).

(** A machine for [setup_mise.py] on which [mise] is installed, the
    operator answers [y], every command ends with status 0, and the fish
    session does not find [rustc]. *)
Definition answers_y (prompt : string) (w : unit) : Eff.outcome text * unit :=
  (Eff.Ret (txt "y"), w).

Definition mise_installed (w : unit) : bool := true.

Definition installs (cmd : list string) (w : unit) : Eff.outcome Z * unit :=
  (Eff.Ret 0%Z, w).

Definition fish_without_rustc (bins : list text) (file : Config.config_file)
  (w : unit) : Eff.outcome (list text) * unit :=
  (Eff.Ret (FishCheck.session_lines rustc_missing), w).

Definition no_config : MiseMain.machine unit :=
  {| MiseMain.config := Config.Absent; MiseMain.world := tt |}.

End Cases.

(* ================================================================= *)
(** * Properties *)

Module TextFacts.
Import Text.

Lemma starts_with_app (n s : text) : starts_with n (n ++ s) = true.
Proof.
  induction n as [|a n IH]; simpl; [reflexivity|].
  now rewrite Ascii.eqb_refl, IH.
Qed.

Lemma starts_with_spec (n s : text) :
  starts_with n s = true -> s = n ++ skipn (List.length n) s.
Proof.
  revert s; induction n as [|a n IH]; intros [|b s] H; simpl in *;
    try reflexivity; try discriminate.
  apply andb_true_iff in H as [Hab H].
  apply Ascii.eqb_eq in Hab; subst b.
  f_equal; now apply IH.
Qed.

(** Whether [n] starts [u ++ v] is decided inside [u] once [u] is long
    enough. *)
Lemma starts_with_long (n u v w : text) :
  List.length n <= List.length u ->
  starts_with n (u ++ v) = starts_with n (u ++ w).
Proof.
  revert u; induction n as [|a n IH]; intros [|b u] H; simpl in *;
    try reflexivity; try lia.
  f_equal; apply IH; lia.
Qed.

(** An occurrence that starts in [u] and is not inside [u] reaches the
    first character of [s]. *)
Lemma starts_with_straddle (n u s : text) :
  starts_with n (u ++ s) = true ->
  starts_with n u = true \/ exists h s', s = h :: s' /\ In h n.
Proof.
  revert u; induction n as [|a n IH]; intros u H; [now left|].
  destruct u as [|b u]; simpl in *.
  - destruct s as [|h s']; [discriminate|].
    apply andb_true_iff in H as [Hab _].
    apply Ascii.eqb_eq in Hab; subst h.
    right; exists a, s'; split; [reflexivity | now left].
  - apply andb_true_iff in H as [Hab H]; rewrite Hab; simpl.
    destruct (IH _ H) as [Hu | (h & s' & -> & Hin)]; [now left|].
    right; exists h, s'; split; [reflexivity | now right].
Qed.

Lemma skipn_app_exact (n s : text) : skipn (List.length n) (n ++ s) = s.
Proof. induction n; simpl; auto. Qed.

Lemma partition_spec (sep s a b : text) :
  partition sep s = Some (a, b) -> s = a ++ sep ++ b.
Proof.
  revert a b; induction s as [|c s IH]; intros a b; simpl.
  - destruct (starts_with sep []) eqn:E; [|discriminate].
    intros [= <- <-]. now apply starts_with_spec in E.
  - destruct (starts_with sep (c :: s)) eqn:E.
    + intros [= <- <-]. now apply starts_with_spec in E.
    + destruct (partition sep s) as [[a' b']|]; [|discriminate].
      intros [= <- <-]. simpl; f_equal; now apply IH.
Qed.

(** The first occurrence stays the first one when the text after it is
    replaced. *)
Lemma partition_replace_tail (sep s a b x : text) :
  partition sep s = Some (a, b) -> partition sep (a ++ sep ++ x) = Some (a, x).
Proof.
  revert a b; induction s as [|c s IH]; intros a b.
  - destruct sep; simpl; [|discriminate].
    intros [= <- <-]. destruct x; reflexivity.
  - cbn [partition]. destruct (starts_with sep (c :: s)) eqn:E.
    + intros [= <- <-]. change ([] ++ sep ++ x) with (sep ++ x).
      destruct sep as [|d sep].
      * destruct x; reflexivity.
      * change ((d :: sep) ++ x) with (d :: (sep ++ x)). cbn [partition].
        change (d :: (sep ++ x)) with ((d :: sep) ++ x).
        now rewrite starts_with_app, skipn_app_exact.
    + destruct (partition sep s) as [[a' b']|] eqn:P; [|discriminate].
      intros [= <- <-].
      pose proof (partition_spec _ _ _ _ P) as Hs.
      simpl app. cbn [partition].
      assert (F : starts_with sep (c :: a' ++ sep ++ x) = false).
      { rewrite <- E, Hs.
        rewrite !app_assoc, !app_comm_cons.
        apply starts_with_long. simpl. rewrite length_app. lia. }
      rewrite F, (IH _ _ eq_refl). reflexivity.
Qed.

(** A separator that does not occur in [pre], and whose tail does not
    contain the first character of [s], is found in [pre ++ s] where it is
    found in [s]. *)
Lemma partition_skip (sep pre s : text) :
  contains sep pre = false ->
  head_not_in s (tl sep) = true ->
  partition sep (pre ++ s) =
  match partition sep s with
  | Some (a, b) => Some (pre ++ a, b)
  | None => None
  end.
Proof.
  unfold contains. intros Hpre Hs.
  induction pre as [|c pre IH].
  - simpl. now destruct (partition sep s) as [[? ?]|].
  - cbn [partition] in Hpre. simpl app. cbn [partition].
    destruct (starts_with sep (c :: pre)) eqn:E; [discriminate|].
    destruct (partition sep pre) as [[? ?]|] eqn:P; [discriminate|].
    assert (F : starts_with sep (c :: pre ++ s) = false).
    { destruct (starts_with sep (c :: pre ++ s)) eqn:G; [|reflexivity].
      destruct sep as [|d sep]; [discriminate|].
      simpl in E, G. apply andb_true_iff in G as [Hd G].
      rewrite Hd in E; simpl in E.
      destruct (starts_with_straddle _ _ _ G) as [Hu | (h & s' & -> & Hin)];
        [congruence|].
      simpl in Hs. apply negb_true_iff in Hs.
      assert (existsb (Ascii.eqb h) sep = true); [|congruence].
      apply existsb_exists. exists h. split; [assumption | apply Ascii.eqb_refl]. }
    rewrite F, (IH eq_refl).
    now destruct (partition sep s) as [[? ?]|].
Qed.

(** The position of the first occurrence is minimal. *)
Lemma partition_first (sep s a b p q : text) :
  partition sep s = Some (a, b) -> s = p ++ sep ++ q ->
  List.length a <= List.length p.
Proof.
  revert a b p; induction s as [|c s IH]; intros a b p.
  - simpl. destruct (starts_with sep []); [|discriminate].
    intros [= <- <-] _. simpl; lia.
  - cbn [partition]. destruct (starts_with sep (c :: s)) eqn:E.
    + intros [= <- <-] _. simpl; lia.
    + destruct (partition sep s) as [[a' b']|] eqn:P; [|discriminate].
      intros [= <- <-] Hs.
      destruct p as [|c' p].
      * simpl in Hs. rewrite Hs, starts_with_app in E. discriminate.
      * simpl in Hs. injection Hs as -> Hs.
        simpl. apply le_n_S. eapply IH; eauto.
Qed.

(** The first occurrence stays the first one when text is added at the
    end. *)
Lemma partition_app_found (sep s a b z : text) :
  partition sep s = Some (a, b) -> partition sep (s ++ z) = Some (a, b ++ z).
Proof.
  intros P. pose proof (partition_spec _ _ _ _ P) as Hs.
  rewrite Hs at 1. rewrite <- !app_assoc.
  apply (partition_replace_tail sep s a b (b ++ z) P).
Qed.

Lemma lstrip_nl_app_length (x y : text) :
  List.length (lstrip_nl y) <= List.length (lstrip_nl (x ++ y)).
Proof.
  assert (L : List.length (lstrip_nl y) <= List.length y).
  { induction y as [|c y IH]; simpl; [lia|]. destruct (is_nl c); simpl; lia. }
  induction x as [|c x IH]; simpl; [lia|].
  destruct (is_nl c); simpl; [assumption|]. rewrite length_app. lia.
Qed.

Lemma lstrip_nl_idem (s : text) : lstrip_nl (lstrip_nl s) = lstrip_nl s.
Proof.
  induction s as [|c s IH]; simpl; [reflexivity|].
  destruct (is_nl c) eqn:E; [assumption|].
  simpl. now rewrite E.
Qed.

Lemma lstrip_nl_head (s : text) : hd_error (lstrip_nl s) <> Some nl.
Proof.
  induction s as [|c s IH]; simpl; [discriminate|].
  destruct (is_nl c) eqn:E; [assumption|].
  simpl. intros [= ->]. unfold is_nl in E. now rewrite Ascii.eqb_refl in E.
Qed.

End TextFacts.

Module MiseFacts.
Import Text Mise TextFacts.

Lemma partition_head_clean (sep s a b : text) :
  sep <> [] -> partition sep s = Some (a, b) -> contains sep a = false.
Proof.
  intros Hsep P. unfold contains.
  destruct (partition sep a) as [[a1 a2]|] eqn:Pa; [|reflexivity].
  exfalso.
  pose proof (partition_spec _ _ _ _ P) as Hs.
  pose proof (partition_spec _ _ _ _ Pa) as Ha.
  assert (Hle : List.length a <= List.length a1).
  { apply (partition_first sep s a b a1 (a2 ++ sep ++ b) P).
    rewrite Hs at 1. rewrite Ha at 1. now rewrite <- !app_assoc. }
  rewrite Ha in Hle at 1. rewrite !length_app in Hle.
  destruct sep; [congruence | simpl in Hle; lia].
Qed.

Lemma block_begin_first (z : text) :
  partition MISE_BLOCK_BEGIN (MISE_BLOCK ++ z) =
  Some ([], MISE_BLOCK_BODY ++ MISE_BLOCK_END ++ nl :: z).
Proof. vm_compute. reflexivity. Qed.

Lemma block_end_first (z : text) :
  partition MISE_BLOCK_END (MISE_BLOCK ++ z) =
  Some (MISE_BLOCK_BEGIN ++ MISE_BLOCK_BODY, nl :: z).
Proof. vm_compute. reflexivity. Qed.

(** No end marker starts inside a begin marker. *)
Lemma end_after_begin (z : text) :
  partition MISE_BLOCK_END (MISE_BLOCK_BEGIN ++ z) =
  match partition MISE_BLOCK_END z with
  | Some (a, b) => Some (MISE_BLOCK_BEGIN ++ a, b)
  | None => None
  end.
Proof.
  vm_compute.
  match goal with |- context [?f ?sep z] =>
    destruct (f sep z) as [[a b]|] end; reflexivity.
Qed.

(** A text that ends with the managed block, after a prefix free of both
    markers, is what [updated] gives back, up to the newlines
    that follow the block. *)
Lemma update_on_block (pre z : text) :
  contains MISE_BLOCK_BEGIN pre = false ->
  contains MISE_BLOCK_END pre = false ->
  updated (Some (pre ++ MISE_BLOCK ++ z)) =
  pre ++ MISE_BLOCK ++ lstrip_nl z.
Proof.
  intros Hb He.
  pose proof (partition_skip MISE_BLOCK_BEGIN pre (MISE_BLOCK ++ z) Hb eq_refl) as Pb.
  pose proof (partition_skip MISE_BLOCK_END pre (MISE_BLOCK ++ z) He eq_refl) as Pe.
  rewrite block_begin_first in Pb. rewrite block_end_first in Pe.
  unfold updated, contains, split_head, split_last.
  rewrite Pb, Pe. cbn [andb]. rewrite app_nil_r.
  change (lstrip_nl (nl :: z)) with (lstrip_nl z). reflexivity.
Qed.

Lemma contains_app_nl (sep pre : text) :
  head_not_in [nl] (tl sep) = true -> partition sep [nl] = None ->
  contains sep pre = false -> contains sep (pre ++ [nl]) = false.
Proof.
  intros Hh Hn Hpre. unfold contains.
  rewrite (partition_skip sep pre [nl] Hpre Hh), Hn. reflexivity.
Qed.

Lemma no_marker_app_nl (pre : text) :
  contains MISE_BLOCK_BEGIN pre = false ->
  contains MISE_BLOCK_END pre = false ->
  contains MISE_BLOCK_BEGIN (pre ++ [nl]) = false /\
  contains MISE_BLOCK_END (pre ++ [nl]) = false.
Proof.
  intros Hb He; split; apply contains_app_nl; auto.
Qed.

Lemma appended_shape (t : text) :
  t ++ appended t =
  (t ++ (if ends_with_nl t then [nl] else [nl; nl])) ++ MISE_BLOCK ++ [].
Proof.
  unfold appended. rewrite app_nil_r.
  destruct (ends_with_nl t); simpl; now rewrite <- app_assoc.
Qed.

Lemma lstrip_nl_length (s : text) : List.length (lstrip_nl s) <= List.length s.
Proof.
  induction s as [|c s IH]; simpl; [lia|].
  destruct (is_nl c); simpl; lia.
Qed.

Lemma blank_lines_after_append (r : text) :
  r <> [] ->
  blank_lines_at_end (rev r) = 0 ->
  blank_lines_at_end
    (rev r ++ (if ends_with_nl (rev r) then [nl] else [nl; nl])) = 1.
Proof.
  unfold blank_lines_at_end, ends_with_nl.
  rewrite rev_involutive, length_rev.
  destruct r as [|c r]; [congruence|]; intros _.
  destruct (is_nl c) eqn:E;
    rewrite rev_app_distr, rev_involutive, length_app, length_rev;
    cbn [List.length]; rewrite ?Nat.add_succ_r, ?Nat.add_0_r;
    simpl; rewrite E;
    repeat match goal with
           | |- context [Nat.eqb ?a ?b] => destruct (Nat.eqb_spec a b)
           end;
    simpl; intros; lia.
Qed.

Lemma contains_infix (sep a b : text) : contains sep (a ++ sep ++ b) = true.
Proof.
  unfold contains. induction a as [|c a IH]; cbn [app].
  - pose proof (starts_with_app sep b) as H.
    destruct (sep ++ b); cbn [partition]; now rewrite H.
  - cbn [partition].
    destruct (starts_with sep (c :: a ++ sep ++ b)); [reflexivity|].
    destruct (partition sep (a ++ sep ++ b)) as [[x y]|];
      [reflexivity | discriminate].
Qed.

End MiseFacts.

Module MiseSpec.
Import Text Mise TextFacts MiseFacts.

(** On a well-marked text a second application gives what the first one
    gave. *)
Lemma updated_idempotent (file : option text) :
  well_marked_text file = true ->
  updated (Some (updated file)) = updated file.
Proof.
  destruct file as [t|]; [|intros _; vm_compute; reflexivity].
  unfold well_marked_text. intros W.
  destruct (contains MISE_BLOCK_BEGIN t) eqn:Eb.
  - apply andb_true_iff in W as [Ee Hpre]. apply negb_true_iff in Hpre.
    assert (U : updated (Some t) =
                split_head MISE_BLOCK_BEGIN t ++ MISE_BLOCK
                  ++ lstrip_nl (split_last MISE_BLOCK_END t)).
    { unfold updated. now rewrite Eb, Ee. }
    rewrite U.
    rewrite update_on_block; [now rewrite lstrip_nl_idem | | assumption].
    unfold contains in Eb. unfold split_head.
    destruct (partition MISE_BLOCK_BEGIN t) as [[a b]|] eqn:P; [|discriminate].
    apply (partition_head_clean MISE_BLOCK_BEGIN t a b); [discriminate | exact P].
  - apply negb_true_iff in W.
    assert (U : updated (Some t) = t ++ appended t).
    { unfold updated. now rewrite Eb. }
    rewrite U, appended_shape.
    destruct (no_marker_app_nl t Eb W) as [Hb1 He1].
    destruct (no_marker_app_nl _ Hb1 He1) as [Hb2 He2].
    rewrite <- app_assoc in Hb2, He2.
    destruct (ends_with_nl t); now rewrite update_on_block.
Qed.

Lemma block_length : List.length MISE_BLOCK = 131.
Proof. reflexivity. Qed.

Lemma appended_split (t : text) :
  exists sep,
    appended t = sep ++ MISE_BLOCK /\
    head_not_in (appended t) (tl MISE_BLOCK_BEGIN) = true /\
    head_not_in (appended t) (tl MISE_BLOCK_END) = true /\
    partition MISE_BLOCK_BEGIN (appended t) =
      Some (sep, MISE_BLOCK_BODY ++ MISE_BLOCK_END ++ [nl]) /\
    partition MISE_BLOCK_END (appended t) =
      Some (sep ++ MISE_BLOCK_BEGIN ++ MISE_BLOCK_BODY, [nl]) /\
    lstrip_nl (appended t) = MISE_BLOCK.
Proof.
  unfold appended. destruct (ends_with_nl t); cbn [negb].
  - exists [nl]. repeat split; vm_compute; reflexivity.
  - exists [nl; nl]. repeat split; vm_compute; reflexivity.
Qed.

Lemma lone_begin_marker_shrinks (t : text) :
  contains MISE_BLOCK_BEGIN t = true ->
  contains MISE_BLOCK_END t = false ->
  List.length (updated (Some (updated (Some t)))) <
  List.length (updated (Some t)).
Proof.
  intros Eb Ee.
  assert (U : updated (Some t) = t ++ appended t).
  { unfold updated. now rewrite Eb, Ee. }
  rewrite U.
  destruct (appended_split t) as (sep & Ha & _ & Hh & _ & Pe & _).
  unfold contains in Eb.
  destruct (partition MISE_BLOCK_BEGIN t) as [[a b]|] eqn:Pb; [|discriminate].
  pose proof (partition_app_found _ _ _ _ (appended t) Pb) as Pb'.
  pose proof (partition_skip MISE_BLOCK_END t (appended t) Ee Hh) as Pe'.
  rewrite Pe in Pe'.
  unfold updated, contains, split_head, split_last.
  rewrite Pb', Pe'. cbn [andb].
  pose proof (f_equal (@List.length ascii) (partition_spec _ _ _ _ Pb)) as Lt.
  pose proof (f_equal (@List.length ascii) Ha) as La.
  assert (Lb : List.length MISE_BLOCK_BEGIN = 42) by reflexivity.
  change (lstrip_nl [nl]) with (@nil ascii).
  rewrite !length_app, ?block_length in *. cbn [List.length]. lia.
Qed.

Lemma lone_end_marker_grows (t : text) :
  contains MISE_BLOCK_BEGIN t = false ->
  contains MISE_BLOCK_END t = true ->
  List.length (updated (Some t)) <
  List.length (updated (Some (updated (Some t)))).
Proof.
  intros Eb Ee.
  assert (U : updated (Some t) = t ++ appended t).
  { unfold updated. now rewrite Eb. }
  rewrite U.
  destruct (appended_split t) as (sep & Ha & Hh & _ & Pb & _ & Hl).
  unfold contains in Ee.
  destruct (partition MISE_BLOCK_END t) as [[a b]|] eqn:Pe; [|discriminate].
  pose proof (partition_app_found _ _ _ _ (appended t) Pe) as Pe'.
  pose proof (partition_skip MISE_BLOCK_BEGIN t (appended t) Eb Hh) as Pb'.
  rewrite Pb in Pb'.
  unfold updated, contains, split_head, split_last.
  rewrite Pb', Pe'. cbn [andb].
  pose proof (lstrip_nl_app_length b (appended t)) as L.
  rewrite Hl, block_length in L.
  pose proof (f_equal (@List.length ascii) Ha) as La.
  rewrite !length_app, ?block_length in *. lia.
Qed.

Lemma end_marker_first_grows (t pre rest : text) :
  partition MISE_BLOCK_BEGIN t = Some (pre, rest) ->
  contains MISE_BLOCK_END pre = true ->
  List.length (updated (Some t)) <
  List.length (updated (Some (updated (Some t)))).
Proof.
  intros Pb Ep.
  pose proof (partition_spec _ _ _ _ Pb) as Ht.
  unfold contains in Ep.
  destruct (partition MISE_BLOCK_END pre) as [[p1 p2]|] eqn:Pp; [|discriminate].
  assert (Pe : partition MISE_BLOCK_END t =
               Some (p1, p2 ++ MISE_BLOCK_BEGIN ++ rest)).
  { rewrite Ht. now apply partition_app_found. }
  set (post := lstrip_nl (p2 ++ MISE_BLOCK_BEGIN ++ rest)).
  assert (U : updated (Some t) = pre ++ MISE_BLOCK ++ post).
  { unfold updated, contains, split_head, split_last.
    rewrite Pb, Pe. reflexivity. }
  rewrite U.
  assert (Pb' : partition MISE_BLOCK_BEGIN (pre ++ MISE_BLOCK ++ post) =
                Some (pre, (MISE_BLOCK_BODY ++ MISE_BLOCK_END ++ [nl]) ++ post)).
  { unfold MISE_BLOCK. rewrite <- !app_assoc.
    rewrite (partition_replace_tail _ _ _ _
               (MISE_BLOCK_BODY ++ MISE_BLOCK_END ++ [nl] ++ post) Pb).
    reflexivity. }
  pose proof (partition_app_found _ _ _ _ (MISE_BLOCK ++ post) Pp) as Pe'.
  unfold updated, contains, split_head, split_last.
  rewrite Pb', Pe'. cbn [andb].
  pose proof (lstrip_nl_app_length p2 (MISE_BLOCK ++ post)) as L.
  change (lstrip_nl (MISE_BLOCK ++ post)) with (MISE_BLOCK ++ post) in L.
  rewrite !length_app, block_length in *. lia.
Qed.

(** On every text that is not well marked the second application changes
    the content again. *)
Lemma updated_fixed_only_if_well_marked (file : option text) :
  updated (Some (updated file)) = updated file
  -> well_marked_text file = true.
Proof.
  destruct file as [t|]; [|reflexivity].
  unfold well_marked_text, split_head. intros Hfix.
  apply (f_equal (@List.length ascii)) in Hfix.
  destruct (contains MISE_BLOCK_BEGIN t) eqn:Eb;
    destruct (contains MISE_BLOCK_END t) eqn:Ee; cbn [andb negb];
    try reflexivity.
  - pose proof Eb as Eb'. unfold contains in Eb'.
    destruct (partition MISE_BLOCK_BEGIN t) as [[pre rest]|] eqn:Pb;
      [|discriminate].
    destruct (contains MISE_BLOCK_END pre) eqn:Ep; [|reflexivity].
    pose proof (end_marker_first_grows t pre rest Pb Ep). lia.
  - pose proof (lone_begin_marker_shrinks t Eb Ee). lia.
  - pose proof (lone_end_marker_grows t Eb Ee). lia.
Qed.

(** A text with both markers and no end marker in front of the first begin
    marker is [pre], the begin marker, [mid], the end marker and [post]; the
    new text is [pre], the block, and [post] without its leading
    newlines. *)
Lemma updated_replaces_block (t pre rest : text) :
  partition MISE_BLOCK_BEGIN t = Some (pre, rest) ->
  contains MISE_BLOCK_END t = true ->
  contains MISE_BLOCK_END pre = false ->
  exists mid post,
    t = pre ++ MISE_BLOCK_BEGIN ++ mid ++ MISE_BLOCK_END ++ post /\
    contains MISE_BLOCK_BEGIN pre = false /\
    contains MISE_BLOCK_END mid = false /\
    updated (Some t) =
      pre ++ (MISE_BLOCK_BEGIN ++ MISE_BLOCK_BODY ++ MISE_BLOCK_END ++ [nl])
          ++ lstrip_nl post /\
    hd_error (lstrip_nl post) <> Some nl.
Proof.
  intros Pb Ce Hpre.
  pose proof (partition_spec _ _ _ _ Pb) as Ht.
  assert (Pe : partition MISE_BLOCK_END t =
               match partition MISE_BLOCK_END rest with
               | Some (a, b) => Some (pre ++ MISE_BLOCK_BEGIN ++ a, b)
               | None => None
               end).
  { rewrite Ht at 1.
    rewrite (partition_skip MISE_BLOCK_END pre (MISE_BLOCK_BEGIN ++ rest) Hpre eq_refl).
    rewrite end_after_begin.
    now destruct (partition MISE_BLOCK_END rest) as [[a b]|]. }
  destruct (partition MISE_BLOCK_END rest) as [[mid post]|] eqn:Pr.
  - exists mid, post. repeat split.
    + rewrite Ht at 1. now rewrite (partition_spec _ _ _ _ Pr).
    + apply (partition_head_clean MISE_BLOCK_BEGIN t pre rest); [discriminate | exact Pb].
    + apply (partition_head_clean MISE_BLOCK_END rest mid post); [discriminate | exact Pr].
    + unfold updated, contains, split_head, split_last.
      rewrite Pb, Pe. reflexivity.
    + apply lstrip_nl_head.
  - unfold contains in Ce. rewrite Pe in Ce. discriminate.
Qed.

(** Whenever an end marker stands in front of the first begin marker, the
    new text is longer than the old one with any marked range replaced by
    the block. *)
Lemma end_marker_first_never_replaces (t pre rest : text) :
  partition MISE_BLOCK_BEGIN t = Some (pre, rest) ->
  contains MISE_BLOCK_END pre = true ->
  ~ exists pre' mid post,
      t = pre' ++ MISE_BLOCK_BEGIN ++ mid ++ MISE_BLOCK_END ++ post /\
      updated (Some t) = pre' ++ MISE_BLOCK ++ lstrip_nl post.
Proof.
  intros Pb Ep (pre' & mid & post & Ht' & Hu).
  pose proof (partition_spec _ _ _ _ Pb) as Ht.
  unfold contains in Ep.
  destruct (partition MISE_BLOCK_END pre) as [[p1 p2]|] eqn:Pp; [|discriminate].
  assert (Pe : partition MISE_BLOCK_END t =
               Some (p1, p2 ++ MISE_BLOCK_BEGIN ++ rest)).
  { rewrite Ht. now apply partition_app_found. }
  assert (U : updated (Some t) =
              pre ++ MISE_BLOCK
                  ++ lstrip_nl (p2 ++ MISE_BLOCK_BEGIN ++ rest)).
  { unfold updated, contains, split_head, split_last.
    rewrite Pb, Pe. reflexivity. }
  rewrite U in Hu.
  pose proof (lstrip_nl_app_length p2 (MISE_BLOCK_BEGIN ++ rest)) as L.
  change (lstrip_nl (MISE_BLOCK_BEGIN ++ rest))
    with (MISE_BLOCK_BEGIN ++ rest) in L.
  pose proof (lstrip_nl_length post) as L'.
  assert (Lb : List.length MISE_BLOCK_BEGIN = 42) by reflexivity.
  apply (f_equal (@List.length ascii)) in Ht, Ht', Hu.
  rewrite !length_app in *. lia.
Qed.

(** A non-empty text with neither marker is followed by a newline when it
    does not end in one, then by one more newline and the block. *)
Lemma updated_appends (t : text) :
  contains MISE_BLOCK_BEGIN t = false ->
  contains MISE_BLOCK_END t = false ->
  t <> [] ->
  let sep := if ends_with_nl t then [nl] else [nl; nl] in
  updated (Some t) = t ++ sep ++ MISE_BLOCK /\
  (blank_lines_at_end t = 0 -> blank_lines_at_end (t ++ sep) = 1).
Proof.
  intros Hb He Hne sep. split.
  - unfold updated. rewrite Hb. cbn [andb].
    rewrite appended_shape, app_nil_r, <- app_assoc. reflexivity.
  - subst sep. rewrite <- (rev_involutive t). intros H0.
    apply blank_lines_after_append; [|assumption].
    intros Hr. apply Hne. rewrite <- (rev_involutive t), Hr. reflexivity.
Qed.

End MiseSpec.

Module ConfigFacts.
Import Text Mise Config Eff TextFacts MiseFacts MiseSpec.

Lemma is_cr_eq c : is_cr c = true -> c = cr.
Proof. apply Ascii.eqb_eq. Qed.

Lemma un_plain c s :
  is_cr c = false -> universal_newlines (c :: s) = c :: universal_newlines s.
Proof. intros H. cbn [universal_newlines]. now rewrite H. Qed.

Lemma un_cr_nl s : universal_newlines (cr :: nl :: s) = nl :: universal_newlines s.
Proof. reflexivity. Qed.

Lemma un_cr_other d s :
  is_nl d = false ->
  universal_newlines (cr :: d :: s) = nl :: universal_newlines (d :: s).
Proof.
  intros H. change (universal_newlines (cr :: d :: s))
    with (nl :: if is_nl d then universal_newlines s
                else universal_newlines (d :: s)).
  now rewrite H.
Qed.

(** The cases of [universal_newlines]. *)
Lemma un_ind (P : text -> Prop) :
  P [] ->
  (forall c s, is_cr c = false -> P s -> P (c :: s)) ->
  P [cr] ->
  (forall s, P s -> P (cr :: nl :: s)) ->
  (forall d s, is_nl d = false -> P (d :: s) -> P (cr :: d :: s)) ->
  forall s, P s.
Proof.
  intros H0 Hp Hc Hcn Hco s.
  assert (Q : P s /\ forall c, P (c :: s)); [|exact (proj1 Q)].
  induction s as [|d s [IH1 IH2]].
  - split; [exact H0|]. intros c. destruct (is_cr c) eqn:E.
    + apply is_cr_eq in E. now subst c.
    + now apply Hp.
  - split; [apply IH2|]. intros c. destruct (is_cr c) eqn:E.
    + apply is_cr_eq in E. subst c. destruct (is_nl d) eqn:En.
      * apply Ascii.eqb_eq in En. subst d. now apply Hcn.
      * now apply Hco.
    + apply Hp; [exact E | apply IH2].
Qed.

Lemma un_no_cr s : has_cr (universal_newlines s) = false.
Proof.
  revert s. apply (un_ind (fun s => has_cr (universal_newlines s) = false)).
  - reflexivity.
  - intros c s H IHs. rewrite un_plain by assumption. unfold has_cr in *.
    cbn [existsb]. now rewrite H, IHs.
  - reflexivity.
  - intros s IHs. rewrite un_cr_nl. exact IHs.
  - intros d s H IHs. rewrite un_cr_other by assumption. exact IHs.
Qed.

Lemma un_id s : has_cr s = false -> universal_newlines s = s.
Proof.
  unfold has_cr. induction s as [|c s IH]; [reflexivity|].
  cbn [existsb]. intros H. apply orb_false_iff in H as [Hc Hs].
  rewrite un_plain by assumption. now rewrite IH.
Qed.

Lemma has_cr_app a b : has_cr (a ++ b) = has_cr a || has_cr b.
Proof. apply existsb_app. Qed.

Lemma un_nil s : universal_newlines s = [] -> s = [].
Proof.
  destruct s as [|c s]; [reflexivity|]. cbn [universal_newlines].
  destruct (is_cr c); discriminate.
Qed.

Lemma ends_with_cr_cons c d s :
  ends_with_cr (c :: d :: s) = ends_with_cr (d :: s).
Proof.
  unfold ends_with_cr. cbn [rev].
  destruct (rev s) as [|x r]; reflexivity.
Qed.

(** Reading goes through a concatenation whose first part does not end in
    a carriage return. *)
Lemma un_app a b :
  ends_with_cr a = false ->
  universal_newlines (a ++ b) = universal_newlines a ++ universal_newlines b.
Proof.
  revert a.
  apply (un_ind (fun a =>
           ends_with_cr a = false ->
           universal_newlines (a ++ b) =
           universal_newlines a ++ universal_newlines b)).
  - reflexivity.
  - intros c a Hc IHa E. cbn [app]. rewrite !un_plain by assumption.
    cbn [app]. f_equal.
    apply IHa. destruct a as [|d a]; [reflexivity|].
    now rewrite ends_with_cr_cons in E.
  - discriminate.
  - intros a IHa E. cbn [app]. rewrite !un_cr_nl. cbn [app]. f_equal.
    apply IHa. destruct a as [|d a]; [reflexivity|].
    now rewrite !ends_with_cr_cons in E.
  - intros d a Hd IHa E. cbn [app]. rewrite !un_cr_other by assumption.
    cbn [app]. f_equal.
    apply IHa. now rewrite ends_with_cr_cons in E.
Qed.

(** A newline after any text is read as that newline, and what follows it
    as if it stood alone. *)
Lemma un_app_nl a b :
  exists p, universal_newlines (a ++ nl :: b) = p ++ nl :: universal_newlines b.
Proof.
  revert a.
  apply (un_ind (fun a =>
           exists p,
             universal_newlines (a ++ nl :: b) =
             p ++ nl :: universal_newlines b)).
  - exists []. reflexivity.
  - intros c a Hc [p Hp]. exists (c :: p). cbn [app].
    rewrite un_plain by assumption. now rewrite Hp.
  - exists []. reflexivity.
  - intros a [p Hp]. exists (nl :: p). cbn [app].
    rewrite un_cr_nl. now rewrite Hp.
  - intros d a Hd [p Hp]. exists (nl :: p). cbn [app] in *.
    rewrite un_cr_other by assumption. now rewrite Hp.
Qed.

Lemma block_no_cr : has_cr MISE_BLOCK = false.
Proof. reflexivity. Qed.

Lemma partition_no_cr sep s a b :
  partition sep s = Some (a, b) -> has_cr s = false ->
  has_cr a = false /\ has_cr b = false.
Proof.
  intros P H. rewrite (partition_spec _ _ _ _ P) in H.
  rewrite !has_cr_app in H.
  apply orb_false_iff in H as [Ha H]. apply orb_false_iff in H as [_ Hb].
  now split.
Qed.

Lemma lstrip_nl_no_cr s : has_cr s = false -> has_cr (lstrip_nl s) = false.
Proof.
  unfold has_cr. induction s as [|c s IH]; [reflexivity|].
  cbn [existsb lstrip_nl]. intros H. destruct (is_nl c); [|exact H].
  apply IH. now apply orb_false_iff in H as [_ H].
Qed.

Lemma split_head_no_cr sep s :
  has_cr s = false -> has_cr (split_head sep s) = false.
Proof.
  intros H. unfold split_head.
  destruct (partition sep s) as [[a b]|] eqn:P; [|exact H].
  now destruct (partition_no_cr _ _ _ _ P H).
Qed.

Lemma split_last_no_cr sep s :
  has_cr s = false -> has_cr (split_last sep s) = false.
Proof.
  intros H. unfold split_last.
  destruct (partition sep s) as [[a b]|] eqn:P; [|exact H].
  now destruct (partition_no_cr _ _ _ _ P H).
Qed.

Lemma appended_no_cr t : has_cr (appended t) = false.
Proof. unfold appended. destruct (ends_with_nl t); reflexivity. Qed.

(** What [updated] gives holds no carriage return when the text holds
    none. *)
Lemma updated_no_cr t : has_cr t = false -> has_cr (updated (Some t)) = false.
Proof.
  intros H. unfold updated.
  destruct (contains MISE_BLOCK_BEGIN t && contains MISE_BLOCK_END t).
  - rewrite !has_cr_app, block_no_cr.
    rewrite split_head_no_cr by assumption.
    now rewrite lstrip_nl_no_cr by (now apply split_last_no_cr).
  - now rewrite has_cr_app, H, appended_no_cr.
Qed.

(** On a file without carriage returns the call writes what [updated]
    gives for its characters. *)
Lemma update_plain raw :
  has_cr raw = false ->
  update_fish_config (Holds raw) = (Ret tt, Holds (updated (Some raw)), []).
Proof.
  intros H. unfold update_fish_config, updated. rewrite (un_id _ H).
  now destruct (contains MISE_BLOCK_BEGIN raw && contains MISE_BLOCK_END raw).
Qed.

(** On a file that is read with both markers it writes what [updated]
    gives for the text read. *)
Lemma update_marked raw :
  contains MISE_BLOCK_BEGIN (universal_newlines raw) = true ->
  contains MISE_BLOCK_END (universal_newlines raw) = true ->
  update_fish_config (Holds raw) =
  (Ret tt, Holds (updated (Some (universal_newlines raw))), []).
Proof.
  intros Hb He. unfold update_fish_config, updated. now rewrite Hb, He.
Qed.

(** Otherwise it writes after the characters of the file. *)
Lemma update_unmarked raw :
  contains MISE_BLOCK_BEGIN (universal_newlines raw)
  && contains MISE_BLOCK_END (universal_newlines raw) = false ->
  update_fish_config (Holds raw) =
  (Ret tt, Holds (raw ++ appended (universal_newlines raw)), []).
Proof. intros H. unfold update_fish_config. now rewrite H. Qed.

(** Nothing is written to a file that cannot be read. *)
Lemma update_fish_config_unreadable e :
  update_fish_config (Unreadable e) = (Raise e, Unreadable e, []).
Proof. reflexivity. Qed.

End ConfigFacts.

Module ConfigSpec.
Import Text Mise Config Eff TextFacts MiseFacts MiseSpec ConfigFacts.

Lemma calls_fixed n file :
  calls 2 file = calls 1 file -> calls (S n) file = calls 1 file.
Proof.
  revert file; induction n as [|n IH]; intros file H; [reflexivity|].
  change (calls (S (S n)) file)
    with (calls (S n) (state_of (update_fish_config file))).
  rewrite IH.
  - exact H.
  - cbn [calls] in *. now rewrite H.
Qed.

Lemma marked_after_append raw s0 :
  contains MISE_BLOCK_BEGIN
    (universal_newlines ((raw ++ s0) ++ nl :: MISE_BLOCK)) = true /\
  contains MISE_BLOCK_END
    (universal_newlines ((raw ++ s0) ++ nl :: MISE_BLOCK)) = true.
Proof.
  destruct (un_app_nl (raw ++ s0) MISE_BLOCK) as [p ->].
  rewrite (un_id MISE_BLOCK block_no_cr).
  change (p ++ nl :: MISE_BLOCK) with (p ++ [nl] ++ MISE_BLOCK).
  rewrite app_assoc. unfold MISE_BLOCK. split.
  - apply contains_infix.
  - replace ((p ++ [nl]) ++ MISE_BLOCK_BEGIN ++ MISE_BLOCK_BODY
             ++ MISE_BLOCK_END ++ [nl])
      with (((p ++ [nl]) ++ MISE_BLOCK_BEGIN ++ MISE_BLOCK_BODY)
            ++ MISE_BLOCK_END ++ [nl])
      by (now rewrite <- !app_assoc).
    apply contains_infix.
Qed.

Lemma appended_parts t :
  exists s0, appended t = s0 ++ nl :: MISE_BLOCK.
Proof. unfold appended. eauto. Qed.

(** C3 (amended).  One call of [update_fish_config] brings the file to a
    fixed point from every well-marked state of the path: when nothing
    stands there; when what stands there cannot be read (nothing is
    written); when the file is read with both markers and no end marker in
    front of the first begin marker; and when it is read with neither
    marker and holds no carriage return.  Every further call then leaves
    the characters the first one left. *)
Theorem update_fish_config_idempotent (file : config_file) :
  well_marked file = true ->
  forall n, calls (S n) file = calls 1 file.
Proof.
  intros W n. apply calls_fixed. cbn [calls].
  destruct file as [|e|raw]; [vm_compute; reflexivity | reflexivity |].
  cbn [well_marked] in W.
  destruct (contains MISE_BLOCK_BEGIN (universal_newlines raw)) eqn:Eb.
  - pose proof W as W'. apply andb_true_iff in W' as [Ee _].
    rewrite (update_marked raw Eb Ee). cbn [state_of fst snd].
    rewrite update_plain by (apply updated_no_cr, un_no_cr).
    cbn [state_of fst snd]. f_equal.
    apply (updated_idempotent (Some (universal_newlines raw))).
    cbn [well_marked_text]. now rewrite Eb.
  - apply andb_true_iff in W as [Ee Hc].
    apply negb_true_iff in Ee, Hc.
    rewrite (update_plain raw Hc). cbn [state_of fst snd].
    rewrite update_plain by (now apply updated_no_cr).
    cbn [state_of fst snd]. f_equal.
    apply (updated_idempotent (Some raw)).
    cbn [well_marked_text]. rewrite (un_id raw Hc) in Eb, Ee.
    now rewrite Eb, Ee.
Qed.

(** The amendment of C3 gives up nothing: from every state that is not
    well marked the second call changes the file again. *)
Lemma update_fish_config_fixed_only_if_well_marked (file : config_file) :
  calls 2 file = calls 1 file -> well_marked file = true.
Proof.
  destruct file as [|e|raw]; [reflexivity | reflexivity |].
  cbn [calls well_marked]. intros Hfix.
  destruct (contains MISE_BLOCK_BEGIN (universal_newlines raw)
            && contains MISE_BLOCK_END (universal_newlines raw)) eqn:Both.
  - apply andb_true_iff in Both as [Eb Ee].
    rewrite (update_marked raw Eb Ee) in Hfix. cbn [state_of fst snd] in Hfix.
    rewrite update_plain in Hfix by (apply updated_no_cr, un_no_cr).
    cbn [state_of fst snd] in Hfix. apply (f_equal characters) in Hfix. cbn [characters] in Hfix.
    apply (updated_fixed_only_if_well_marked (Some (universal_newlines raw)))
      in Hfix.
    cbn [well_marked_text] in Hfix. now rewrite Eb in *.
  - destruct (has_cr raw) eqn:Hc.
    + exfalso. rewrite (update_unmarked raw Both) in Hfix.
      cbn [state_of fst snd] in Hfix.
      destruct (appended_parts (universal_newlines raw)) as [s0 Ha].
      assert (E : raw ++ appended (universal_newlines raw) =
                  (raw ++ s0) ++ nl :: MISE_BLOCK)
        by (now rewrite Ha, <- app_assoc).
      rewrite E in Hfix.
      destruct (marked_after_append raw s0) as [Mb Me].
      rewrite (update_marked _ Mb Me) in Hfix. cbn [state_of fst snd] in Hfix.
      apply (f_equal characters) in Hfix. cbn [characters] in Hfix.
      apply (f_equal has_cr) in Hfix.
      rewrite updated_no_cr in Hfix by apply un_no_cr.
      rewrite !has_cr_app, Hc in Hfix. discriminate.
    + rewrite (update_plain raw Hc) in Hfix. cbn [state_of fst snd] in Hfix.
      rewrite update_plain in Hfix by (now apply updated_no_cr).
      cbn [state_of fst snd] in Hfix. apply (f_equal characters) in Hfix. cbn [characters] in Hfix.
      apply (updated_fixed_only_if_well_marked (Some raw)) in Hfix.
      cbn [well_marked_text] in Hfix. rewrite (un_id raw Hc) in *.
      destruct (contains MISE_BLOCK_BEGIN raw); [exact Hfix|].
      now rewrite Hfix.
Qed.

Lemma update_fish_config_idempotent_witness :
  calls 3 (Holds (txt "set -gx EDITOR nvim")) =
  calls 1 (Holds (txt "set -gx EDITOR nvim")).
Proof.
  exact (update_fish_config_idempotent (Holds (txt "set -gx EDITOR nvim"))
           eq_refl 2).
Defined.

(** C3 as stated fails.  On a file that holds the begin marker line alone
    the first call appends a block and the second one replaces everything
    from the stray marker on; on a file with neither marker whose lines end
    in a carriage return and a newline the first call appends after the
    characters as they are and the second one writes the whole file again
    with newlines alone.  In both cases the second call leaves other
    characters than the first. *)
Lemma update_fish_config_not_fixed :
  calls 2 (Holds (MISE_BLOCK_BEGIN ++ [nl])) <>
  calls 1 (Holds (MISE_BLOCK_BEGIN ++ [nl])) /\
  calls 1 (Holds (txt "set -gx EDITOR nvim" ++ [cr; nl])) =
  Holds (txt "set -gx EDITOR nvim" ++ [cr; nl] ++ nl :: MISE_BLOCK) /\
  calls 2 (Holds (txt "set -gx EDITOR nvim" ++ [cr; nl])) =
  Holds (txt "set -gx EDITOR nvim" ++ [nl] ++ nl :: MISE_BLOCK).
Proof.
  split; [|split; vm_compute; reflexivity].
  intros H. apply (f_equal (fun f => List.length (characters f))) in H.
  vm_compute in H. discriminate H.
Qed.

(** C6 (amended).  When the file is read with both markers and no end
    marker stands in front of the first begin marker, the text read is
    [pre], the begin marker, [mid], the end marker and [post], with no
    begin marker in [pre] and no end marker in [mid]; the call returns and
    the file then holds [pre], the block, and [post] without its leading
    newlines: the block ends in one newline and what follows it does not
    start with one.  What stood before and after the markers is kept as it
    was read, that is, with every line end written as a newline; on a file
    without carriage returns [pre] and [post] are the characters of the
    file themselves. *)
Theorem update_fish_config_replaces_block (raw pre rest : text) :
  partition MISE_BLOCK_BEGIN (universal_newlines raw) = Some (pre, rest) ->
  contains MISE_BLOCK_END (universal_newlines raw) = true ->
  contains MISE_BLOCK_END pre = false ->
  exists mid post,
    universal_newlines raw =
      pre ++ MISE_BLOCK_BEGIN ++ mid ++ MISE_BLOCK_END ++ post /\
    contains MISE_BLOCK_BEGIN pre = false /\
    contains MISE_BLOCK_END mid = false /\
    update_fish_config (Holds raw) =
      (Ret tt,
       Holds (pre
              ++ (MISE_BLOCK_BEGIN ++ MISE_BLOCK_BODY ++ MISE_BLOCK_END ++ [nl])
              ++ lstrip_nl post),
       []) /\
    hd_error (lstrip_nl post) <> Some nl /\
    (has_cr raw = false ->
     raw = pre ++ MISE_BLOCK_BEGIN ++ mid ++ MISE_BLOCK_END ++ post).
Proof.
  intros Pb Ce Hpre.
  destruct (updated_replaces_block _ pre rest Pb Ce Hpre)
    as (mid & post & Ht & Hb & Hm & Hu & Hh).
  exists mid, post.
  assert (Cb : contains MISE_BLOCK_BEGIN (universal_newlines raw) = true)
    by (unfold contains; now rewrite Pb).
  repeat split; try assumption.
  - rewrite (update_marked raw Cb Ce). now rewrite Hu.
  - intros Hc. now rewrite <- Ht, (un_id raw Hc).
Qed.

Lemma update_fish_config_replaces_block_witness :
  let pre := txt "set -gx EDITOR nvim" ++ [nl] in
  let rest :=
    nl :: txt "old" ++ nl :: MISE_BLOCK_END ++ nl :: nl :: txt "alias v nvim" in
  exists mid post,
    universal_newlines (pre ++ MISE_BLOCK_BEGIN ++ rest) =
      pre ++ MISE_BLOCK_BEGIN ++ mid ++ MISE_BLOCK_END ++ post /\
    contains MISE_BLOCK_BEGIN pre = false /\
    contains MISE_BLOCK_END mid = false /\
    update_fish_config (Holds (pre ++ MISE_BLOCK_BEGIN ++ rest)) =
      (Ret tt,
       Holds (pre
              ++ (MISE_BLOCK_BEGIN ++ MISE_BLOCK_BODY ++ MISE_BLOCK_END ++ [nl])
              ++ lstrip_nl post),
       []) /\
    hd_error (lstrip_nl post) <> Some nl /\
    (has_cr (pre ++ MISE_BLOCK_BEGIN ++ rest) = false ->
     pre ++ MISE_BLOCK_BEGIN ++ rest =
     pre ++ MISE_BLOCK_BEGIN ++ mid ++ MISE_BLOCK_END ++ post).
Proof.
  intros pre rest.
  apply (update_fish_config_replaces_block
           (pre ++ MISE_BLOCK_BEGIN ++ rest) pre rest);
    vm_compute; reflexivity.
Defined.

(** The amendment of C6 gives up nothing: whenever an end marker is read
    in front of the first begin marker, the file the call leaves is longer
    than the text read with any marked range replaced by the block. *)
Lemma end_marker_first_is_not_replaced (raw pre rest : text) :
  partition MISE_BLOCK_BEGIN (universal_newlines raw) = Some (pre, rest) ->
  contains MISE_BLOCK_END pre = true ->
  ~ exists pre' mid post,
      universal_newlines raw =
        pre' ++ MISE_BLOCK_BEGIN ++ mid ++ MISE_BLOCK_END ++ post /\
      calls 1 (Holds raw) = Holds (pre' ++ MISE_BLOCK ++ lstrip_nl post).
Proof.
  intros Pb Ep (pre' & mid & post & Ht & Hu).
  apply (end_marker_first_never_replaces _ pre rest Pb Ep).
  exists pre', mid, post. split; [exact Ht|].
  assert (Cb : contains MISE_BLOCK_BEGIN (universal_newlines raw) = true)
    by (unfold contains; now rewrite Pb).
  assert (Ce : contains MISE_BLOCK_END (universal_newlines raw) = true).
  { unfold contains in *.
    destruct (partition MISE_BLOCK_END pre) as [[a b]|] eqn:Pp; [|discriminate].
    rewrite (partition_spec _ _ _ _ Pb).
    now rewrite (partition_app_found _ _ _ _ _ Pp). }
  cbn [calls] in Hu. rewrite (update_marked raw Cb Ce) in Hu.
  apply (f_equal characters) in Hu. exact Hu.
Qed.

(** C6 as stated fails.  In a file where an end marker line stands in front
    of a complete block both markers are present, yet for no range from a
    begin marker through an end marker is the new content the file with
    that range replaced by the block (the old block is kept after the new
    one).  And in a file whose lines end in a carriage return and a newline
    the characters in front of the block are not kept: the call writes
    them back with newlines alone. *)
Lemma update_fish_config_does_not_replace :
  (let t := MISE_BLOCK_END ++ nl :: MISE_BLOCK in
   contains MISE_BLOCK_BEGIN (universal_newlines t) = true /\
   contains MISE_BLOCK_END (universal_newlines t) = true /\
   ~ exists pre mid post,
       t = pre ++ MISE_BLOCK_BEGIN ++ mid ++ MISE_BLOCK_END ++ post /\
       calls 1 (Holds t) = Holds (pre ++ MISE_BLOCK ++ lstrip_nl post)) /\
  (let before := txt "set -gx EDITOR nvim" ++ [cr; nl] in
   contains MISE_BLOCK_BEGIN (universal_newlines (before ++ MISE_BLOCK))
   = true /\
   contains MISE_BLOCK_END (universal_newlines (before ++ MISE_BLOCK))
   = true /\
   calls 1 (Holds (before ++ MISE_BLOCK)) =
   Holds (txt "set -gx EDITOR nvim" ++ [nl] ++ MISE_BLOCK) /\
   ~ exists after, characters (calls 1 (Holds (before ++ MISE_BLOCK)))
                   = before ++ after).
Proof.
  split.
  - intros t. split; [reflexivity|]. split; [reflexivity|].
    intros (pre & mid & post & Ht & Hu).
    apply (f_equal (fun f => List.length (characters f))) in Hu.
    apply (f_equal (@List.length ascii)) in Ht.
    cbn [characters] in Hu.
    pose proof (lstrip_nl_length post) as Hl.
    assert (L1 : List.length t = 174) by (vm_compute; reflexivity).
    assert (L2 : List.length (characters (calls 1 (Holds t))) = 305)
      by (vm_compute; reflexivity).
    assert (Lb : List.length MISE_BLOCK_BEGIN = 42) by reflexivity.
    assert (Le : List.length MISE_BLOCK_END = 42) by reflexivity.
    assert (Lk : List.length MISE_BLOCK = 131) by reflexivity.
    rewrite L1 in Ht. rewrite L2 in Hu.
    rewrite !length_app in Ht. rewrite !length_app in Hu.
    lia.
  - intros before. split; [reflexivity|]. split; [reflexivity|].
    split; [vm_compute; reflexivity|].
    intros [after H]. vm_compute in H. discriminate H.
Qed.

(** C7 (amended).  On a file that is not empty and is read with neither
    marker the call returns and the file then holds its characters as they
    were, followed by a newline when the text read does not end in one,
    then by one more newline and the block.  When the file does not end in
    a carriage return and the text read does not end in an empty line,
    exactly one empty line stands between that text and the block. *)
Theorem update_fish_config_appends (raw : text) :
  contains MISE_BLOCK_BEGIN (universal_newlines raw) = false ->
  contains MISE_BLOCK_END (universal_newlines raw) = false ->
  raw <> [] ->
  let sep := if ends_with_nl (universal_newlines raw) then [nl] else [nl; nl] in
  update_fish_config (Holds raw) =
    (Ret tt, Holds (raw ++ sep ++ MISE_BLOCK), []) /\
  (ends_with_cr raw = false ->
   blank_lines_at_end (universal_newlines raw) = 0 ->
   blank_lines_at_end (universal_newlines (raw ++ sep)) = 1).
Proof.
  intros Hb He Hne sep. split.
  - rewrite update_unmarked by (now rewrite Hb).
    unfold appended. subst sep.
    destruct (ends_with_nl (universal_newlines raw)); reflexivity.
  - intros Hc H0. rewrite (un_app raw sep Hc).
    assert (Hs : universal_newlines sep = sep)
      by (subst sep; now destruct (ends_with_nl (universal_newlines raw))).
    rewrite Hs.
    apply (updated_appends (universal_newlines raw) Hb He); [|exact H0].
    intros E. apply Hne. now apply un_nil.
Qed.

Lemma update_fish_config_appends_witness :
  let raw := txt "set -gx EDITOR nvim" in
  update_fish_config (Holds raw) =
    (Ret tt, Holds (raw ++ [nl; nl] ++ MISE_BLOCK), []) /\
  (ends_with_cr raw = false ->
   blank_lines_at_end (universal_newlines raw) = 0 ->
   blank_lines_at_end (universal_newlines (raw ++ [nl; nl])) = 1).
Proof.
  apply (update_fish_config_appends (txt "set -gx EDITOR nvim"));
    [reflexivity | reflexivity | discriminate].
Defined.

(** C7 as stated fails.  The empty file holds neither marker and does not
    end in an empty line, and the block is written after two newlines, that
    is, after two empty lines.  A file that ends in a carriage return alone
    holds neither marker and does not end in an empty line either, and the
    block is written after one newline, which with the carriage return is
    one line end: no empty line stands in front of the block.  (A file that
    already ends in an empty line gets one more newline all the same.) *)
Lemma update_fish_config_no_blank_line :
  (contains MISE_BLOCK_BEGIN (universal_newlines []) = false /\
   contains MISE_BLOCK_END (universal_newlines []) = false /\
   blank_lines_at_end (universal_newlines []) = 0 /\
   ~ exists sep,
       calls 1 (Holds []) = Holds ([] ++ sep ++ MISE_BLOCK) /\
       blank_lines_at_end (universal_newlines ([] ++ sep)) = 1) /\
  (let raw := txt "alias v vim" ++ [cr] in
   contains MISE_BLOCK_BEGIN (universal_newlines raw) = false /\
   contains MISE_BLOCK_END (universal_newlines raw) = false /\
   blank_lines_at_end (universal_newlines raw) = 0 /\
   calls 1 (Holds raw) = Holds (raw ++ [nl] ++ MISE_BLOCK) /\
   blank_lines_at_end (universal_newlines (raw ++ [nl])) = 0) /\
  calls 1 (Holds (txt "alias v vim" ++ [nl; nl])) =
  Holds (txt "alias v vim" ++ [nl; nl; nl] ++ MISE_BLOCK).
Proof.
  split; [|split; [|vm_compute; reflexivity]].
  - repeat split.
    intros (sep & H & Hb).
    apply (f_equal characters) in H.
    change (characters (calls 1 (Holds []))) with ([nl; nl] ++ MISE_BLOCK) in H.
    cbn [characters app] in H.
    change (nl :: nl :: MISE_BLOCK) with ([nl; nl] ++ MISE_BLOCK) in H.
    apply app_inv_tail in H. subst sep. discriminate Hb.
  - intros raw. repeat split.
Qed.

(** The blocks pile up: one more with each call. *)
Lemma grows_by_a_block (t pre rest : text) :
  partition MISE_BLOCK_BEGIN t = Some (pre, rest) ->
  contains MISE_BLOCK_END pre = true ->
  (exists rest',
     partition MISE_BLOCK_BEGIN (updated (Some t)) = Some (pre, rest')) /\
  List.length t + List.length MISE_BLOCK <= List.length (updated (Some t)).
Proof.
  intros Pb Ep.
  pose proof (partition_spec _ _ _ _ Pb) as Ht.
  unfold contains in Ep.
  destruct (partition MISE_BLOCK_END pre) as [[p1 p2]|] eqn:Pp; [|discriminate].
  assert (Pe : partition MISE_BLOCK_END t =
               Some (p1, p2 ++ MISE_BLOCK_BEGIN ++ rest)).
  { rewrite Ht. now apply partition_app_found. }
  set (post := lstrip_nl (p2 ++ MISE_BLOCK_BEGIN ++ rest)).
  assert (U : updated (Some t) = pre ++ MISE_BLOCK ++ post).
  { unfold updated, contains, split_head, split_last.
    rewrite Pb, Pe. reflexivity. }
  rewrite U. split.
  - eexists. unfold MISE_BLOCK. rewrite <- !app_assoc.
    exact (partition_replace_tail _ _ _ _
             (MISE_BLOCK_BODY ++ MISE_BLOCK_END ++ [nl] ++ post) Pb).
  - pose proof (lstrip_nl_app_length p2 (MISE_BLOCK_BEGIN ++ rest)) as L.
    change (lstrip_nl (MISE_BLOCK_BEGIN ++ rest))
      with (MISE_BLOCK_BEGIN ++ rest) in L.
    fold post in L.
    apply (f_equal (@List.length ascii)) in Ht.
    rewrite !length_app in *. lia.
Qed.

Lemma piles_up n : forall t pre rest,
  has_cr t = false ->
  partition MISE_BLOCK_BEGIN t = Some (pre, rest) ->
  contains MISE_BLOCK_END pre = true ->
  List.length t + n * List.length MISE_BLOCK
  <= List.length (characters (calls n (Holds t))).
Proof.
  induction n as [|n IH]; intros t pre rest Hc Pb Ep.
  - cbn [calls characters]. lia.
  - cbn [calls]. rewrite (update_plain t Hc). cbn [state_of fst snd].
    destruct (grows_by_a_block t pre rest Pb Ep) as [[rest' Pb'] L].
    pose proof (IH _ pre rest' (updated_no_cr t Hc) Pb' Ep) as L'.
    cbn [Nat.mul]. lia.
Qed.

(** X4.  The blocks pile up on a file in which an end marker is read in
    front of the first begin marker (a stray end marker line above the
    block, say): each call writes one more block, and after [S n] calls the
    file is longer than the text first read by [S n] blocks at least.  No
    number of runs brings such a file to rest. *)
Theorem update_fish_config_accumulates (raw pre rest : text) (n : nat) :
  partition MISE_BLOCK_BEGIN (universal_newlines raw) = Some (pre, rest) ->
  contains MISE_BLOCK_END pre = true ->
  List.length (universal_newlines raw) + S n * List.length MISE_BLOCK
  <= List.length (characters (calls (S n) (Holds raw))).
Proof.
  intros Pb Ep.
  assert (Cb : contains MISE_BLOCK_BEGIN (universal_newlines raw) = true)
    by (unfold contains; now rewrite Pb).
  assert (Ce : contains MISE_BLOCK_END (universal_newlines raw) = true).
  { unfold contains in *.
    destruct (partition MISE_BLOCK_END pre) as [[a b]|] eqn:Pp; [|discriminate].
    rewrite (partition_spec _ _ _ _ Pb).
    now rewrite (partition_app_found _ _ _ _ _ Pp). }
  cbn [calls]. rewrite (update_marked raw Cb Ce). cbn [state_of fst snd].
  destruct (grows_by_a_block _ pre rest Pb Ep) as [[rest' Pb'] L].
  pose proof (piles_up n _ pre rest' (updated_no_cr _ (un_no_cr raw)) Pb' Ep)
    as L'.
  cbn [Nat.mul]. lia.
Qed.

Lemma update_fish_config_accumulates_witness :
  let raw := MISE_BLOCK_END ++ nl :: MISE_BLOCK in
  List.length (universal_newlines raw) + 3 * List.length MISE_BLOCK
  <= List.length (characters (calls 3 (Holds raw))).
Proof.
  exact (update_fish_config_accumulates
           (MISE_BLOCK_END ++ nl :: MISE_BLOCK)
           (MISE_BLOCK_END ++ [nl])
           (MISE_BLOCK_BODY ++ MISE_BLOCK_END ++ [nl])
           2 eq_refl eq_refl).
Defined.

End ConfigSpec.

Module FSFacts.
Import Text FS.

Lemma child_set_same c o es : child c (set_child c o es) = o.
Proof.
  unfold child, set_child.
  assert (F : find (fun kv : string * node => String.eqb c (fst kv))
                (filter (fun kv => negb (String.eqb c (fst kv))) es) = None).
  { induction es as [|[k v] es IH]; simpl; [reflexivity|].
    destruct (String.eqb c k) eqn:E; simpl; [assumption|].
    now rewrite E. }
  destruct o as [v|]; simpl.
  - now rewrite String.eqb_refl.
  - now rewrite F.
Qed.

Lemma child_set_other c d o es :
  String.eqb d c = false -> child d (set_child c o es) = child d es.
Proof.
  intros Hdc. unfold child, set_child.
  assert (F : find (fun kv : string * node => String.eqb d (fst kv))
                (filter (fun kv => negb (String.eqb c (fst kv))) es) =
              find (fun kv : string * node => String.eqb d (fst kv)) es).
  { induction es as [|[k v] es IH]; simpl; [reflexivity|].
    destruct (String.eqb c k) eqn:E; simpl.
    - apply String.eqb_eq in E; subst k. now rewrite Hdc.
    - now rewrite IH. }
  destruct o as [v|]; simpl; [rewrite Hdc|]; now rewrite F.
Qed.

Lemma is_prefix_refl p : is_prefix p p = true.
Proof. induction p; simpl; [reflexivity|]. now rewrite String.eqb_refl. Qed.

Lemma is_prefix_app p q : is_prefix p (p ++ q) = true.
Proof. induction p; simpl; [reflexivity|]. now rewrite String.eqb_refl. Qed.

Lemma is_prefix_spec p q : is_prefix p q = true -> exists r, q = p ++ r.
Proof.
  revert q; induction p as [|a p IH]; intros q H; [now exists q|].
  destruct q as [|b q]; [discriminate|]. simpl in H.
  apply andb_true_iff in H as [Hab H]. apply String.eqb_eq in Hab; subst b.
  destruct (IH _ H) as [r ->]. now exists r.
Qed.

Lemma is_prefix_trans p q r :
  is_prefix p q = true -> is_prefix q r = true -> is_prefix p r = true.
Proof.
  intros H1 H2.
  destruct (is_prefix_spec _ _ H1) as [a ->].
  destruct (is_prefix_spec _ _ H2) as [b ->].
  rewrite <- app_assoc. apply is_prefix_app.
Qed.

Lemma parent_is_prefix p : is_prefix (parent p) p = true.
Proof.
  unfold parent. destruct p as [|c q _] using rev_ind; [reflexivity|].
  rewrite removelast_last. apply is_prefix_app.
Qed.

Lemma path_eqb_eq p q : path_eqb p q = true <-> p = q.
Proof.
  revert q; induction p as [|a p IH]; intros [|b q]; simpl; split;
    try congruence; try discriminate.
  - intros H. apply andb_true_iff in H as [Hab H].
    apply String.eqb_eq in Hab. apply IH in H. congruence.
  - intros [= -> ->]. rewrite String.eqb_refl. now apply IH.
Qed.

(** ** [lstat] after [store] *)

Lemma lstat_store_same n p o n' :
  store n p o = Ok n' -> lstat n' p = o.
Proof.
  revert n n'; induction p as [|c p IH]; intros n n' H; [discriminate|].
  cbn [store] in H. destruct n as [| |es]; try discriminate.
  destruct p as [|c' p].
  - injection H as <-. cbn [lstat]. rewrite child_set_same.
    destruct o; reflexivity.
  - destruct (child c es) as [k|] eqn:Ek; [|discriminate].
    destruct (store k (c' :: p) o) as [k'|e] eqn:Es; [|discriminate].
    injection H as <-.
    change (lstat (Dir (set_child c (Some k') es)) (c :: c' :: p))
      with (match child c (set_child c (Some k') es) with
            | Some k0 => lstat k0 (c' :: p) | None => None end).
    rewrite child_set_same. eapply IH; eassumption.
Qed.

Lemma lstat_store_apart n p o n' q :
  store n p o = Ok n' -> apart p q = true -> lstat n' q = lstat n q.
Proof.
  unfold apart. revert n n' q; induction p as [|c p IH]; intros n n' q H A;
    [discriminate|].
  cbn [store] in H. destruct n as [| |es]; try discriminate.
  destruct q as [|d q]; [simpl in A; discriminate|].
  cbn [is_prefix] in A.
  destruct (String.eqb d c) eqn:Edc.
  - apply String.eqb_eq in Edc; subst d. rewrite String.eqb_refl in A.
    cbn [andb] in A.
    destruct p as [|c' p]; [discriminate|].
    destruct (child c es) as [k|] eqn:Ek; [|discriminate].
    destruct (store k (c' :: p) o) as [k'|e] eqn:Es; [|discriminate].
    injection H as <-. cbn [lstat]. rewrite child_set_same, Ek.
    eapply IH; eassumption.
  - assert (Hn' : exists es', n' = Dir es' /\ child d es' = child d es).
    { destruct p as [|c' p].
      - injection H as <-. eexists; split; [reflexivity|].
        now apply child_set_other.
      - destruct (child c es) as [k|]; [|discriminate].
        destruct (store k (c' :: p) o) as [k'|e]; [|discriminate].
        injection H as <-. eexists; split; [reflexivity|].
        now apply child_set_other. }
    destruct Hn' as (es' & -> & Hc). cbn [lstat]. now rewrite Hc.
Qed.

Lemma lstat_create_dirs n p n' q :
  create_dirs n p = Ok n' -> is_prefix q p = false -> lstat n' q = lstat n q.
Proof.
  revert n n' q; induction p as [|c p IH]; intros n n' q H A.
  - simpl in H. destruct n; try discriminate. now injection H as <-.
  - cbn [create_dirs] in H. destruct n as [| |es]; try discriminate.
    destruct (create_dirs
                match child c es with Some k => k | None => Dir [] end p)
      as [k'|e] eqn:Ec; [|discriminate].
    injection H as <-.
    destruct q as [|d q]; [discriminate|]. cbn [is_prefix] in A.
    cbn [lstat].
    destruct (String.eqb d c) eqn:Edc.
    + apply String.eqb_eq in Edc; subst d. cbn [andb] in A.
      rewrite child_set_same, (IH _ _ _ Ec A).
      destruct (child c es) as [k|]; [reflexivity|].
      destruct q; [discriminate | reflexivity].
    + now rewrite child_set_other.
Qed.

Lemma store_step a p es o :
  p <> [] ->
  store (Dir es) (a :: p) o =
  match child a es with
  | Some k =>
      match store k p o with
      | Ok k' => Ok (Dir (set_child a (Some k') es))
      | Err e => Err e
      end
  | None => Err ENOENT
  end.
Proof. destruct p; [congruence | reflexivity]. Qed.

Lemma snoc_not_nil (p : path) c : p ++ [c] <> [].
Proof. destruct p; discriminate. Qed.

(** A path that holds something has a directory as its parent, and the
    entry can then be written. *)
Lemma store_ok n p c x o :
  lstat n (p ++ [c]) = Some x -> exists n', store n (p ++ [c]) o = Ok n'.
Proof.
  revert n; induction p as [|a p IH]; intros n H.
  - simpl in *. destruct n as [| |es]; try discriminate. eauto.
  - change ((a :: p) ++ [c]) with (a :: (p ++ [c])) in *.
    cbn [lstat] in H. destruct n as [| |es]; try discriminate.
    rewrite store_step by apply snoc_not_nil.
    destruct (child a es) as [k|]; [|discriminate].
    destruct (IH _ H) as [k' ->]. eauto.
Qed.

(** Writing a sibling succeeds where writing an entry did. *)
Lemma store_sibling_ok n p c o n' d o' :
  store n (p ++ [c]) o = Ok n' -> exists n'', store n' (p ++ [d]) o' = Ok n''.
Proof.
  revert n n'; induction p as [|a p IH]; intros n n' H.
  - simpl in *. destruct n as [| |es]; try discriminate.
    injection H as <-. eauto.
  - change ((a :: p) ++ [c]) with (a :: (p ++ [c])) in H.
    change ((a :: p) ++ [d]) with (a :: (p ++ [d])).
    destruct n as [| |es]; try discriminate.
    rewrite store_step in H by apply snoc_not_nil.
    destruct (child a es) as [k|]; [|discriminate].
    destruct (store k (p ++ [c]) o) as [k'|e] eqn:Es; [|discriminate].
    injection H as <-.
    rewrite store_step by apply snoc_not_nil.
    rewrite child_set_same.
    destruct (IH _ _ Es) as [k'' ->]. eauto.
Qed.

Lemma lstat_parent_after_store n p c o n' :
  store n (p ++ [c]) o = Ok n' -> exists es, lstat n' p = Some (Dir es).
Proof.
  revert n n'; induction p as [|a p IH]; intros n n' H.
  - simpl in H. destruct n as [| |es]; try discriminate.
    injection H as <-. simpl. eauto.
  - change ((a :: p) ++ [c]) with (a :: (p ++ [c])) in H.
    destruct n as [| |es]; try discriminate.
    rewrite store_step in H by apply snoc_not_nil.
    destruct (child a es) as [k|]; [|discriminate].
    destruct (store k (p ++ [c]) o) as [k'|e] eqn:Es; [|discriminate].
    injection H as <-. cbn [lstat]. rewrite child_set_same. eauto.
Qed.

Lemma stat_not_link root p x :
  lstat root p = Some x -> not_link x = true -> stat root p = Some x.
Proof.
  unfold stat, MAXSYMLINKS. intros H Hx. cbn [stat_from]. rewrite H.
  destruct x; try reflexivity. discriminate.
Qed.

Lemma stat_absent root p : lstat root p = None -> stat root p = None.
Proof. unfold stat, MAXSYMLINKS. intros H. cbn [stat_from]. now rewrite H. Qed.

End FSFacts.

Module EffFacts.
Import Eff.

Lemma state_of_bind {S A B} (c : M S A) (k : A -> M S B) s :
  state_of (bind c k s) =
  match c s with
  | (Ret a, s', _) => state_of (k a s')
  | (Raise _, s', _) => s'
  end.
Proof.
  unfold bind, state_of.
  destruct (c s) as [[[a|e] s'] l]; [destruct (k a s') as [[r s''] l']|];
    reflexivity.
Qed.

Lemma outcome_of_bind {S A B} (c : M S A) (k : A -> M S B) s :
  outcome_of (bind c k s) =
  match c s with
  | (Ret a, s', _) => outcome_of (k a s')
  | (Raise e, _, _) => Raise e
  end.
Proof.
  unfold bind, outcome_of.
  destruct (c s) as [[[a|e] s'] l]; [destruct (k a s') as [[r s''] l']|];
    reflexivity.
Qed.

Lemma state_of_try {S A} (body : M S A) (h : exn -> M S A) s :
  state_of (try_except body h s) =
  match body s with
  | (Raise e, s', _) => if is_Exception e then state_of (h e s') else s'
  | (Ret _, s', _) => s'
  end.
Proof.
  unfold try_except, state_of.
  destruct (body s) as [[[a|e] s'] l]; [reflexivity|].
  destruct (is_Exception e); [destruct (h e s') as [[r s''] l']|]; reflexivity.
Qed.

Lemma outcome_of_try {S A} (body : M S A) (h : exn -> M S A) s :
  outcome_of (try_except body h s) =
  match body s with
  | (Raise e, s', _) => if is_Exception e then outcome_of (h e s') else Raise e
  | (Ret a, _, _) => Ret a
  end.
Proof.
  unfold try_except, outcome_of.
  destruct (body s) as [[[a|e] s'] l]; [reflexivity|].
  destruct (is_Exception e); [destruct (h e s') as [[r s''] l']|]; reflexivity.
Qed.

(** What holds after the first part, and is preserved by the second, holds
    after both. *)
Lemma bind_post {S A B} (P : S -> Prop) (c : M S A) (k : A -> M S B) s :
  P (state_of (c s)) -> (forall a, preserves P (k a)) ->
  P (state_of (bind c k s)).
Proof.
  intros Hc Hk. rewrite state_of_bind.
  destruct (c s) as [[[a|e] s'] l]; [apply Hk|]; exact Hc.
Qed.

Lemma try_post {S A} (P : S -> Prop) (body : M S A) (h : exn -> M S A) s :
  P (state_of (body s)) -> (forall e, preserves P (h e)) ->
  P (state_of (try_except body h s)).
Proof.
  intros Hb Hh. rewrite state_of_try.
  destruct (body s) as [[[a|e] s'] l]; [exact Hb|].
  destruct (is_Exception e); [apply Hh|]; exact Hb.
Qed.

Lemma preserves_bind {S A B} (P : S -> Prop) (c : M S A) (k : A -> M S B) :
  preserves P c -> (forall a, preserves P (k a)) -> preserves P (bind c k).
Proof. intros Hc Hk s Hs. apply bind_post; auto. Qed.

Lemma preserves_try {S A} (P : S -> Prop) (body : M S A) (h : exn -> M S A) :
  preserves P body -> (forall e, preserves P (h e)) ->
  preserves P (try_except body h).
Proof. intros Hb Hh s Hs. apply try_post; auto. Qed.

Lemma preserves_ret {S A} (P : S -> Prop) (a : A) : preserves P (ret a).
Proof. intros s Hs. exact Hs. Qed.

Lemma preserves_gets {S A} (P : S -> Prop) (f : S -> A) : preserves P (gets f).
Proof. intros s Hs. exact Hs. Qed.

Lemma preserves_print {S} (P : S -> Prop) msg st :
  preserves P (@print_status S msg st).
Proof. intros s Hs. exact Hs. Qed.

Lemma preserves_syscall (P : FS.node -> Prop) op :
  (forall fs fs', op fs = FS.Ok fs' -> P fs -> P fs') ->
  preserves P (syscall op).
Proof.
  intros H fs Hs. unfold syscall, state_of.
  destruct (op fs) as [fs'|e] eqn:E; simpl; eauto.
Qed.

Lemma warned_app l1 l2 : warned (l1 ++ l2) = warned l1 || warned l2.
Proof. apply existsb_app. Qed.

Lemma warns_bind {S A} (c : M S A) (k : A -> M S bool) :
  (forall a, warns_on_false (k a)) -> warns_on_false (bind c k).
Proof.
  intros Hk s s' l H. unfold bind in H.
  destruct (c s) as [[[a|e] s1] l1]; [|discriminate].
  destruct (k a s1) as [[r s2] l2] eqn:K. injection H as Hr Hs Hl.
  subst. rewrite warned_app, (Hk _ _ _ _ K). apply orb_true_r.
Qed.

Lemma warns_after_warning {S} msg (k : unit -> M S bool) :
  warns_on_false (bind (print_status msg WARNING) k).
Proof.
  intros s s' l H. unfold bind, print_status in H.
  destruct (k tt s) as [[r s2] l2]. injection H as Hr Hs Hl.
  subst. reflexivity.
Qed.

Lemma warns_ret_true {S} : warns_on_false (@ret S bool true).
Proof. intros s s' l H. discriminate H. Qed.

Lemma warns_try {S} (body : M S bool) (h : exn -> M S bool) :
  warns_on_false body -> (forall e, warns_on_false (h e)) ->
  warns_on_false (try_except body h).
Proof.
  intros Hb Hh s s' l H. unfold try_except in H.
  destruct (body s) as [[[a|e] s1] l1] eqn:B.
  - injection H as Hr Hs Hl. subst. eapply Hb; eassumption.
  - destruct (is_Exception e); [|discriminate].
    destruct (h e s1) as [[r s2] l2] eqn:E. injection H as Hr Hs Hl.
    subst. rewrite warned_app, (Hh _ _ _ _ E). apply orb_true_r.
Qed.

Ltac warns :=
  repeat first
    [ apply warns_after_warning
    | apply warns_ret_true
    | apply warns_try; [|intros ?]
    | apply warns_bind; intros ?
    | match goal with
      | |- warns_on_false (if ?b then _ else _) => destruct b
      | |- warns_on_false (let '(_, _) := ?r in _) => destruct r
      end ].

End EffFacts.

Module LinksFacts.
Import Text FS Eff Links FSFacts EffFacts.
Local Open Scope eff_scope.

Lemma unlink_frame fs p fs' q :
  unlink fs p = Ok fs' -> apart p q = true -> lstat fs' q = lstat fs q.
Proof.
  unfold unlink. destruct (lstat fs p) as [[| |]|]; try discriminate;
    intros; eapply lstat_store_apart; eauto.
Qed.

Lemma symlink_frame fs t p fs' q :
  symlink fs t p = Ok fs' -> apart p q = true -> lstat fs' q = lstat fs q.
Proof.
  unfold symlink. destruct (lstat fs p); try discriminate;
    intros; eapply lstat_store_apart; eauto.
Qed.

Lemma rename_frame fs a b fs' q :
  rename fs a b = Ok fs' -> apart a q = true -> apart b q = true ->
  lstat fs' q = lstat fs q.
Proof.
  unfold rename. intros H Ha Hb.
  destruct (lstat fs a) as [x|]; [|discriminate].
  destruct (path_eqb a b); [now injection H as <-|].
  destruct (is_prefix a b); [discriminate|].
  assert (G : match store fs a None with
              | Ok root' => store root' b (Some x)
              | Err e => Err e
              end = Ok fs' -> lstat fs' q = lstat fs q).
  { destruct (store fs a None) as [fs1|] eqn:S1; [|discriminate].
    intros S2. rewrite (lstat_store_apart _ _ _ _ _ S2 Hb).
    eapply lstat_store_apart; eauto. }
  destruct (lstat fs b) as [[| |[|]]|]; destruct x; try discriminate; auto.
Qed.

Lemma mkdir_parents_frame fs p fs' q :
  mkdir_parents fs p = Ok fs' -> is_prefix q p = false ->
  lstat fs' q = lstat fs q.
Proof.
  unfold mkdir_parents. destruct (lstat fs p).
  - destruct (is_dir fs p); [|discriminate]. now intros [= <-].
  - apply lstat_create_dirs.
Qed.

Lemma apart_parent p q : apart p q = true -> is_prefix q (parent p) = false.
Proof.
  unfold apart. intros H. apply andb_true_iff in H as [_ H].
  apply negb_true_iff in H.
  destruct (is_prefix q (parent p)) eqn:E; [|reflexivity].
  rewrite (is_prefix_trans _ _ _ E (parent_is_prefix p)) in H. discriminate.
Qed.

Lemma apart_sym p q : apart p q = apart q p.
Proof. unfold apart. apply andb_comm. Qed.

Lemma apart_siblings par c d :
  String.eqb c d = false -> apart (par ++ [c]) (par ++ [d]) = true.
Proof.
  intros H. unfold apart. induction par as [|a par IH]; simpl.
  - rewrite H, String.eqb_sym, H. reflexivity.
  - rewrite String.eqb_refl. exact IH.
Qed.

Lemma backup_of_snoc par c :
  backup_of (par ++ [c]) = par ++ [String.append c ".backup"].
Proof.
  unfold backup_of, add_suffix, parent, name.
  now rewrite removelast_last, last_last.
Qed.

Lemma name_backup_neq c : String.eqb c (String.append c ".backup") = false.
Proof.
  induction c as [|a c IH]; simpl; [reflexivity|].
  now rewrite Ascii.eqb_refl.
Qed.

Lemma apart_backup dst : dst <> [] -> apart dst (backup_of dst) = true.
Proof.
  intros H. destruct dst as [|c par _] using rev_ind; [congruence|].
  rewrite backup_of_snoc. apply apart_siblings, name_backup_neq.
Qed.

(** ** What the loop leaves alone *)

Lemma make_link_frame src_rel src dst q v :
  apart dst q = true ->
  preserves (fun fs => lstat fs q = v) (make_link src_rel src dst).
Proof.
  intros A. unfold make_link.
  apply preserves_bind.
  { apply preserves_syscall. intros fs fs' H <-.
    eapply mkdir_parents_frame; [eassumption | now apply apart_parent]. }
  intros _. apply preserves_bind; [apply preserves_gets|]. intros target.
  apply preserves_bind; [|intros; apply preserves_print].
  apply preserves_syscall. intros fs fs' H <-. eapply symlink_frame; eauto.
Qed.

Lemma clear_destination_frame dst q v :
  apart dst q = true -> apart (backup_of dst) q = true ->
  preserves (fun fs => lstat fs q = v) (clear_destination dst).
Proof.
  intros A B. unfold clear_destination.
  apply preserves_bind; [apply preserves_gets|]. intros [|]; [|apply preserves_ret].
  apply preserves_bind; [apply preserves_gets|]. intros [|].
  - apply preserves_bind; [|intros; apply preserves_print].
    apply preserves_syscall. intros fs fs' H <-. eapply unlink_frame; eauto.
  - apply preserves_bind; [apply preserves_gets|]. intros [|]; cbn [negb].
    + apply preserves_bind; [apply preserves_print|]. intros _.
      apply preserves_syscall. intros fs fs' H <-. eapply unlink_frame; eauto.
    + apply preserves_bind; [|intros; apply preserves_print].
      apply preserves_syscall. intros fs fs' H <-. eapply rename_frame; eauto.
Qed.

Lemma link_one_wrap (P : node -> Prop) repo_root src_rel dst success :
  preserves P (link_body src_rel (repo_root ++ src_rel) dst) ->
  preserves P (link_one repo_root (src_rel, dst) success).
Proof.
  intros H. unfold link_one.
  apply preserves_bind; [apply preserves_gets|]. intros [|]; cbn [negb].
  - apply preserves_try.
    + apply preserves_bind; [exact H | intros; apply preserves_ret].
    + intros e. apply preserves_bind; [apply preserves_print|].
      intros; apply preserves_ret.
  - apply preserves_bind; [apply preserves_print | intros; apply preserves_ret].
Qed.

Lemma link_one_frame repo_root src_rel dst success q v :
  apart dst q = true -> apart (backup_of dst) q = true ->
  preserves (fun fs => lstat fs q = v)
    (link_one repo_root (src_rel, dst) success).
Proof.
  intros A B. apply link_one_wrap. unfold link_body.
  apply preserves_bind; [now apply clear_destination_frame|].
  intros _. now apply make_link_frame.
Qed.

Lemma link_all_preserves (P : node -> Prop) repo_root ms :
  (forall m s, In m ms -> preserves P (link_one repo_root m s)) ->
  forall success, preserves P (link_all repo_root ms success).
Proof.
  induction ms as [|m ms IH]; intros H success; cbn [link_all].
  - apply preserves_ret.
  - apply preserves_bind; [apply H; now left|].
    intros s. apply IH. intros m' s' Hin. apply H. now right.
Qed.

Lemma link_all_frame repo_root ms success q v :
  leaves_alone q ms = true ->
  preserves (fun fs => lstat fs q = v) (link_all repo_root ms success).
Proof.
  intros H. apply link_all_preserves. intros [sr dst] s Hin.
  unfold leaves_alone in H. rewrite forallb_forall in H.
  specialize (H _ Hin). apply andb_true_iff in H as [A B].
  now apply link_one_frame.
Qed.

End LinksFacts.

Module LoopFacts.
Import Text FS Eff Links FSFacts EffFacts LinksFacts.
Local Open Scope eff_scope.

Lemma bind_assoc {S A B C} (c : M S A) (k : A -> M S B) (h : B -> M S C) s :
  bind (bind c k) h s = bind c (fun a => bind (k a) h) s.
Proof.
  unfold bind. destruct (c s) as [[[a|e] s1] l1]; [|reflexivity].
  destruct (k a s1) as [[[b|e] s2] l2]; [|reflexivity].
  destruct (h b s2) as [[r s3] l3]. now rewrite app_assoc.
Qed.

Lemma bind_ext {S A B} (c : M S A) (k k' : A -> M S B) s :
  (forall a s', k a s' = k' a s') -> bind c k s = bind c k' s.
Proof.
  intros H. unfold bind. destruct (c s) as [[[a|e] s1] l1]; [|reflexivity].
  now rewrite H.
Qed.

Lemma link_all_app repo_root ms1 ms2 success fs :
  link_all repo_root (ms1 ++ ms2) success fs =
  bind (link_all repo_root ms1 success) (link_all repo_root ms2) fs.
Proof.
  revert success fs; induction ms1 as [|m ms1 IH]; intros success fs.
  - cbn [app link_all]. unfold bind, ret.
    now destruct (link_all repo_root ms2 success fs) as [[r s] l].
  - cbn [app link_all]. rewrite bind_assoc. apply bind_ext. intros; apply IH.
Qed.

(** ** The loop body raises nothing that escapes the [try] block *)

Lemma catchable_bind {S A B} (c : M S A) (k : A -> M S B) :
  catchable c -> (forall a, catchable (k a)) -> catchable (bind c k).
Proof.
  intros Hc Hk s. rewrite outcome_of_bind. specialize (Hc s).
  destruct (c s) as [[[a|e] s'] l]; [apply Hk | exact Hc].
Qed.

Lemma catchable_syscall op : catchable (syscall op).
Proof. intros fs. unfold syscall. now destruct (op fs). Qed.

Lemma catchable_link_body src_rel src dst :
  catchable (link_body src_rel src dst).
Proof.
  unfold link_body, clear_destination, make_link.
  repeat first
    [ apply catchable_syscall
    | apply catchable_bind; [|intros ?]
    | match goal with |- catchable (if ?b then _ else _) => destruct b end
    | intros ?; exact I ].
Qed.

Lemma link_one_returns repo_root m success fs :
  exists b, outcome_of (link_one repo_root m success fs) = Ret b.
Proof.
  destruct m as [src_rel dst]. unfold link_one.
  rewrite outcome_of_bind. cbn [gets].
  destruct (exists_ fs (repo_root ++ src_rel)); cbn [negb].
  - assert (C : catchable
                 (link_body src_rel (repo_root ++ src_rel) dst ;; ret success)).
    { apply catchable_bind; [apply catchable_link_body | intros ? ?; exact I]. }
    rewrite outcome_of_try. specialize (C fs). unfold outcome_of in C.
    destruct ((link_body src_rel (repo_root ++ src_rel) dst ;; ret success) fs)
      as [[[a|e] s'] l]; cbn in C.
    + eauto.
    + rewrite C. cbn. eauto.
  - cbn. eauto.
Qed.

Lemma link_all_returns repo_root ms success fs :
  exists b, outcome_of (link_all repo_root ms success fs) = Ret b.
Proof.
  revert success fs; induction ms as [|m ms IH]; intros success fs;
    cbn [link_all]; [now exists success|].
  rewrite outcome_of_bind.
  destruct (link_one_returns repo_root m success fs) as [b Hb].
  unfold outcome_of in Hb.
  destruct (link_one repo_root m success fs) as [[r s'] l]. cbn in Hb. subst r.
  apply IH.
Qed.

(** The state after the whole list is the state after its second part, run
    from the state after the first. *)
Lemma link_all_app_state repo_root ms1 ms2 success fs :
  exists s1,
    state_of (link_all repo_root (ms1 ++ ms2) success fs) =
    state_of (link_all repo_root ms2 s1
                (state_of (link_all repo_root ms1 success fs))).
Proof.
  rewrite link_all_app, state_of_bind.
  destruct (link_all_returns repo_root ms1 success fs) as [b Hb].
  unfold outcome_of, state_of in *.
  destruct (link_all repo_root ms1 success fs) as [[r s'] l]. cbn in *.
  subst r. now exists b.
Qed.

End LoopFacts.

Module BackupFacts.
Import Text FS Eff Links FSFacts EffFacts LinksFacts LoopFacts.
Local Open Scope eff_scope.

Lemma exists_not_link fs p x :
  lstat fs p = Some x -> not_link x = true -> exists_ fs p = true.
Proof. intros H Hx. unfold exists_. now rewrite (stat_not_link _ _ _ H Hx). Qed.

Lemma is_symlink_not_link fs p x :
  lstat fs p = Some x -> not_link x = true -> is_symlink fs p = false.
Proof. intros H Hx. unfold is_symlink. rewrite H. now destruct x. Qed.

Lemma exists_absent fs p : lstat fs p = None -> exists_ fs p = false.
Proof. intros H. unfold exists_. now rewrite (stat_absent _ _ H). Qed.

(** A backup that is there is left where it is by the branch that takes
    the destination out of the way. *)
Lemma clear_destination_keeps_backup dst b :
  dst <> [] -> not_link b = true ->
  preserves (fun fs => lstat fs (backup_of dst) = Some b)
    (clear_destination dst).
Proof.
  intros Hd Hb fs HP.
  pose proof (apart_backup dst Hd) as A.
  pose proof (exists_not_link _ _ _ HP Hb) as Eb.
  unfold clear_destination, bind, gets, print_status, ret, syscall, state_of.
  destruct (exists_ fs dst || is_symlink fs dst); [|exact HP].
  destruct (is_symlink fs dst).
  - destruct (unlink fs dst) as [fs'|e] eqn:U; cbn; [|exact HP].
    now rewrite (unlink_frame _ _ _ _ U A).
  - rewrite Eb. cbn.
    destruct (unlink fs dst) as [fs'|e] eqn:U; cbn; [|exact HP].
    now rewrite (unlink_frame _ _ _ _ U A).
Qed.

Lemma link_one_keeps_backup repo_root src_rel dst success b :
  dst <> [] -> not_link b = true ->
  preserves (fun fs => lstat fs (backup_of dst) = Some b)
    (link_one repo_root (src_rel, dst) success).
Proof.
  intros Hd Hb. apply link_one_wrap. unfold link_body.
  apply preserves_bind; [now apply clear_destination_keeps_backup|].
  intros _. apply make_link_frame. now apply apart_backup.
Qed.

Lemma rename_to_free fs par c d x :
  lstat fs (par ++ [c]) = Some x -> lstat fs (par ++ [d]) = None ->
  String.eqb c d = false ->
  exists fs', rename fs (par ++ [c]) (par ++ [d]) = Ok fs' /\
              lstat fs' (par ++ [d]) = Some x.
Proof.
  intros Hc Hd Hcd. unfold rename. rewrite Hc, Hd.
  pose proof (apart_siblings par c d Hcd) as A. unfold apart in A.
  apply andb_true_iff in A as [A1 _]. apply negb_true_iff in A1. rewrite A1.
  destruct (path_eqb (par ++ [c]) (par ++ [d])) eqn:E.
  { apply path_eqb_eq, app_inj_tail in E. destruct E as [_ ->].
    rewrite String.eqb_refl in Hcd. discriminate. }
  destruct (store_ok fs par c x None Hc) as [fs1 S1].
  destruct (store_sibling_ok _ _ _ _ _ d (Some x) S1) as [fs2 S2].
  exists fs2. split; [|eapply lstat_store_same; eassumption].
  rewrite S1. now destruct x.
Qed.

(** The first backup: a foreign occupant of the destination is moved to the
    free backup path. *)
Lemma clear_destination_makes_backup dst x fs :
  dst <> [] -> lstat fs dst = Some x -> not_link x = true ->
  lstat fs (backup_of dst) = None ->
  lstat (state_of (clear_destination dst fs)) (backup_of dst) = Some x.
Proof.
  intros Hd Hx Hn Hb.
  destruct dst as [|c par _] using rev_ind; [congruence|].
  rewrite backup_of_snoc in *.
  destruct (rename_to_free fs par c _ x Hx Hb (name_backup_neq c))
    as (fs' & R & L).
  unfold clear_destination, bind, gets, print_status, ret, syscall, state_of.
  pose proof (exists_not_link _ _ _ Hx Hn) as E1.
  pose proof (is_symlink_not_link _ _ _ Hx Hn) as E2.
  pose proof (exists_absent _ _ Hb) as E3.
  repeat (cbv beta iota zeta delta [orb negb fst snd];
          rewrite ?E1, ?E2, ?backup_of_snoc, ?E3, ?R).
  exact L.
Qed.

Lemma link_one_makes_backup repo_root src_rel dst success x fs :
  dst <> [] -> lstat fs dst = Some x -> not_link x = true ->
  lstat fs (backup_of dst) = None ->
  exists_ fs (repo_root ++ src_rel) = true ->
  lstat (state_of (link_one repo_root (src_rel, dst) success fs))
    (backup_of dst) = Some x.
Proof.
  intros Hd Hx Hn Hb Hs. unfold link_one.
  rewrite state_of_bind. cbn [gets]. rewrite Hs. cbn [negb].
  apply (try_post (fun fs => lstat fs (backup_of dst) = Some x)).
  - apply (bind_post (fun fs => lstat fs (backup_of dst) = Some x));
      [|intros; apply preserves_ret].
    unfold link_body.
    apply (bind_post (fun fs => lstat fs (backup_of dst) = Some x)).
    + now apply clear_destination_makes_backup.
    + intros _. apply make_link_frame. now apply apart_backup.
  - intros e. apply preserves_bind; [apply preserves_print|].
    intros; apply preserves_ret.
Qed.

Lemma leaves_alone_app q ms1 ms2 :
  leaves_alone q (ms1 ++ ms2) = leaves_alone q ms1 && leaves_alone q ms2.
Proof. unfold leaves_alone. apply forallb_app. Qed.

(** Once the backup is there, no run of the loop changes it. *)
Lemma runs_keep_backup repo_root ms1 src_rel dst ms2 b n fs :
  dst <> [] -> not_link b = true ->
  leaves_alone (backup_of dst) (ms1 ++ ms2) = true ->
  lstat fs (backup_of dst) = Some b ->
  lstat (runs n repo_root (ms1 ++ (src_rel, dst) :: ms2) fs) (backup_of dst)
  = Some b.
Proof.
  intros Hd Hb Hl. revert fs; induction n as [|n IH]; intros fs HP;
    [exact HP|].
  cbn [runs]. apply IH.
  rewrite leaves_alone_app in Hl. apply andb_true_iff in Hl as [L1 L2].
  apply (link_all_preserves (fun fs => lstat fs (backup_of dst) = Some b));
    [|exact HP].
  intros [sr d] s Hin. apply in_app_or in Hin as [Hin | [Heq | Hin]].
  - unfold leaves_alone in L1. rewrite forallb_forall in L1.
    specialize (L1 _ Hin). apply andb_true_iff in L1 as [A B].
    now apply link_one_frame.
  - injection Heq as <- <-. now apply link_one_keeps_backup.
  - unfold leaves_alone in L2. rewrite forallb_forall in L2.
    specialize (L2 _ Hin). apply andb_true_iff in L2 as [A B].
    now apply link_one_frame.
Qed.

(** The first run makes the backup and the later runs keep it. *)
Lemma runs_make_backup repo_root ms1 src_rel dst ms2 x fs n :
  dst <> [] ->
  not_link x = true ->
  leaves_alone dst ms1 = true ->
  leaves_alone (backup_of dst) (ms1 ++ ms2) = true ->
  lstat fs dst = Some x ->
  lstat fs (backup_of dst) = None ->
  exists_ (state_of (link_all repo_root ms1 true fs)) (repo_root ++ src_rel)
  = true ->
  lstat (runs (S n) repo_root (ms1 ++ (src_rel, dst) :: ms2) fs)
    (backup_of dst) = Some x.
Proof.
  intros Hd Hn Ld Lb Hx Hb Hs. cbn [runs].
  apply runs_keep_backup; try assumption.
  destruct (link_all_app_state repo_root ms1 ((src_rel, dst) :: ms2) true fs)
    as [s1 ->].
  pose proof Lb as Lb'. rewrite leaves_alone_app in Lb'.
  apply andb_true_iff in Lb' as [L1 L2].
  set (fsA := state_of (link_all repo_root ms1 true fs)) in *.
  assert (HxA : lstat fsA dst = Some x)
    by (apply (link_all_frame repo_root ms1 true dst (Some x) Ld fs Hx)).
  assert (HbA : lstat fsA (backup_of dst) = None)
    by (apply (link_all_frame repo_root ms1 true _ None L1 fs Hb)).
  cbn [link_all].
  apply (bind_post (fun fs => lstat fs (backup_of dst) = Some x)).
  - now apply link_one_makes_backup.
  - intros s. now apply link_all_frame.
Qed.

End BackupFacts.

Module LinksSpec.
Import Text FS Eff Links Batch FSFacts EffFacts LinksFacts LoopFacts
  BackupFacts.
Local Open Scope eff_scope.

Lemma link_one_skip repo_root src_rel dst success fs :
  exists_ fs (repo_root ++ src_rel) = false ->
  link_one repo_root (src_rel, dst) success fs =
  (Ret success, fs,
   [(WARNING,
     String.append "Source not found: " (path_str (repo_root ++ src_rel)))]).
Proof.
  intros H. unfold link_one, bind, gets, print_status, ret.
  rewrite H. reflexivity.
Qed.




Lemma is_prefix_app_both h p q : is_prefix (h ++ p) (h ++ q) = is_prefix p q.
Proof.
  induction h as [|a h IH]; simpl; [reflexivity|].
  now rewrite String.eqb_refl.
Qed.

Lemma apart_app_both h p q : apart (h ++ p) (h ++ q) = apart p q.
Proof. unfold apart. now rewrite !is_prefix_app_both. Qed.

Lemma backup_of_app h p : p <> [] -> backup_of (h ++ p) = h ++ backup_of p.
Proof.
  intros Hp. destruct p as [|c q _] using rev_ind; [congruence|].
  now rewrite app_assoc, !backup_of_snoc, app_assoc.
Qed.

(** The six destinations of the [symlinks] dictionary and their backup
    paths keep out of each other's way, whatever the home directory. *)
Lemma symlinks_apart home ms1 src_rel dst ms2 :
  symlinks home = ms1 ++ (src_rel, dst) :: ms2 ->
  dst <> [] /\
  leaves_alone dst ms1 = true /\
  leaves_alone (backup_of dst) (ms1 ++ ms2) = true.
Proof.
  unfold symlinks. intros H.
  do 6 (destruct ms1 as [|? ms1];
        [ injection H as <- <- <-;
          split; [destruct home; discriminate|];
          unfold leaves_alone; cbn [forallb app snd];
          rewrite <- ?app_assoc;
          rewrite ?backup_of_app by discriminate;
          rewrite ?apart_app_both;
          split; reflexivity
        | injection H as <- H ]).
  destruct ms1; discriminate.
Qed.

(** For [create_symlinks] itself: each destination of its dictionary that
    holds a file or a directory, with a free backup path and a source that
    exists when its turn comes, has the original occupant at its backup path
    after every number of consecutive runs. *)
Corollary create_symlinks_backup_once home repo_root ms1 src_rel dst ms2 x fs n :
  symlinks home = ms1 ++ (src_rel, dst) :: ms2 ->
  not_link x = true ->
  lstat fs dst = Some x ->
  lstat fs (backup_of dst) = None ->
  exists_ (state_of (link_all repo_root ms1 true fs)) (repo_root ++ src_rel)
  = true ->
  lstat (runs (S n) repo_root (symlinks home) fs) (backup_of dst) = Some x.
Proof.
  intros E Hn Hx Hb Hs.
  destruct (symlinks_apart home _ _ _ _ E) as (Hd & L1 & L2).
  rewrite E. now apply runs_make_backup.
Qed.

(** C2.  Where the destination is a directory whose backup already exists,
    the iteration reports the existing backup, fails on [dst.unlink()],
    leaves the file system as it was (the directory stays, no link is made)
    and sets [success] to false. *)
Theorem backed_up_directory_stays repo_root src_rel dst es success fs :
  exists_ fs (repo_root ++ src_rel) = true ->
  lstat fs dst = Some (Dir es) ->
  exists_ fs (backup_of dst) = true ->
  link_one repo_root (src_rel, dst) success fs =
  (Ret false, fs,
   [(INFO,
     String.append "Config already backed up at: " (path_str (backup_of dst)));
    (ERROR,
     String.append "Failed to create symlink "
       (String.append (path_str dst) ": Is a directory"))]).
Proof.
  intros Hs Hd Hb.
  pose proof (exists_not_link _ _ _ Hd eq_refl) as E1.
  pose proof (is_symlink_not_link _ _ _ Hd eq_refl) as E2.
  assert (U : unlink fs dst = Err EISDIR) by (unfold unlink; now rewrite Hd).
  unfold link_one, link_body, clear_destination, make_link, try_except,
    bind, gets, print_status, ret, syscall.
  repeat (cbv beta iota zeta delta [orb negb fst snd is_Exception];
          rewrite ?Hs, ?E1, ?E2, ?Hb, ?U).
  reflexivity.
Qed.

(** The branch does what C2 says when the occupant is a regular file: the
    file is removed, the backup stays, and the link is made. *)
Lemma backed_up_file_is_replaced repo_root src_rel par c data b success fs :
  exists_ fs (repo_root ++ src_rel) = true ->
  lstat fs (par ++ [c]) = Some (File data) ->
  lstat fs (backup_of (par ++ [c])) = Some b -> not_link b = true ->
  exists fs',
    link_one repo_root (src_rel, par ++ [c]) success fs =
    (Ret success, fs',
     [(INFO,
       String.append "Config already backed up at: "
         (path_str (backup_of (par ++ [c]))));
      (SUCCESS,
       String.append "Symlink created: "
         (String.append (name (par ++ [c]))
            (String.append " → " (String.concat "/" src_rel))))]) /\
    (exists target, lstat fs' (par ++ [c]) = Some (Link target)) /\
    lstat fs' (backup_of (par ++ [c])) = Some b.
Proof.
  intros Hs Hd Hb Hn.
  pose proof (exists_not_link _ _ _ Hd eq_refl) as E1.
  pose proof (is_symlink_not_link _ _ _ Hd eq_refl) as E2.
  pose proof (exists_not_link _ _ _ Hb Hn) as E3.
  destruct (store_ok fs par c _ None Hd) as [fs1 S1].
  assert (U : unlink fs (par ++ [c]) = Ok fs1)
    by (unfold unlink; now rewrite Hd).
  destruct (lstat_parent_after_store _ _ _ _ _ S1) as [es Hp].
  assert (M : mkdir_parents fs1 (parent (par ++ [c])) = Ok fs1).
  { unfold mkdir_parents, parent. rewrite removelast_last, Hp.
    unfold is_dir. now rewrite (stat_not_link _ _ _ Hp eq_refl). }
  pose proof (lstat_store_same _ _ _ _ S1) as Hgone.
  destruct (store_sibling_ok _ _ _ _ _ c
              (Some (Link (resolve fs1 (repo_root ++ src_rel)))) S1)
    as [fs2 S2].
  assert (Y : symlink fs1 (resolve fs1 (repo_root ++ src_rel)) (par ++ [c])
              = Ok fs2)
    by (unfold symlink; now rewrite Hgone).
  exists fs2. split; [|split].
  - unfold link_one, link_body, clear_destination, make_link, try_except,
      bind, gets, print_status, ret, syscall.
    repeat (cbv beta iota zeta delta [orb negb fst snd is_Exception];
            rewrite ?Hs, ?E1, ?E2, ?E3, ?U, ?M, ?Y).
    reflexivity.
  - exists (resolve fs1 (repo_root ++ src_rel)).
    eapply lstat_store_same; eassumption.
  - pose proof (apart_backup (par ++ [c]) (snoc_not_nil par c)) as A.
    rewrite (lstat_store_apart _ _ _ _ _ S2 A).
    now rewrite (lstat_store_apart _ _ _ _ _ S1 A).
Qed.

Lemma backed_up_directory_stays_witness :
  link_one Sample.repo_root (["nvim"%string], Sample.nvim_dst) true
    Sample.disk =
  (Ret false, Sample.disk,
   [(INFO, "Config already backed up at: /Users/me/.config/nvim.backup");
    (ERROR,
     "Failed to create symlink /Users/me/.config/nvim: Is a directory")]%string).
Proof.
  apply (backed_up_directory_stays Sample.repo_root ["nvim"%string]
           Sample.nvim_dst
           [("init.lua"%string, File (txt "vim.o.number = true"))]
           true Sample.disk);
    reflexivity.
Defined.

Lemma link_all_skips repo_root ms success fs :
  forallb (fun m => negb (exists_ fs (repo_root ++ fst m))) ms = true ->
  outcome_of (link_all repo_root ms success fs) = Ret success /\
  state_of (link_all repo_root ms success fs) = fs /\
  List.length (printed (link_all repo_root ms success fs)) = List.length ms.
Proof.
  induction ms as [|[sr dst] ms IH]; intros H; cbn [link_all].
  - now repeat split.
  - cbn [forallb fst] in H. apply andb_true_iff in H as [H1 H2].
    apply negb_true_iff in H1.
    unfold bind. rewrite (link_one_skip _ _ _ _ _ H1).
    destruct (IH H2) as (Ho & Hst & Hl).
    unfold outcome_of, state_of, printed in *.
    destruct (link_all repo_root ms success fs) as [[r s'] l]. cbn in *.
    repeat split; congruence.
Qed.

Lemma make_link_prints src_rel src dst fs u fs' l :
  make_link src_rel src dst fs = (Ret u, fs', l) -> l <> [].
Proof.
  unfold make_link, bind, gets, syscall, print_status.
  destruct (mkdir_parents fs (parent dst)) as [fs1|e]; [|discriminate].
  destruct (symlink fs1 (resolve fs1 src) dst) as [fs2|e]; [|discriminate].
  cbn. intros [= _ _ <-]. discriminate.
Qed.

Lemma link_body_prints src_rel src dst fs u fs' l :
  link_body src_rel src dst fs = (Ret u, fs', l) -> 1 <= List.length l.
Proof.
  unfold link_body, bind.
  destruct (clear_destination dst fs) as [[[v|e] fs1] l1]; [|discriminate].
  destruct (make_link src_rel src dst fs1) as [[r fs2] l2] eqn:M.
  intros [= -> -> <-]. apply make_link_prints in M.
  rewrite length_app. destruct l2; [congruence | simpl; lia].
Qed.

(** One iteration: the flag it returns, the state it leaves whatever the
    flag was, and the line it prints. *)
Lemma link_one_result repo_root src_rel dst success fs :
  outcome_of (link_one repo_root (src_rel, dst) success fs) =
  Ret (success
       && negb (exists_ fs (repo_root ++ src_rel)
                && match outcome_of
                           (link_body src_rel (repo_root ++ src_rel) dst fs)
                   with Raise _ => true | Ret _ => false end)) /\
  state_of (link_one repo_root (src_rel, dst) success fs) =
  state_of (link_one repo_root (src_rel, dst) true fs) /\
  1 <= List.length (printed (link_one repo_root (src_rel, dst) success fs)).
Proof.
  pose proof (catchable_link_body src_rel (repo_root ++ src_rel) dst fs) as C.
  pose proof (link_body_prints src_rel (repo_root ++ src_rel) dst fs) as L.
  unfold link_one, try_except, bind, gets, print_status, ret,
    outcome_of, state_of, printed in *.
  destruct (exists_ fs (repo_root ++ src_rel)); cbn.
  - destruct (link_body src_rel (repo_root ++ src_rel) dst fs)
      as [[[u|e] fs'] l]; cbn in *.
    + rewrite andb_true_r, app_nil_r. repeat split. eapply L. reflexivity.
    + rewrite C. cbn. rewrite andb_false_r, length_app. cbn.
      repeat split. lia.
  - rewrite andb_true_r. repeat split. lia.
Qed.

Lemma link_all_result repo_root ms success fs :
  outcome_of (link_all repo_root ms success fs) =
  Ret (success && negb (some_link_failed repo_root ms fs)) /\
  List.length ms <= List.length (printed (link_all repo_root ms success fs)).
Proof.
  revert success fs; induction ms as [|[sr dst] ms IH]; intros success fs;
    cbn [link_all some_link_failed].
  - cbn. rewrite andb_true_r. split; [reflexivity | lia].
  - destruct (link_one_result repo_root sr dst success fs) as (Ho & Hs & Hl).
    rewrite outcome_of_bind.
    unfold bind, outcome_of, state_of, printed in *.
    destruct (link_one repo_root (sr, dst) success fs) as [[r fs1] l1].
    cbn [fst snd] in *. subst r.
    destruct (link_one repo_root (sr, dst) true fs) as [[r' fs1'] l1'].
    cbn [fst snd] in *. subst fs1'.
    specialize (IH (success
                    && negb (exists_ fs (repo_root ++ sr)
                             && match fst (fst (link_body sr (repo_root ++ sr)
                                                  dst fs))
                                with Raise _ => true | Ret _ => false end))
                   fs1).
    destruct IH as (IHo & IHl).
    destruct (link_all repo_root ms _ fs1) as [[r2 fs2] l2].
    cbn [fst snd] in *. subst r2. split.
    + f_equal. rewrite negb_orb, andb_assoc. reflexivity.
    + rewrite length_app. cbn [List.length]. lia.
Qed.

Lemma attempts_raise repo_root ms e fs out :
  attempts repo_root ms (Raise e, fs, out) = (Raise e, fs, out).
Proof. induction ms as [|m ms IH]; [reflexivity | exact IH]. Qed.

(** The loop is its iterations one after the other. *)
Lemma link_all_attempts repo_root ms success fs out :
  attempts repo_root ms (Ret success, fs, out) =
  (outcome_of (link_all repo_root ms success fs),
   state_of (link_all repo_root ms success fs),
   out ++ printed (link_all repo_root ms success fs)).
Proof.
  revert success fs out; induction ms as [|m ms IH]; intros success fs out.
  - cbn. now rewrite app_nil_r.
  - change (attempts repo_root (m :: ms) (Ret success, fs, out))
      with (attempts repo_root ms (attempt repo_root (Ret success, fs, out) m)).
    cbn [attempt link_all]. unfold bind, outcome_of, state_of, printed.
    destruct (link_one repo_root m success fs) as [[[s1|e] fs1] l1].
    + rewrite IH. unfold outcome_of, state_of, printed.
      destruct (link_all repo_root ms s1 fs1) as [[r fs2] l2].
      cbn [fst snd]. now rewrite app_assoc.
    + now rewrite attempts_raise.
Qed.

Lemma link_one_missing repo_root m success fs :
  absent fs (repo_root ++ fst m) = true ->
  link_one repo_root m success fs =
  (Ret success, fs, [not_found repo_root m]).
Proof.
  destruct m as [src_rel dst]. unfold absent. intros H.
  apply andb_true_iff in H as [H _]. apply negb_true_iff in H.
  now apply link_one_skip.
Qed.

Lemma link_all_missing repo_root ms success fs :
  forallb (fun m => absent fs (repo_root ++ fst m)) ms = true ->
  link_all repo_root ms success fs =
  (Ret success, fs, map (not_found repo_root) ms).
Proof.
  induction ms as [|m ms IH]; intros H; [reflexivity|].
  cbn [forallb] in H. apply andb_true_iff in H as [H1 H2].
  cbn [link_all map]. unfold bind.
  now rewrite (link_one_missing _ _ _ _ H1), (IH H2).
Qed.

(** C5.  Where the source of every mapping is missing, [create_symlinks]
    goes through the whole list, prints one warning for each mapping, makes
    no link (the file system is what it was) and returns [True]: a missing
    source does not count as a failure, against the docstring of the
    function, [True if all symlinks created successfully, False
    otherwise]. *)
Theorem create_symlinks_true_without_links repo_root ms fs :
  ms <> [] ->
  forallb (fun m => absent fs (repo_root ++ fst m)) ms = true ->
  link_all repo_root ms true fs =
  (Ret true, fs, map (not_found repo_root) ms) /\
  attempts repo_root ms (Ret true, fs, []) =
  (Ret true, fs, map (not_found repo_root) ms).
Proof.
  intros _ H. pose proof (link_all_missing repo_root ms true fs H) as E.
  split; [exact E|]. now rewrite link_all_attempts, E.
Qed.

Lemma create_symlinks_true_without_links_witness :
  create_symlinks Sample.home Sample.repo_root Sample.bare_disk =
  (Ret true, Sample.bare_disk,
   [(WARNING, "Source not found: /Users/me/dotfiles/ghostty");
    (WARNING, "Source not found: /Users/me/dotfiles/fish");
    (WARNING, "Source not found: /Users/me/dotfiles/starship");
    (WARNING, "Source not found: /Users/me/dotfiles/nvim");
    (WARNING, "Source not found: /Users/me/dotfiles/brewfile");
    (WARNING, "Source not found: /Users/me/dotfiles/tmux/tmux.conf")]%string).
Proof.
  exact (proj1 (create_symlinks_true_without_links Sample.repo_root
                  (symlinks Sample.home) Sample.bare_disk
                  ltac:(discriminate) eq_refl)).
Defined.

(** C8.  A mapping whose source does not exist when its turn comes (the
    mappings before it attempted one after the other, none of the
    directories on the way to the source a symbolic link) leaves the file
    system exactly as it was, so nothing appears at its destination and
    its backup is untouched; it keeps the [success] flag and prints the
    warning; and the loop goes on: its result on the whole list is that of
    attempting every mapping after this one, in order, from the same flag
    and the same file system. *)
Theorem missing_source_is_skipped repo_root ms1 src_rel dst ms2 success fs
  s1 fs1 out1 :
  attempts repo_root ms1 (Ret success, fs, []) = (Ret s1, fs1, out1) ->
  absent fs1 (repo_root ++ src_rel) = true ->
  link_one repo_root (src_rel, dst) s1 fs1 =
  (Ret s1, fs1, [not_found repo_root (src_rel, dst)]) /\
  link_all repo_root (ms1 ++ (src_rel, dst) :: ms2) success fs =
  attempts repo_root ms2
    (Ret s1, fs1, out1 ++ [not_found repo_root (src_rel, dst)]).
Proof.
  intros H1 Hm.
  pose proof (link_one_missing repo_root (src_rel, dst) s1 fs1 Hm) as E.
  split; [exact E|].
  rewrite link_all_attempts in H1. cbn [app] in H1.
  rewrite link_all_attempts, link_all_app.
  unfold bind, outcome_of, state_of, printed in *.
  destruct (link_all repo_root ms1 success fs) as [[r fs'] l].
  cbn [fst snd] in H1. injection H1 as -> -> ->.
  cbn [link_all]. unfold bind. rewrite E.
  destruct (link_all repo_root ms2 s1 fs1) as [[r2 fs2] l2].
  cbn [fst snd]. now rewrite <- app_assoc.
Qed.

Lemma missing_source_is_skipped_witness :
  link_all Sample.repo_root (symlinks Sample.home) true Sample.disk =
  attempts Sample.repo_root (skipn 1 (symlinks Sample.home))
    (Ret true, Sample.disk,
     [(WARNING, "Source not found: /Users/me/dotfiles/ghostty"%string)]).
Proof.
  exact (proj2 (missing_source_is_skipped Sample.repo_root []
                  ["ghostty"%string] Sample.ghostty_dst
                  (skipn 1 (symlinks Sample.home)) true Sample.disk
                  true Sample.disk [] eq_refl eq_refl)).
Defined.

End LinksSpec.

Module SetupFacts.
Import Text FS Eff Links Setup EffFacts.
Local Open Scope eff_scope.

Section World.

Variable Ext : Type.
Variable subprocess_run :
  list string -> World Ext -> outcome completed * World Ext.
Variable input : string -> World Ext -> outcome text * World Ext.

Local Notation run_command := (Setup.run_command subprocess_run).
Local Notation check_command_exists :=
  (Setup.check_command_exists subprocess_run).
Local Notation install_xcode_clt :=
  (Setup.install_xcode_clt subprocess_run input).
Local Notation install_homebrew := (Setup.install_homebrew subprocess_run).
Local Notation create_config_structure := (Setup.create_config_structure Ext).
Local Notation install_brewfile := (Setup.install_brewfile subprocess_run).
Local Notation setup_fish_shell := (Setup.setup_fish_shell subprocess_run).
Local Notation verify_installation :=
  (Setup.verify_installation subprocess_run).
Local Notation verify_all := (Setup.verify_all subprocess_run).
Local Notation main := (Setup.main subprocess_run input).

(** [run_command] without [check] hands back what the process returned. *)
Lemma run_command_unchecked cmd description c w w' :
  subprocess_run cmd w = (Ret c, w') ->
  exists l,
    run_command cmd description false w =
    (Ret (returncode c, stdout c ++ stderr c), w', l).
Proof.
  intros H. unfold Setup.run_command, try_except_CalledProcessError, bind,
    run_process, ret, print_status.
  destruct (String.eqb description ""); rewrite H; cbn; eauto.
Qed.

(** What [run_command] raises when the process cannot be started. *)
Lemma run_command_raises cmd description e w w' :
  subprocess_run cmd w = (Raise e, w') ->
  exists e' w'' l, run_command cmd description false w = (Raise e', w'', l).
Proof.
  intros H. unfold Setup.run_command, try_except_CalledProcessError, bind,
    run_process, ret, raise, print_status.
  destruct (String.eqb description ""); rewrite H; destruct e; cbn; eauto.
Qed.

Lemma run_command_inv cmd description r w w' l :
  run_command cmd description false w = (Ret r, w', l) ->
  exists c, subprocess_run cmd w = (Ret c, w').
Proof.
  unfold Setup.run_command, try_except_CalledProcessError, bind,
    run_process, ret, raise, print_status.
  destruct (String.eqb description "");
    destruct (subprocess_run cmd w) as [[c|e] w1]; cbn;
    try (intros [= <- <- <-]; eauto); destruct e; discriminate.
Qed.

Lemma install_brewfile_completed repo_root c (w w' : World Ext) :
  exists_ (fs w) (repo_root ++ ["brewfile"; "Brewfile"]%string) = true ->
  subprocess_run
    (brew_bundle (repo_root ++ ["brewfile"; "Brewfile"]%string)) w
  = (Ret c, w') ->
  outcome_of (install_brewfile repo_root w) = Ret true.
Proof.
  intros Hf H.
  destruct (run_command_unchecked _ "Running brew bundle"%string _ _ _ H)
    as [l R].
  unfold Setup.install_brewfile.
  rewrite outcome_of_bind. cbn [gets]. rewrite Hf. cbn [negb].
  rewrite outcome_of_try. unfold bind at 1. cbn [print_status].
  unfold bind at 1. rewrite R.
  destruct (Z.eqb (returncode c) 0); [reflexivity|].
  destruct (contains (txt "already satisfied") (stdout c ++ stderr c)
            || contains (txt "is already installed") (stdout c ++ stderr c));
    reflexivity.
Qed.

(** ** The shape of a run of [main] *)

Lemma main_stops_at_clt home repo_root (w w1 : World Ext) l1 :
  install_xcode_clt w = (Ret false, w1, l1) ->
  main home repo_root w =
  (Ret 1%Z, w1,
   repository_line repo_root :: l1
   ++ [(ERROR, "Xcode CLT installation is required. Exiting."%string)]).
Proof.
  intros H1. unfold Setup.main, bind, print_status, ret. rewrite H1.
  reflexivity.
Qed.

Lemma main_stops_at_homebrew home repo_root (w w1 w2 : World Ext) l1 l2 :
  install_xcode_clt w = (Ret true, w1, l1) ->
  install_homebrew w1 = (Ret false, w2, l2) ->
  main home repo_root w =
  (Ret 1%Z, w2,
   repository_line repo_root :: l1 ++ l2
   ++ [(ERROR, "Homebrew installation is required. Exiting."%string)]).
Proof.
  intros H1 H2. unfold Setup.main, bind, print_status, ret. rewrite H1.
  cbn [negb]. rewrite H2. reflexivity.
Qed.

Lemma main_stops_at_config home repo_root (w w1 w2 w3 : World Ext) l1 l2 l3 :
  install_xcode_clt w = (Ret true, w1, l1) ->
  install_homebrew w1 = (Ret true, w2, l2) ->
  create_config_structure home w2 = (Ret false, w3, l3) ->
  main home repo_root w =
  (Ret 1%Z, w3,
   repository_line repo_root :: l1 ++ l2 ++ l3
   ++ [(ERROR, "Failed to create config directory. Exiting."%string)]).
Proof.
  intros H1 H2 H3. unfold Setup.main, bind, print_status, ret. rewrite H1.
  cbn [negb]. rewrite H2. cbn [negb]. rewrite H3. reflexivity.
Qed.

Lemma main_completes home repo_root (w w1 w2 w3 w4 w5 w6 w7 : World Ext)
  l1 l2 l3 l4 l5 l6 l7 linked bundled fish verified :
  install_xcode_clt w = (Ret true, w1, l1) ->
  install_homebrew w1 = (Ret true, w2, l2) ->
  create_config_structure home w2 = (Ret true, w3, l3) ->
  on_fs (create_symlinks home repo_root) w3 = (Ret linked, w4, l4) ->
  install_brewfile repo_root w4 = (Ret bundled, w5, l5) ->
  setup_fish_shell w5 = (Ret fish, w6, l6) ->
  verify_installation w6 = (Ret verified, w7, l7) ->
  main home repo_root w =
  (Ret 0%Z, w7,
   repository_line repo_root :: l1 ++ l2 ++ l3
   ++ l4 ++ symlinks_warning linked
   ++ l5 ++ brewfile_warning bundled
   ++ l6 ++ l7).
Proof.
  intros H1 H2 H3 H4 H5 H6 H7.
  unfold Setup.main, bind, print_status, ret. rewrite H1.
  cbn [negb]. rewrite H2. cbn [negb]. rewrite H3. cbn [negb]. rewrite H4.
  destruct linked, bundled; cbn [negb]; rewrite H5; cbn [negb];
    rewrite H6, H7; cbn [symlinks_warning brewfile_warning];
    rewrite ?app_nil_r, <- ?app_assoc; reflexivity.
Qed.

Lemma setup_fish_shell_warns : warns_on_false setup_fish_shell.
Proof. unfold Setup.setup_fish_shell. warns. Qed.

Lemma verify_all_warns cs : warns_on_false (verify_all cs true).
Proof.
  induction cs as [|[name cmd] cs IH]; cbn [Setup.verify_all];
    [apply warns_ret_true|].
  apply warns_bind. intros [|]; [|apply warns_after_warning].
  apply warns_bind. intros _. exact IH.
Qed.

Lemma verify_installation_warns : warns_on_false verify_installation.
Proof. apply verify_all_warns. Qed.

End World.

End SetupFacts.

Module SetupSpec.
Import Text FS Eff Links Setup EffFacts SetupFacts.
Local Open Scope eff_scope.

Section World.

Variable Ext : Type.
Variable subprocess_run :
  list string -> World Ext -> outcome completed * World Ext.
Variable input : string -> World Ext -> outcome text * World Ext.

Local Notation install_xcode_clt :=
  (Setup.install_xcode_clt subprocess_run input).
Local Notation install_homebrew := (Setup.install_homebrew subprocess_run).
Local Notation create_config_structure := (Setup.create_config_structure Ext).
Local Notation install_brewfile := (Setup.install_brewfile subprocess_run).
Local Notation setup_fish_shell := (Setup.setup_fish_shell subprocess_run).
Local Notation verify_installation :=
  (Setup.verify_installation subprocess_run).
Local Notation main := (Setup.main subprocess_run input).

(** The exit status of [setup.py]: 1 when one of its three required steps
    returns [False], and 0 once they have returned [True], whatever the
    four later steps return, [verify_installation] included. *)
Lemma setup_exit_status home repo_root (w : World Ext) :
  (forall w1 l1,
     install_xcode_clt w = (Ret false, w1, l1) ->
     exit_status (outcome_of (main home repo_root w)) = 1%Z) /\
  (forall w1 l1 w2 l2,
     install_xcode_clt w = (Ret true, w1, l1) ->
     install_homebrew w1 = (Ret false, w2, l2) ->
     exit_status (outcome_of (main home repo_root w)) = 1%Z) /\
  (forall w1 l1 w2 l2 w3 l3,
     install_xcode_clt w = (Ret true, w1, l1) ->
     install_homebrew w1 = (Ret true, w2, l2) ->
     create_config_structure home w2 = (Ret false, w3, l3) ->
     exit_status (outcome_of (main home repo_root w)) = 1%Z) /\
  (forall w1 l1 w2 l2 w3 l3 w4 l4 w5 l5 w6 l6 w7 l7
          linked bundled fish verified,
     install_xcode_clt w = (Ret true, w1, l1) ->
     install_homebrew w1 = (Ret true, w2, l2) ->
     create_config_structure home w2 = (Ret true, w3, l3) ->
     on_fs (create_symlinks home repo_root) w3 = (Ret linked, w4, l4) ->
     install_brewfile repo_root w4 = (Ret bundled, w5, l5) ->
     setup_fish_shell w5 = (Ret fish, w6, l6) ->
     verify_installation w6 = (Ret verified, w7, l7) ->
     exit_status (outcome_of (main home repo_root w)) = 0%Z).
Proof.
  split; [|split; [|split]].
  - intros. erewrite main_stops_at_clt by eassumption. reflexivity.
  - intros. erewrite main_stops_at_homebrew by eassumption. reflexivity.
  - intros. erewrite main_stops_at_config by eassumption. reflexivity.
  - intros. erewrite main_completes by eassumption. reflexivity.
Qed.

(** C9.  When a required step returns [False], [main] returns 1 in the
    state that step left, having printed what the steps up to it printed
    and its own error line: no later step has run.  When the three required
    steps have returned [True], the four optional steps all run, in order,
    whatever each returns, and [main] returns 0; a [False] of
    [create_symlinks] or [install_brewfile] is followed by a warning of
    [main], and [setup_fish_shell] and [verify_installation] have printed a
    warning themselves when they return [False]. *)
Theorem steps_stop_or_degrade home repo_root (w : World Ext) :
  (forall w1 l1,
     install_xcode_clt w = (Ret false, w1, l1) ->
     main home repo_root w =
     (Ret 1%Z, w1,
      repository_line repo_root :: l1
      ++ [(ERROR, "Xcode CLT installation is required. Exiting."%string)])) /\
  (forall w1 l1 w2 l2,
     install_xcode_clt w = (Ret true, w1, l1) ->
     install_homebrew w1 = (Ret false, w2, l2) ->
     main home repo_root w =
     (Ret 1%Z, w2,
      repository_line repo_root :: l1 ++ l2
      ++ [(ERROR, "Homebrew installation is required. Exiting."%string)])) /\
  (forall w1 l1 w2 l2 w3 l3,
     install_xcode_clt w = (Ret true, w1, l1) ->
     install_homebrew w1 = (Ret true, w2, l2) ->
     create_config_structure home w2 = (Ret false, w3, l3) ->
     main home repo_root w =
     (Ret 1%Z, w3,
      repository_line repo_root :: l1 ++ l2 ++ l3
      ++ [(ERROR, "Failed to create config directory. Exiting."%string)])) /\
  (forall w1 l1 w2 l2 w3 l3 w4 l4 w5 l5 w6 l6 w7 l7
          linked bundled fish verified,
     install_xcode_clt w = (Ret true, w1, l1) ->
     install_homebrew w1 = (Ret true, w2, l2) ->
     create_config_structure home w2 = (Ret true, w3, l3) ->
     on_fs (create_symlinks home repo_root) w3 = (Ret linked, w4, l4) ->
     install_brewfile repo_root w4 = (Ret bundled, w5, l5) ->
     setup_fish_shell w5 = (Ret fish, w6, l6) ->
     verify_installation w6 = (Ret verified, w7, l7) ->
     main home repo_root w =
     (Ret 0%Z, w7,
      repository_line repo_root :: l1 ++ l2 ++ l3
      ++ l4 ++ symlinks_warning linked
      ++ l5 ++ brewfile_warning bundled
      ++ l6 ++ l7) /\
     (linked = false -> warned (symlinks_warning linked) = true) /\
     (bundled = false -> warned (brewfile_warning bundled) = true) /\
     (fish = false -> warned l6 = true) /\
     (verified = false -> warned l7 = true)).
Proof.
  split; [|split; [|split]].
  - intros. now apply main_stops_at_clt.
  - intros. eapply main_stops_at_homebrew; eassumption.
  - intros. eapply main_stops_at_config; eassumption.
  - intros * H1 H2 H3 H4 H5 H6 H7. split; [|repeat split].
    + eapply main_completes; eassumption.
    + now intros ->.
    + now intros ->.
    + intros ->. eapply setup_fish_shell_warns; eassumption.
    + intros ->. eapply verify_installation_warns; eassumption.
Qed.

(** C10.  When the Brewfile exists and [brew bundle] runs to completion,
    [install_brewfile] returns [True] whatever the exit status and the
    output of the command; it returns [False] only when the Brewfile does
    not exist or when starting the command raised. *)
Theorem install_brewfile_reports repo_root (w : World Ext) :
  (forall c w',
     exists_ (fs w) (repo_root ++ ["brewfile"; "Brewfile"]%string) = true ->
     subprocess_run
       (brew_bundle (repo_root ++ ["brewfile"; "Brewfile"]%string)) w
     = (Ret c, w') ->
     outcome_of (install_brewfile repo_root w) = Ret true) /\
  (outcome_of (install_brewfile repo_root w) = Ret false ->
   exists_ (fs w) (repo_root ++ ["brewfile"; "Brewfile"]%string) = false \/
   exists e w',
     subprocess_run
       (brew_bundle (repo_root ++ ["brewfile"; "Brewfile"]%string)) w
     = (Raise e, w')).
Proof.
  split.
  - intros c w'. apply install_brewfile_completed.
  - intros H.
    destruct (exists_ (fs w) (repo_root ++ ["brewfile"; "Brewfile"]%string))
      eqn:Hf; [right | now left].
    destruct (subprocess_run
                (brew_bundle (repo_root ++ ["brewfile"; "Brewfile"]%string)) w)
      as [[c|e] w'] eqn:R; [|eauto].
    rewrite (install_brewfile_completed _ subprocess_run _ _ _ _ Hf R) in H.
    discriminate.
Qed.

End World.

End SetupSpec.

Module MiseMainFacts.
Import Text Mise Config Eff MiseMain EffFacts.
Local Open Scope eff_scope.

Section Machine.

Variable W : Type.
Variable parse_args : outcome bool.
Variable input : string -> W -> outcome text * W.
Variable which_mise : W -> bool.
Variable subprocess_call : list string -> W -> outcome Z * W.
Variable fish : list text -> config_file -> W -> outcome (list text) * W.

Local Notation main :=
  (MiseMain.main parse_args input which_mise subprocess_call fish).
Local Notation confirm := (MiseMain.confirm input).
Local Notation install :=
  (on_world (Runtimes.install_runtimes subprocess_call runtimes)).
Local Notation verify := (MiseMain.verify_bins_in_fish fish bins_to_check).

Lemma main_stops_at_parse_args e (m : machine W) :
  parse_args = Raise e -> main m = (Raise e, m, []).
Proof. intros H. unfold MiseMain.main, bind. now rewrite H. Qed.

Lemma main_stops_at_confirm yes e (m m1 : machine W) l1 :
  parse_args = Ret yes ->
  confirm yes m = (Raise e, m1, l1) ->
  main m = (Raise e, m1, l1).
Proof.
  intros H H1. unfold MiseMain.main, bind. rewrite H. cbn [app].
  now rewrite H1.
Qed.

Lemma main_stops_without_mise yes (m m1 : machine W) l1 :
  parse_args = Ret yes ->
  confirm yes m = (Ret tt, m1, l1) ->
  which_mise (world m1) = false ->
  main m = (Raise (SystemExit 1), m1, l1 ++ []).
Proof.
  intros H H1 H2. unfold MiseMain.main, bind, gets, raise. rewrite H.
  cbn [app]. rewrite H1, H2. reflexivity.
Qed.

Lemma main_stops_at_install yes e (m m1 m2 : machine W) l1 l2 :
  parse_args = Ret yes ->
  confirm yes m = (Ret tt, m1, l1) ->
  which_mise (world m1) = true ->
  install m1 = (Raise e, m2, l2) ->
  main m = (Raise e, m2, l1 ++ l2).
Proof.
  intros H H1 H2 H3. unfold MiseMain.main, bind, gets, raise. rewrite H.
  cbn [app]. rewrite H1, H2. cbn [negb app]. now rewrite H3.
Qed.

Lemma main_stops_at_update yes e (m m1 m2 m3 : machine W) l1 l2 l3 :
  parse_args = Ret yes ->
  confirm yes m = (Ret tt, m1, l1) ->
  which_mise (world m1) = true ->
  install m1 = (Ret tt, m2, l2) ->
  on_config update_fish_config m2 = (Raise e, m3, l3) ->
  main m = (Raise e, m3, l1 ++ l2 ++ l3).
Proof.
  intros H H1 H2 H3 H4. unfold MiseMain.main, bind, gets, raise. rewrite H.
  cbn [app]. rewrite H1, H2. cbn [negb app]. rewrite H3, H4. reflexivity.
Qed.

Lemma main_stops_at_verify yes e (m m1 m2 m3 m4 : machine W) l1 l2 l3 l4 :
  parse_args = Ret yes ->
  confirm yes m = (Ret tt, m1, l1) ->
  which_mise (world m1) = true ->
  install m1 = (Ret tt, m2, l2) ->
  on_config update_fish_config m2 = (Ret tt, m3, l3) ->
  verify m3 = (Raise e, m4, l4) ->
  main m = (Raise e, m4, l1 ++ l2 ++ l3 ++ l4).
Proof.
  intros H H1 H2 H3 H4 H5. unfold MiseMain.main, bind, gets, raise.
  rewrite H. cbn [app]. rewrite H1, H2. cbn [negb app].
  rewrite H3, H4, H5. reflexivity.
Qed.

Lemma main_runs_through yes ok (m m1 m2 m3 m4 : machine W) l1 l2 l3 l4 :
  parse_args = Ret yes ->
  confirm yes m = (Ret tt, m1, l1) ->
  which_mise (world m1) = true ->
  install m1 = (Ret tt, m2, l2) ->
  on_config update_fish_config m2 = (Ret tt, m3, l3) ->
  verify m3 = (Ret ok, m4, l4) ->
  main m =
  ((if ok then Ret tt else Raise (SystemExit 2)), m4,
   l1 ++ l2 ++ l3 ++ l4 ++ []).
Proof.
  intros H H1 H2 H3 H4 H5. unfold MiseMain.main, bind, gets, raise, ret.
  rewrite H. cbn [app]. rewrite H1, H2. cbn [negb app].
  rewrite H3, H4, H5. now destruct ok.
Qed.

(** The confirmation: what the operator's answer makes of it. *)
Lemma confirm_yes (m : machine W) : confirm true m = (Ret tt, m, []).
Proof. reflexivity. Qed.

Lemma confirm_answer ans (m : machine W) w' :
  input "Continue? [y/N] "%string (world m) = (Ret ans, w') ->
  confirm false m =
  ((if declines ans then Raise (SystemExit 0) else Ret tt),
   {| config := config m; world := w' |}, []).
Proof.
  intros H. unfold MiseMain.confirm, bind, on_world, zoom, raise, ret.
  rewrite H. now destruct (declines ans).
Qed.

Lemma confirm_raises e (m : machine W) w' :
  input "Continue? [y/N] "%string (world m) = (Raise e, w') ->
  confirm false m = (Raise e, {| config := config m; world := w' |}, []).
Proof.
  intros H. unfold MiseMain.confirm, bind, on_world, zoom. now rewrite H.
Qed.

(** The steps before [update_fish_config] leave the file alone. *)
Lemma confirm_keeps_config yes (m : machine W) :
  config (state_of (confirm yes m)) = config m.
Proof.
  destruct yes; [reflexivity|].
  unfold MiseMain.confirm. rewrite state_of_bind.
  unfold on_world, zoom.
  destruct (input "Continue? [y/N] "%string (world m)) as [[ans|e] w'];
    [|reflexivity].
  now destruct (declines ans).
Qed.

End Machine.

End MiseMainFacts.

Module ExitSpec.
Import Text FS Mise Config Eff Links EffFacts ConfigFacts SetupFacts SetupSpec
  MiseMainFacts.
Local Open Scope eff_scope.

Section Scripts.

(** [setup.py] and what it runs on. *)
Variable Ext : Type.
Variable subprocess_run :
  list string -> Setup.World Ext -> outcome Setup.completed * Setup.World Ext.
Variable input : string -> Setup.World Ext -> outcome text * Setup.World Ext.

(** [setup_mise.py] and what it runs on. *)
Variable W : Type.
Variable parse_args : outcome bool.
Variable mise_input : string -> W -> outcome text * W.
Variable which_mise : W -> bool.
Variable subprocess_call : list string -> W -> outcome Z * W.
Variable fish : list text -> config_file -> W -> outcome (list text) * W.

Local Notation setup_main := (Setup.main subprocess_run input).
Local Notation install_xcode_clt :=
  (Setup.install_xcode_clt subprocess_run input).
Local Notation install_homebrew := (Setup.install_homebrew subprocess_run).
Local Notation create_config_structure := (Setup.create_config_structure Ext).
Local Notation install_brewfile := (Setup.install_brewfile subprocess_run).
Local Notation setup_fish_shell := (Setup.setup_fish_shell subprocess_run).
Local Notation verify_installation :=
  (Setup.verify_installation subprocess_run).

Local Notation mise_main :=
  (MiseMain.main parse_args mise_input which_mise subprocess_call fish).
Local Notation confirm := (MiseMain.confirm mise_input).
Local Notation install_runtimes :=
  (MiseMain.on_world
     (Runtimes.install_runtimes subprocess_call MiseMain.runtimes)).
Local Notation verify_bins_in_fish :=
  (MiseMain.verify_bins_in_fish fish MiseMain.bins_to_check).
Local Notation mise_status m :=
  (MiseMain.exit_status (outcome_of (mise_main m))).

(** C4 (amended).  [setup.py] exits with 1 when one of its three required
    steps returns [False], and with 0 once they have returned [True],
    whatever the four later steps return, [verify_installation] included:
    it never exits with 2 for a failed verification.  [setup_mise.py] exits
    with the status of argparse when the command line is not taken (2 for
    one it rejects); with 0 when the operator declines, the file untouched;
    with 1 when [mise] is not found, the file untouched, and whenever an
    exception other than [SystemExit] escapes a step (the end of input at
    the prompt, a configuration file that cannot be read, a command that
    cannot be run); and, when every step has returned, with 2 if
    [verify_bins_in_fish] returned [False] and with 0 if it returned
    [True]. *)
Theorem exit_status_of_runs home repo_root (w : Setup.World Ext)
  (m : MiseMain.machine W) :
  ((forall w1 l1,
      install_xcode_clt w = (Ret false, w1, l1) ->
      exit_status (outcome_of (setup_main home repo_root w)) = 1%Z) /\
   (forall w1 l1 w2 l2,
      install_xcode_clt w = (Ret true, w1, l1) ->
      install_homebrew w1 = (Ret false, w2, l2) ->
      exit_status (outcome_of (setup_main home repo_root w)) = 1%Z) /\
   (forall w1 l1 w2 l2 w3 l3,
      install_xcode_clt w = (Ret true, w1, l1) ->
      install_homebrew w1 = (Ret true, w2, l2) ->
      create_config_structure home w2 = (Ret false, w3, l3) ->
      exit_status (outcome_of (setup_main home repo_root w)) = 1%Z) /\
   (forall w1 l1 w2 l2 w3 l3 w4 l4 w5 l5 w6 l6 w7 l7
           linked bundled fish_set verified,
      install_xcode_clt w = (Ret true, w1, l1) ->
      install_homebrew w1 = (Ret true, w2, l2) ->
      create_config_structure home w2 = (Ret true, w3, l3) ->
      Setup.on_fs (create_symlinks home repo_root) w3 = (Ret linked, w4, l4) ->
      install_brewfile repo_root w4 = (Ret bundled, w5, l5) ->
      setup_fish_shell w5 = (Ret fish_set, w6, l6) ->
      verify_installation w6 = (Ret verified, w7, l7) ->
      exit_status (outcome_of (setup_main home repo_root w)) = 0%Z)) /\
  ((forall code,
      parse_args = Raise (SystemExit code) -> mise_status m = code) /\
   (forall ans w',
      parse_args = Ret false ->
      mise_input "Continue? [y/N] "%string (MiseMain.world m) = (Ret ans, w') ->
      declines ans = true ->
      mise_status m = 0%Z /\
      MiseMain.config (state_of (mise_main m)) = MiseMain.config m) /\
   (forall e w',
      parse_args = Ret false ->
      mise_input "Continue? [y/N] "%string (MiseMain.world m) = (Raise e, w') ->
      is_Exception e = true ->
      mise_status m = 1%Z) /\
   (forall yes m1 l1,
      parse_args = Ret yes ->
      confirm yes m = (Ret tt, m1, l1) ->
      which_mise (MiseMain.world m1) = false ->
      mise_status m = 1%Z /\
      MiseMain.config (state_of (mise_main m)) = MiseMain.config m) /\
   (forall yes m1 l1 e m2 l2,
      parse_args = Ret yes ->
      confirm yes m = (Ret tt, m1, l1) ->
      which_mise (MiseMain.world m1) = true ->
      install_runtimes m1 = (Raise e, m2, l2) ->
      is_Exception e = true ->
      mise_status m = 1%Z) /\
   (forall yes m1 l1 m2 l2 e,
      parse_args = Ret yes ->
      confirm yes m = (Ret tt, m1, l1) ->
      which_mise (MiseMain.world m1) = true ->
      install_runtimes m1 = (Ret tt, m2, l2) ->
      MiseMain.config m2 = Unreadable e ->
      is_Exception e = true ->
      mise_status m = 1%Z /\ state_of (mise_main m) = m2) /\
   (forall yes m1 l1 m2 l2 m3 l3 e m4 l4,
      parse_args = Ret yes ->
      confirm yes m = (Ret tt, m1, l1) ->
      which_mise (MiseMain.world m1) = true ->
      install_runtimes m1 = (Ret tt, m2, l2) ->
      MiseMain.on_config update_fish_config m2 = (Ret tt, m3, l3) ->
      verify_bins_in_fish m3 = (Raise e, m4, l4) ->
      is_Exception e = true ->
      mise_status m = 1%Z) /\
   (forall yes m1 l1 m2 l2 m3 l3 ok m4 l4,
      parse_args = Ret yes ->
      confirm yes m = (Ret tt, m1, l1) ->
      which_mise (MiseMain.world m1) = true ->
      install_runtimes m1 = (Ret tt, m2, l2) ->
      MiseMain.on_config update_fish_config m2 = (Ret tt, m3, l3) ->
      verify_bins_in_fish m3 = (Ret ok, m4, l4) ->
      mise_status m = (if ok then 0%Z else 2%Z))).
Proof.
  split.
  - apply setup_exit_status.
  - assert (X : forall e : exn,
               is_Exception e = true ->
               MiseMain.exit_status (Raise e) = 1%Z)
      by (intros [] H; try reflexivity; discriminate).
    split; [|split; [|split; [|split; [|split; [|split; [|split]]]]]].
    + intros code H. now rewrite (main_stops_at_parse_args _ _ _ _ _ _ _ _ H).
    + intros ans w' H Hi Hd.
      pose proof (confirm_answer _ mise_input ans m w' Hi) as C.
      rewrite Hd in C.
      rewrite (main_stops_at_confirm _ _ _ _ _ _ _ _ _ _ _ H C).
      now split.
    + intros e w' H Hi He.
      pose proof (confirm_raises _ mise_input e m w' Hi) as C.
      rewrite (main_stops_at_confirm _ _ _ _ _ _ _ _ _ _ _ H C).
      now apply X.
    + intros yes m1 l1 H H1 H2.
      rewrite (main_stops_without_mise _ _ _ _ _ _ _ _ _ _ H H1 H2).
      split; [reflexivity|]. cbn [state_of fst snd].
      pose proof (confirm_keeps_config _ mise_input yes m) as K.
      now rewrite H1 in K.
    + intros yes m1 l1 e m2 l2 H H1 H2 H3 He.
      rewrite (main_stops_at_install _ _ _ _ _ _ _ _ _ _ _ _ _ H H1 H2 H3).
      now apply X.
    + intros yes m1 l1 m2 l2 e H H1 H2 H3 Hc He.
      assert (U : MiseMain.on_config update_fish_config m2 = (Raise e, m2, [])).
      { destruct m2 as [c w2]. cbn [MiseMain.config] in Hc. subst c.
        unfold MiseMain.on_config, zoom. cbn [MiseMain.config].
        now rewrite update_fish_config_unreadable. }
      rewrite (main_stops_at_update _ _ _ _ _ _ _ _ _ _ _ _ _ _ _ H H1 H2 H3 U).
      split; [now apply X | reflexivity].
    + intros yes m1 l1 m2 l2 m3 l3 e m4 l4 H H1 H2 H3 H4 H5 He.
      rewrite (main_stops_at_verify _ _ _ _ _ _ _ _ _ _ _ _ _ _ _ _ _
                 H H1 H2 H3 H4 H5).
      now apply X.
    + intros yes m1 l1 m2 l2 m3 l3 ok m4 l4 H H1 H2 H3 H4 H5.
      rewrite (main_runs_through _ _ _ _ _ _ _ _ _ _ _ _ _ _ _ _ _
                 H H1 H2 H3 H4 H5).
      now destruct ok.
Qed.

End Scripts.

End ExitSpec.

Module Runs.
Import Text FS Eff Links Setup AstroNvim SetupSpec.
Local Open Scope string_scope.


(** C4 as stated fails for [setup.py]: on a machine where every step of
    [main] returns [True] and [verify_installation] returns [False]
    (Starship is not installed), the process exits with 0, not with 2. *)
Lemma setup_exits_0_on_failed_verification :
  let run := Sample.programs ["starship"] in
  let w := Sample.machine Sample.ready_disk in
  let s1 := install_xcode_clt run Sample.keyboard w in
  let s2 := install_homebrew run (state_of s1) in
  let s3 := create_config_structure unit Sample.home (state_of s2) in
  let s4 :=
    on_fs (create_symlinks Sample.home Sample.repo_root) (state_of s3) in
  let s5 := install_brewfile run Sample.repo_root (state_of s4) in
  let s6 := setup_fish_shell run (state_of s5) in
  let s7 := verify_installation run (state_of s6) in
  outcome_of s1 = Ret true /\ outcome_of s2 = Ret true /\
  outcome_of s3 = Ret true /\ outcome_of s4 = Ret true /\
  outcome_of s5 = Ret true /\ outcome_of s6 = Ret true /\
  outcome_of s7 = Ret false /\
  exit_status
    (outcome_of (main run Sample.keyboard Sample.home Sample.repo_root w))
  = 0%Z.
Proof. vm_compute. repeat split. Qed.

Lemma exit_status_of_runs_witness :
  MiseMain.exit_status
    (outcome_of
       (MiseMain.main (Ret false) Cases.answers_y Cases.mise_installed
          Cases.installs Cases.fish_without_rustc Cases.no_config))
  = 2%Z.
Proof.
  destruct (ExitSpec.exit_status_of_runs unit (Sample.programs [])
              Sample.keyboard unit (Ret false) Cases.answers_y
              Cases.mise_installed Cases.installs Cases.fish_without_rustc
              Sample.home Sample.repo_root
              (Sample.machine Sample.ready_disk) Cases.no_config)
    as (_ & _ & _ & _ & _ & _ & _ & _ & H).
  exact (H false Cases.no_config [] Cases.no_config [] 
           {| MiseMain.config := Config.Holds Mise.MISE_BLOCK;
              MiseMain.world := tt |} []
           false
           {| MiseMain.config := Config.Holds Mise.MISE_BLOCK;
              MiseMain.world := tt |} []
           eq_refl eq_refl eq_refl eq_refl eq_refl eq_refl).
Defined.

Lemma steps_stop_or_degrade_witness :
  main (Sample.programs ["brew"]) Sample.keyboard Sample.home
    Sample.repo_root (Sample.machine Sample.ready_disk) =
  (Ret 1%Z, Sample.machine Sample.ready_disk,
   [(INFO, "Repository: /Users/me/dotfiles");
    (SUCCESS, "Xcode Command Line Tools already installed");
    (INFO, "Installing Homebrew...");
    (INFO, "Downloading and running Homebrew installer");
    (ERROR, "Homebrew installation failed");
    (ERROR, "Homebrew installation is required. Exiting.")]).
Proof.
  destruct (steps_stop_or_degrade unit (Sample.programs ["brew"])
              Sample.keyboard Sample.home Sample.repo_root
              (Sample.machine Sample.ready_disk)) as (_ & H & _).
  apply (H (Sample.machine Sample.ready_disk)
           [(SUCCESS, "Xcode Command Line Tools already installed")]
           (Sample.machine Sample.ready_disk)
           [(INFO, "Installing Homebrew...");
            (INFO, "Downloading and running Homebrew installer");
            (ERROR, "Homebrew installation failed")]);
    reflexivity.
Defined.

Lemma install_brewfile_reports_witness :
  outcome_of
    (install_brewfile (Sample.programs []) Sample.repo_root
       (Sample.machine Sample.ready_disk))
  = Ret true.
Proof.
  destruct (install_brewfile_reports unit (Sample.programs [])
              Sample.repo_root (Sample.machine Sample.ready_disk))
    as (H & _).
  eapply H; reflexivity.
Defined.

End Runs.

(* ================================================================= *)
(** * Further properties of the scripts *)

Module DirFacts.
Import Text FS FSFacts.

Lemma create_dirs_dir n p n' :
  create_dirs n p = Ok n' -> exists es, lstat n' p = Some (Dir es).
Proof.
  revert n n'; induction p as [|c p IH]; intros n n' H;
    cbn [create_dirs] in H.
  - destruct n; try discriminate. injection H as <-. cbn. eauto.
  - destruct n as [| |es]; try discriminate.
    destruct (create_dirs
                (match child c es with Some k => k | None => Dir [] end) p)
      as [k'|e] eqn:E; [|discriminate].
    injection H as <-. cbn [lstat]. rewrite child_set_same. eauto.
Qed.

(** After [mkdir(parents=True, exist_ok=True)] the path is a directory. *)
Lemma mkdir_parents_is_dir root p root' :
  mkdir_parents root p = Ok root' -> is_dir root' p = true.
Proof.
  unfold mkdir_parents. destruct (lstat root p) as [x|] eqn:L.
  - destruct (is_dir root p) eqn:D; [|discriminate]. now intros [= <-].
  - intros H. destruct (create_dirs_dir _ _ _ H) as [es Hes].
    unfold is_dir. now rewrite (stat_not_link _ _ _ Hes eq_refl).
Qed.

(** On a directory, or a link to one, it changes nothing. *)
Lemma mkdir_parents_on_dir root p :
  is_dir root p = true -> mkdir_parents root p = Ok root.
Proof.
  intros D. unfold mkdir_parents. rewrite D.
  destruct (lstat root p) eqn:L; [reflexivity|].
  unfold is_dir in D. now rewrite (stat_absent _ _ L) in D.
Qed.

Lemma mkdir_parents_on_file root p data :
  lstat root p = Some (File data) -> mkdir_parents root p = Err EEXIST.
Proof.
  intros L. unfold mkdir_parents, is_dir. rewrite L.
  now rewrite (stat_not_link _ _ _ L eq_refl).
Qed.

Lemma store_in_dir n p es c o :
  lstat n p = Some (Dir es) -> exists n', store n (p ++ [c]) o = Ok n'.
Proof.
  revert n; induction p as [|a p IH]; intros n H.
  - cbn in H. injection H as ->. cbn. eauto.
  - cbn [lstat] in H. destruct n as [| |es0]; try discriminate.
    change ((a :: p) ++ [c]) with (a :: (p ++ [c])).
    rewrite store_step by apply snoc_not_nil.
    destruct (child a es0) as [k|]; [|discriminate].
    destruct (IH k H) as [k' ->]. eauto.
Qed.

Lemma is_prefix_snoc (p : path) c : is_prefix (p ++ [c]) p = false.
Proof.
  destruct (is_prefix (p ++ [c]) p) eqn:E; [|reflexivity].
  apply is_prefix_spec in E as [r E].
  apply (f_equal (@List.length string)) in E.
  rewrite !length_app in E. cbn in E. lia.
Qed.

(** What [os.rename] moved stands at the new path. *)
Lemma rename_moves fs a b fs' :
  rename fs a b = Ok fs' -> lstat fs' b = lstat fs a.
Proof.
  unfold rename. destruct (lstat fs a) as [x|] eqn:La; [|discriminate].
  destruct (path_eqb a b) eqn:E.
  - apply path_eqb_eq in E. subst b. now intros [= <-].
  - destruct (is_prefix a b); [discriminate|].
    assert (H : forall r,
               match store fs a None with
               | Ok root' => store root' b (Some x)
               | Err e => Err e
               end = Ok r -> lstat r b = Some x).
    { intros r. destruct (store fs a None) as [fs1|e]; [|discriminate].
      apply lstat_store_same. }
    destruct (lstat fs b) as [[| |[|]]|], x; try discriminate; apply H.
Qed.

(** And it is gone from the old one. *)
Lemma rename_source_gone fs a b fs' :
  rename fs a b = Ok fs' -> apart a b = true -> lstat fs' a = None.
Proof.
  intros R A. unfold rename in R.
  destruct (lstat fs a) as [x|] eqn:La; [|discriminate].
  assert (Hab : is_prefix a b = false).
  { unfold apart in A. apply andb_true_iff in A as [A _].
    now apply negb_true_iff in A. }
  destruct (path_eqb a b) eqn:E.
  { apply path_eqb_eq in E. subst b. now rewrite is_prefix_refl in Hab. }
  rewrite Hab in R.
  assert (H : match store fs a None with
              | Ok root' => store root' b (Some x)
              | Err e => Err e
              end = Ok fs' -> lstat fs' a = None).
  { destruct (store fs a None) as [fs1|e] eqn:S1; [|discriminate].
    intros S2. unfold apart in A. rewrite andb_comm in A.
    rewrite (lstat_store_apart _ _ _ _ _ S2 A).
    eapply lstat_store_same; eassumption. }
  destruct (lstat fs b) as [[| |[|]]|], x; try discriminate; now apply H.
Qed.

End DirFacts.

Module FishCheckSpec.
Import Text FishCheck.

Lemma text_eqb_eq a b : text_eqb a b = true <-> a = b.
Proof.
  revert b; induction a as [|x a IH]; intros [|y b]; simpl;
    try (split; [discriminate||reflexivity | discriminate||reflexivity]).
  rewrite andb_true_iff, Ascii.eqb_eq, IH. split.
  - now intros [-> ->].
  - now intros [= -> ->].
Qed.

Lemma text_eqb_refl a : text_eqb a a = true.
Proof. now apply text_eqb_eq. Qed.

Lemma text_eqb_neq a b : a <> b -> text_eqb a b = false.
Proof.
  intros H. destruct (text_eqb a b) eqn:E; [|reflexivity].
  now apply text_eqb_eq in E.
Qed.

Lemma name_line b : ends_with_colon (b ++ [":"%char]) = true.
Proof. unfold ends_with_colon. now rewrite rev_app_distr. Qed.

Lemma name_of_line b : removelast (b ++ [":"%char]) = b.
Proof. apply removelast_last. Qed.

(** Answers that all carry a path are read two lines at a time. *)
Lemma scan_prefix pre L f :
  forallb has_path pre = true -> forallb plain_path pre = true ->
  scan (session_lines pre ++ L) f = scan L (record f pre).
Proof.
  revert f; induction pre as [|[b [p|]] pre IH]; intros f Hh Hp;
    cbn in Hh, Hp; try discriminate; [reflexivity|].
  apply andb_true_iff in Hp as [Hp1 Hp2].
  unfold plain_path in Hp1. cbn in Hp1.
  apply andb_true_iff in Hp1 as [_ Hc]. apply negb_true_iff in Hc.
  unfold session_lines. cbn [flat_map answer_lines app].
  change (scan ((b ++ [":"%char]) :: p :: (session_lines pre ++ L)) f =
          scan L (record f ((b, Some p) :: pre))).
  cbn [scan]. rewrite name_line, Hc, name_of_line.
  now rewrite IH.
Qed.

Lemma get_record_found pre f b :
  forallb has_path pre = true -> forallb plain_path pre = true ->
  In b (map fst pre) \/ no_path (get f b) = false ->
  no_path (get (record f pre) b) = false.
Proof.
  revert f; induction pre as [|[c [p|]] pre IH]; intros f Hh Hp H;
    cbn in Hh, Hp; try discriminate.
  - destruct H as [[]|H]; exact H.
  - apply andb_true_iff in Hp as [Hp1 Hp2].
    unfold plain_path in Hp1. cbn in Hp1.
    apply andb_true_iff in Hp1 as [Hn _]. apply negb_true_iff in Hn.
    cbn [record fold_left]. apply IH; [assumption..|].
    cbn [map fst In] in H. cbn [get fst val snd].
    destruct (text_eqb b c) eqn:E.
    + now right.
    + destruct H as [[H|H]|H]; [|now left|now right].
      subst c. now rewrite text_eqb_refl in E.
Qed.

Lemma get_record_other pre f b :
  ~ In b (map fst pre) -> get (record f pre) b = get f b.
Proof.
  revert f; induction pre as [|[c v] pre IH]; intros f H; [reflexivity|].
  cbn [record fold_left]. cbn [map fst In] in H.
  change (get (record ((c, val (c, v)) :: f) pre) b = get f b).
  rewrite IH by tauto. cbn [get].
  rewrite text_eqb_neq; [reflexivity|]. intros ->. tauto.
Qed.

(** Lines among which none names [b] leave the binding of [b] alone,
    wherever the loop starts to read them. *)
Lemma scan_other b L :
  (forall f,
     (forall line, In line L -> ends_with_colon line = true ->
                   removelast line <> b) ->
     get (scan L f) b = get f b) /\
  (forall x f,
     (forall line, In line (x :: L) -> ends_with_colon line = true ->
                   removelast line <> b) ->
     get (scan (x :: L) f) b = get f b).
Proof.
  induction L as [|y L [IH1 IH2]].
  - split; [reflexivity|]. intros x f H. cbn [scan].
    destruct (ends_with_colon x) eqn:E; [|reflexivity].
    cbn [get]. rewrite text_eqb_neq; [reflexivity|].
    intros Hb. exact (H x (or_introl eq_refl) E (eq_sym Hb)).
  - split.
    + intros f H. now apply IH2.
    + intros x f H. cbn [scan].
      destruct (ends_with_colon x) eqn:E.
      * rewrite IH1
          by (intros l Hl He; apply H; [right; now right | exact He]).
        cbn [get]. rewrite text_eqb_neq; [reflexivity|].
        intros Hb. exact (H x (or_introl eq_refl) E (eq_sym Hb)).
      * apply IH2. intros l Hl He. apply H; [now right | exact He].
Qed.

Lemma lines_name_others b post :
  ~ In b (map fst post) -> forallb plain_path post = true ->
  forall line, In line (session_lines post) ->
               ends_with_colon line = true -> removelast line <> b.
Proof.
  induction post as [|[c o] post IH]; intros Hb Hp line Hl He; [destruct Hl|].
  cbn [map fst In] in Hb. cbn [forallb] in Hp.
  apply andb_true_iff in Hp as [Hp1 Hp2].
  unfold session_lines in Hl. cbn [flat_map answer_lines] in Hl.
  cbn [app In] in Hl. destruct Hl as [<-|Hl].
  - rewrite name_of_line. intros ->. tauto.
  - apply in_app_or in Hl as [Hl|Hl].
    + destruct o as [p|]; [|destruct Hl].
      destruct Hl as [<-|[]]. unfold plain_path in Hp1. cbn in Hp1.
      apply andb_true_iff in Hp1 as [_ Hc]. apply negb_true_iff in Hc.
      congruence.
    + apply IH; tauto.
Qed.

(** The first answer without a path. *)
Lemma first_missing answers :
  forallb has_path answers = false ->
  exists pre b post,
    answers = pre ++ (b, None) :: post /\ forallb has_path pre = true.
Proof.
  induction answers as [|[c [p|]] answers IH]; intros H; cbn in H;
    [discriminate| |].
  - destruct (IH H) as (pre & b & post & -> & Hp).
    now exists ((c, Some p) :: pre), b, post.
  - now exists [], c, answers.
Qed.

Lemma missing_in bins found b :
  In b bins -> get found b = [] -> In b (missing bins found).
Proof.
  intros Hb Hg. unfold missing. apply filter_In. split; [exact Hb|].
  now rewrite Hg.
Qed.

(** The binary whose answer is the first without a path is bound to the
    empty string. *)
Lemma scan_first_missing pre b post :
  forallb has_path pre = true ->
  forallb plain_path (pre ++ (b, None) :: post) = true ->
  NoDup (map fst (pre ++ (b, None) :: post)) ->
  get (scan (session_lines (pre ++ (b, None) :: post)) []) b = [].
Proof.
  intros Hh Hp Hn.
  rewrite forallb_app in Hp. apply andb_true_iff in Hp as [Hp1 Hp2].
  cbn [forallb] in Hp2. apply andb_true_iff in Hp2 as [_ Hp2].
  rewrite map_app in Hn. apply NoDup_remove_2 in Hn.
  assert (Hpost : ~ In b (map fst post))
    by (intros H; apply Hn; apply in_or_app; now right).
  unfold session_lines. rewrite flat_map_app.
  cbn [flat_map answer_lines app].
  change (get (scan (session_lines pre
                     ++ (b ++ [":"%char]) :: session_lines post) []) b = []).
  rewrite scan_prefix by assumption.
  pose proof (lines_name_others b post Hpost Hp2) as Hl.
  cbn [scan]. rewrite name_line, name_of_line.
  destruct post as [|[c o] post'].
  - cbn [session_lines flat_map get]. now rewrite text_eqb_refl.
  - unfold session_lines in *. cbn [flat_map answer_lines app] in *.
    rewrite name_line.
    rewrite (proj1 (scan_other b _))
      by (intros l Hin He; apply Hl; [now right | exact He]).
    cbn [get]. now rewrite text_eqb_refl.
Qed.

(** X1.  [verify_bins_in_fish] gives the right verdict on what the fish
    command prints: when the binaries have distinct names and the lines of
    the session are, for each binary in turn, its name followed by a colon
    and then its path if [command -v] found one (a path being a line that is
    not empty and does not end in a colon), the function returns [True]
    exactly when every binary has a path. *)
Theorem verify_bins_in_fish_verdict answers :
  NoDup (map fst answers) ->
  forallb plain_path answers = true ->
  verify_bins_in_fish (map fst answers) (Some (session_lines answers))
  = forallb has_path answers.
Proof.
  intros Hn Hp. unfold verify_bins_in_fish.
  destruct (forallb has_path answers) eqn:Hh.
  - pose proof (scan_prefix answers [] [] Hh Hp) as E.
    rewrite app_nil_r in E. rewrite E.
    assert (M : missing (map fst answers) (record [] answers) = []).
    { unfold missing.
      destruct (filter _ (map fst answers)) as [|b l] eqn:F; [reflexivity|].
      assert (Hb : In b (filter (fun b => no_path (get (record [] answers) b))
                           (map fst answers)))
        by (rewrite F; now left).
      apply filter_In in Hb as [Hb1 Hb2].
      rewrite (get_record_found answers [] b Hh Hp (or_introl Hb1)) in Hb2.
      discriminate. }
    cbn [scan]. now rewrite M.
  - destruct (first_missing answers Hh) as (pre & b & post & -> & Hpre).
    pose proof (scan_first_missing pre b post Hpre Hp Hn) as G.
    assert (Hb : In b (map fst (pre ++ (b, None) :: post)))
      by (rewrite map_app; apply in_or_app; right; now left).
    pose proof (missing_in _ _ _ Hb G) as Hm.
    destruct (missing _ _); [destruct Hm | reflexivity].
Qed.

(** X2.  The list of missing binaries says too much: the loop moves on by
    two lines after a name even when the line that follows is the next
    name, so the binary asked for right after the first one that was not
    found is listed as missing although fish printed its path. *)
Theorem verify_bins_in_fish_reports_found_binary pre a b p post :
  NoDup (map fst (pre ++ (a, None) :: (b, Some p) :: post)) ->
  forallb plain_path (pre ++ (a, None) :: (b, Some p) :: post) = true ->
  forallb has_path pre = true ->
  In b (missing (map fst (pre ++ (a, None) :: (b, Some p) :: post))
          (scan (session_lines (pre ++ (a, None) :: (b, Some p) :: post)) [])).
Proof.
  intros Hn Hp Hh.
  apply missing_in; [rewrite map_app; apply in_or_app; right; right; now left|].
  rewrite forallb_app in Hp. apply andb_true_iff in Hp as [Hp1 Hp2].
  cbn [forallb] in Hp2. apply andb_true_iff in Hp2 as [_ Hp2].
  apply andb_true_iff in Hp2 as [Hpb Hp2].
  unfold plain_path in Hpb. cbn in Hpb.
  apply andb_true_iff in Hpb as [_ Hc]. apply negb_true_iff in Hc.
  rewrite map_app in Hn. cbn [map fst] in Hn.
  assert (Hab : a <> b).
  { apply NoDup_remove_1 in Hn as Hn'. intros ->.
    apply NoDup_remove_2 in Hn. apply Hn. apply in_or_app. right. now left. }
  apply NoDup_remove_1 in Hn.
  apply NoDup_remove_2 in Hn.
  assert (Hpre : ~ In b (map fst pre))
    by (intros H; apply Hn; apply in_or_app; now left).
  assert (Hpost : ~ In b (map fst post))
    by (intros H; apply Hn; apply in_or_app; now right).
  unfold session_lines. rewrite flat_map_app.
  cbn [flat_map answer_lines app].
  change (get (scan (session_lines pre
                     ++ (a ++ [":"%char]) :: (b ++ [":"%char]) :: p
                        :: session_lines post) []) b = []).
  rewrite scan_prefix by assumption.
  cbn [scan]. rewrite !name_line, name_of_line, Hc.
  rewrite (proj1 (scan_other b (session_lines post)))
    by (apply lines_name_others; assumption).
  cbn [get]. rewrite text_eqb_neq by congruence.
  now rewrite get_record_other.
Qed.

(** X3.  One line that ends in a colon in front of the answers (a heading
    printed by the configuration of the shell, say) takes the name of the
    first binary for its value: that binary is never bound to its path and
    [verify_bins_in_fish] returns [False], also when fish found every
    binary. *)
Theorem verify_bins_in_fish_stray_heading heading b p rest :
  ends_with_colon heading = true ->
  NoDup (map fst ((b, Some p) :: rest)) ->
  forallb plain_path ((b, Some p) :: rest) = true ->
  verify_bins_in_fish (map fst ((b, Some p) :: rest))
    (Some (heading :: session_lines ((b, Some p) :: rest))) = false.
Proof.
  intros Hh Hn Hp. cbn [forallb] in Hp.
  apply andb_true_iff in Hp as [Hpb Hp].
  unfold plain_path in Hpb. cbn in Hpb.
  apply andb_true_iff in Hpb as [_ Hc]. apply negb_true_iff in Hc.
  cbn [map fst] in Hn. apply NoDup_cons_iff in Hn as [Hb _].
  assert (G : get (scan (heading :: session_lines ((b, Some p) :: rest)) [])
                b = []).
  { unfold session_lines. cbn [flat_map answer_lines app].
    change (get (scan (heading :: (b ++ [":"%char]) :: p :: session_lines rest)
                   []) b = []).
    cbn [scan]. rewrite Hh, name_line, Hc.
    rewrite (proj1 (scan_other b (session_lines rest)))
      by (apply lines_name_others; assumption).
    cbn [get]. now destruct (text_eqb b (removelast heading)). }
  unfold verify_bins_in_fish.
  pose proof (missing_in (map fst ((b, Some p) :: rest)) _ b
                (or_introl eq_refl) G) as Hm.
  destruct (missing _ _); [destruct Hm | reflexivity].
Qed.

End FishCheckSpec.

Module RuntimesSpec.
Import Eff Runtimes.

(** X5.  On a machine where starting a command either works or fails for
    the program not being found, [install_runtimes] never raises and tries
    every runtime of its list, in order, whatever the earlier ones
    returned: it ends in the state the calls of [mise install] leave one
    after the other. *)
Theorem install_runtimes_tries_all (W : Type)
  (subprocess_call : list string -> W -> outcome Z * W) runtimes w :
  (forall cmd w', match fst (subprocess_call cmd w') with
                  | Raise e => is_FileNotFoundError e = true
                  | Ret _ => True
                  end) ->
  install_runtimes subprocess_call runtimes w =
  (Ret tt, attempted subprocess_call runtimes w, []).
Proof.
  intros H. revert w; induction runtimes as [|r rs IH]; intros w;
    [reflexivity|].
  cbn [install_runtimes]. unfold attempted. cbn [fold_left].
  fold (attempted subprocess_call rs
          (snd (subprocess_call ["mise"; "install"; r]%string w))).
  unfold bind, run. specialize (H ["mise"; "install"; r]%string w).
  destruct (subprocess_call ["mise"; "install"; r]%string w) as [[rc|e] w1];
    cbn [fst snd] in *.
  - now rewrite IH.
  - rewrite H. now rewrite IH.
Qed.

End RuntimesSpec.

Module ExitFacts.
Import Text FS Eff Links Setup Exit FSFacts EffFacts LoopFacts.
Local Open Scope eff_scope.

Lemma exits_bind {S A B} (c : M S A) (k : A -> M S B) :
  exits_with_1 c -> (forall a, exits_with_1 (k a)) -> exits_with_1 (bind c k).
Proof.
  intros Hc Hk s. rewrite outcome_of_bind. specialize (Hc s).
  unfold outcome_of in *.
  destruct (c s) as [[[a|e] s'] l]; cbn in *; [apply Hk | exact Hc].
Qed.

Lemma exits_ret {S A} (a : A) : exits_with_1 (@ret S A a).
Proof. intros s. exact I. Qed.

Lemma exits_gets {S A} (f : S -> A) : exits_with_1 (gets f).
Proof. intros s. exact I. Qed.

Lemma exits_print {S} msg st : exits_with_1 (@print_status S msg st).
Proof. intros s. exact I. Qed.

Lemma exits_raise_1 {S A} : exits_with_1 (@raise S A (SystemExit 1)).
Proof. intros s. reflexivity. Qed.

Lemma exits_raise_CalledProcessError {S A} rc :
  exits_with_1 (@raise S A (CalledProcessError rc)).
Proof. intros s. exact I. Qed.

Lemma exits_try {S A} (body : M S A) (h : exn -> M S A) :
  exits_with_1 body -> (forall e, exits_with_1 (h e)) ->
  exits_with_1 (try_except body h).
Proof.
  intros Hb Hh s. rewrite outcome_of_try. specialize (Hb s).
  unfold outcome_of in *.
  destruct (body s) as [[[a|e] s'] l]; cbn in *; [exact I|].
  destruct (is_Exception e); [apply Hh | exact Hb].
Qed.

Lemma exits_try_CalledProcessError {S A} (body handler : M S A) :
  exits_with_1 body -> exits_with_1 handler ->
  exits_with_1 (try_except_CalledProcessError body handler).
Proof.
  intros Hb Hh s. specialize (Hb s). specialize (Hh (state_of (body s))).
  unfold try_except_CalledProcessError, outcome_of, state_of in *.
  destruct (body s) as [[[a|e] s'] l]; cbn in *; [exact I|].
  destruct e; try exact I; [|exact Hb].
  destruct (handler s') as [[r s''] l']. exact Hh.
Qed.

Lemma exits_catchable {S A} (c : M S A) : catchable c -> exits_with_1 c.
Proof.
  intros H s. specialize (H s). destruct (outcome_of (c s)) as [a|e];
    [exact I|]. destruct e; try exact I. discriminate.
Qed.

Lemma exits_zoom {S T A} (get : S -> T) (set : T -> S -> S) (c : M T A) :
  exits_with_1 c -> exits_with_1 (zoom get set c).
Proof.
  intros H s. specialize (H (get s)). unfold zoom, outcome_of in *.
  destruct (c (get s)) as [[r t] l]. exact H.
Qed.

Lemma link_all_catchable repo_root ms success :
  catchable (link_all repo_root ms success).
Proof.
  intros fs. destruct (link_all_returns repo_root ms success fs) as [b ->].
  exact I.
Qed.

End ExitFacts.

Module StepsSpec.
Import Text FS Eff Links Setup Exit FSFacts EffFacts LoopFacts SetupFacts
  DirFacts ExitFacts.
Local Open Scope eff_scope.

Section World.

Variable Ext : Type.
Variable subprocess_run :
  list string -> World Ext -> outcome completed * World Ext.
Variable input : string -> World Ext -> outcome text * World Ext.

Local Notation run_command := (Setup.run_command subprocess_run).
Local Notation run_process := (Setup.run_process subprocess_run).
Local Notation check_command_exists :=
  (Setup.check_command_exists subprocess_run).
Local Notation install_xcode_clt :=
  (Setup.install_xcode_clt subprocess_run input).
Local Notation install_homebrew := (Setup.install_homebrew subprocess_run).
Local Notation create_config_structure := (Setup.create_config_structure Ext).
Local Notation install_brewfile := (Setup.install_brewfile subprocess_run).
Local Notation setup_fish_shell := (Setup.setup_fish_shell subprocess_run).
Local Notation verify_installation :=
  (Setup.verify_installation subprocess_run).
Local Notation verify_all := (Setup.verify_all subprocess_run).
Local Notation main := (Setup.main subprocess_run input).

(** X6.  [run_command] with [check=True]: a command that ends with a
    status other than 0 makes it print the line [Failed to execute: ...]
    and raise [SystemExit(1)] in the state the command left.  No
    [except Exception] around the call catches that: code that calls it
    inside a [try] block still ends the process with status 1. *)
Theorem run_command_strict cmd description c (w w' : World Ext) :
  subprocess_run cmd w = (Ret c, w') ->
  returncode c <> 0%Z ->
  outcome_of (run_command cmd description true w) = Raise (SystemExit 1) /\
  state_of (run_command cmd description true w) = w' /\
  In (ERROR, String.append "Failed to execute: " (String.concat " " cmd))
    (printed (run_command cmd description true w)) /\
  forall (k : Z * text -> M (World Ext) Z) (h : exn -> M (World Ext) Z),
    exit_status
      (outcome_of
         (try_except (r <- run_command cmd description true ;; k r) h w))
    = 1%Z.
Proof.
  intros H Hc. apply Z.eqb_neq in Hc.
  assert (E : exists l,
             run_command cmd description true w =
             (Raise (SystemExit 1), w', l) /\
             In (ERROR, String.append "Failed to execute: "
                          (String.concat " " cmd)) l).
  { unfold Setup.run_command, try_except_CalledProcessError, bind,
      Setup.run_process, ret, raise, print_status.
    destruct (String.eqb description ""); rewrite H; cbn [andb negb];
      rewrite Hc; cbn [negb]; destruct (nonempty (stderr c)); cbn;
      eexists; (split; [reflexivity | simpl; auto]). }
  destruct E as (l & E & Hl). rewrite E.
  cbn [outcome_of state_of printed fst snd].
  repeat split; [exact Hl|].
  intros k h. rewrite outcome_of_try. unfold bind. rewrite E. reflexivity.
Qed.

Lemma verify_all_report cs all_good (w w' : World Ext) b l :
  verify_all cs all_good w = (Ret b, w', l) ->
  List.length l = List.length cs /\ b = all_good && negb (warned l).
Proof.
  revert all_good w w' b l; induction cs as [|[name cmd] cs IH];
    intros all_good w w' b l; cbn [Setup.verify_all].
  - intros [= <- _ <-]. now rewrite andb_true_r.
  - unfold bind at 1, Setup.check_command_exists, bind at 1, ret,
      Setup.run_process.
    destruct (subprocess_run ["which"%string; cmd] w) as [[c|e] w1];
      [|discriminate].
    cbn [app]. destruct (Z.eqb (returncode c) 0).
    + unfold bind at 1, print_status.
      destruct (verify_all cs all_good w1) as [[[b'|e] w2] l2] eqn:V;
        [|discriminate].
      intros [= <- <- <-]. destruct (IH _ _ _ _ _ V) as [Hl Hb].
      cbn [app List.length warned existsb fst orb]. split; [lia | exact Hb].
    + unfold bind at 1, print_status.
      destruct (verify_all cs false w1) as [[[b'|e] w2] l2] eqn:V;
        [|discriminate].
      intros [= <- <- <-]. destruct (IH _ _ _ _ _ V) as [Hl Hb].
      cbn [app List.length warned existsb fst orb negb]. split; [lia|].
      rewrite Hb. cbn. now rewrite andb_false_r.
Qed.

(** X7.  When [verify_installation] returns, it has printed one line for
    each of its five checks, failed or not, and the value it returns is
    [True] exactly when none of these lines is a warning. *)
Theorem verify_installation_report (w w' : World Ext) b l :
  verify_installation w = (Ret b, w', l) ->
  List.length l = List.length checks /\
  (b = true <-> warned l = false).
Proof.
  intros H. destruct (verify_all_report _ _ _ _ _ _ H) as [Hl Hb].
  split; [exact Hl|]. rewrite Hb. cbn [andb].
  destruct (warned l); cbn; intuition discriminate.
Qed.

(** X8.  [install_homebrew] reads [os.environ['PATH']] without a default:
    when [brew] is not found, the installer ends with status 0,
    [/opt/homebrew/bin] exists and [PATH] is not set, it raises [KeyError]
    in the state the installer left.  Nothing in [main] catches it: the run
    ends there, with exit status 1. *)
Theorem install_homebrew_needs_PATH c1 c2 (w w1 w2 : World Ext) :
  subprocess_run ["which"; "brew"]%string w = (Ret c1, w1) ->
  returncode c1 <> 0%Z ->
  subprocess_run
    ["/bin/bash"; "-c";
     "$(curl -fsSL https://raw.githubusercontent.com/Homebrew/install/HEAD/install.sh)"]%string
    w1 = (Ret c2, w2) ->
  returncode c2 = 0%Z ->
  exists_ (fs w2) ["opt"; "homebrew"; "bin"]%string = true ->
  lookup "PATH" (environ w2) = None ->
  outcome_of (install_homebrew w) = Raise KeyError /\
  state_of (install_homebrew w) = w2 /\
  forall home repo_root w0 l0,
    install_xcode_clt w0 = (Ret true, w, l0) ->
    outcome_of (main home repo_root w0) = Raise KeyError /\
    exit_status (outcome_of (main home repo_root w0)) = 1%Z.
Proof.
  intros H1 Hc1 H2 Hc2 Hs Hp. apply Z.eqb_neq in Hc1.
  assert (E : exists l, install_homebrew w = (Raise KeyError, w2, l)).
  { destruct (run_command_unchecked _ subprocess_run _
                "Downloading and running Homebrew installer"%string _ _ _ H2)
      as [l R].
    unfold Setup.install_homebrew, Setup.check_command_exists.
    unfold bind at 1. unfold bind at 1. unfold Setup.run_process at 1.
    rewrite H1. cbn [ret]. rewrite Hc1.
    unfold bind at 1. cbn [print_status]. unfold bind at 1. rewrite R.
    cbn [fst]. rewrite Hc2. cbn [Z.eqb].
    unfold bind at 1. unfold bind at 1. cbn [gets]. rewrite Hs.
    unfold bind at 1, Setup.prepend_homebrew_to_PATH. rewrite Hp.
    eexists. reflexivity. }
  destruct E as [l E]. rewrite E. repeat split.
  all: unfold Setup.main, bind, print_status; rewrite H; cbn [negb];
    rewrite E; reflexivity.
Qed.

(** X9.  [create_config_structure] never raises.  When it returns [False]
    it has changed nothing and printed an error.  When it returns [True],
    [~/.config] is a directory, the environment is as it was, and calling
    it again changes nothing more: the second call returns [True] in the
    same state with the same line. *)
Theorem create_config_structure_result home (w : World Ext) :
  exists b,
    outcome_of (create_config_structure home w) = Ret b /\
    (b = false ->
     state_of (create_config_structure home w) = w /\
     warned (printed (create_config_structure home w)) = true) /\
    (b = true ->
     is_dir (fs (state_of (create_config_structure home w)))
       (home ++ [".config"%string]) = true /\
     environ (state_of (create_config_structure home w)) = environ w /\
     create_config_structure home (state_of (create_config_structure home w))
     = (Ret true, state_of (create_config_structure home w),
        printed (create_config_structure home w))).
Proof.
  unfold Setup.create_config_structure, try_except, bind, on_fs, zoom,
    syscall, print_status, ret.
  destruct (mkdir_parents (fs w) (home ++ [".config"%string]))
    as [t|e] eqn:Hm; cbn.
  - exists true. split; [reflexivity|]. split; [discriminate|]. intros _.
    pose proof (mkdir_parents_is_dir _ _ _ Hm) as D.
    split; [exact D|]. split; [reflexivity|].
    rewrite (mkdir_parents_on_dir _ _ D). reflexivity.
  - exists false. split; [reflexivity|]. split; [|discriminate]. intros _.
    split; [|reflexivity]. now destruct w.
Qed.

(** X10.  A regular file at [~/.config] makes [create_config_structure]
    return [False] with the error [File exists], the file untouched; a
    run of [main] that gets this far returns 1 in that very state, so no
    link has been made and no package installed. *)
Theorem create_config_structure_blocked home data (w : World Ext) :
  lstat (fs w) (home ++ [".config"%string]) = Some (File data) ->
  create_config_structure home w =
  (Ret false, w,
   [(ERROR, "Failed to create config directory: File exists"%string)]) /\
  forall repo_root w0 l1 l2 w1,
    install_xcode_clt w0 = (Ret true, w1, l1) ->
    install_homebrew w1 = (Ret true, w, l2) ->
    outcome_of (main home repo_root w0) = Ret 1%Z /\
    state_of (main home repo_root w0) = w.
Proof.
  intros L.
  assert (E : create_config_structure home w =
              (Ret false, w,
               [(ERROR,
                 "Failed to create config directory: File exists"%string)])).
  { unfold Setup.create_config_structure, try_except, bind, on_fs, zoom,
      syscall, print_status, ret.
    rewrite (mkdir_parents_on_file _ _ _ L). cbn. now destruct w. }
  split; [exact E|]. intros repo_root w0 l1 l2 w1 H1 H2.
  rewrite (main_stops_at_config _ subprocess_run input home repo_root
             _ _ _ _ _ _ _ H1 H2 E).
  now split.
Qed.

(** X11.  [install_xcode_clt] takes the exit status 1 of
    [xcode-select --install] for "already installed": when [gcc] is not
    found and the command ends with status 1, the step returns [True] and
    prints a success line, without asking the operator and without looking
    for [gcc] again. *)
Theorem install_xcode_clt_status_1 c1 c2 (w w1 w2 : World Ext) :
  subprocess_run ["which"; "gcc"]%string w = (Ret c1, w1) ->
  returncode c1 <> 0%Z ->
  subprocess_run ["xcode-select"; "--install"]%string w1 = (Ret c2, w2) ->
  returncode c2 = 1%Z ->
  install_xcode_clt w =
  (Ret true, w2,
   [(INFO, "Installing Xcode Command Line Tools...");
    (INFO, "Initializing Xcode CLT installer");
    (SUCCESS, "Xcode Command Line Tools already installed")]%string).
Proof.
  intros H1 Hc1 H2 Hc2. apply Z.eqb_neq in Hc1.
  unfold Setup.install_xcode_clt, Setup.check_command_exists,
    Setup.run_command, try_except_CalledProcessError, bind,
    Setup.run_process, ret, print_status.
  rewrite H1. cbn [ret]. rewrite Hc1. cbn. rewrite H2. cbn.
  rewrite Hc2. reflexivity.
Qed.

(** ** What the steps raise *)

Hypothesis subprocess_run_raises :
  forall cmd w, match fst (subprocess_run cmd w) with
                | Raise e => is_Exception e = true
                | Ret _ => True
                end.
Hypothesis input_raises :
  forall prompt w, match fst (input prompt w) with
                   | Raise e => is_Exception e = true
                   | Ret _ => True
                   end.

Lemma exits_run_process cmd : exits_with_1 (run_process cmd).
Proof.
  intros w. pose proof (subprocess_run_raises cmd w) as H.
  unfold Setup.run_process, outcome_of.
  destruct (subprocess_run cmd w) as [[c|e] w']; cbn in *; [exact I|].
  destruct e; try exact I; discriminate.
Qed.

Lemma exits_read_input prompt :
  exits_with_1 (Setup.read_input Ext input prompt).
Proof.
  intros w. pose proof (input_raises prompt w) as H.
  unfold Setup.read_input, outcome_of.
  destruct (input prompt w) as [[c|e] w']; cbn in *; [exact I|].
  destruct e; try exact I; discriminate.
Qed.

Lemma exits_prepend : exits_with_1 (Setup.prepend_homebrew_to_PATH Ext).
Proof.
  intros w. unfold Setup.prepend_homebrew_to_PATH, outcome_of.
  destruct (lookup "PATH" (environ w)); exact I.
Qed.

Lemma exits_on_fs_syscall op : exits_with_1 (@on_fs Ext unit (syscall op)).
Proof. apply exits_zoom, exits_catchable, catchable_syscall. Qed.

Lemma exits_create_symlinks home repo_root :
  exits_with_1 (@on_fs Ext bool (create_symlinks home repo_root)).
Proof. apply exits_zoom, exits_catchable, link_all_catchable. Qed.

Ltac exits :=
  repeat first
    [ apply exits_ret
    | apply exits_print
    | apply exits_gets
    | apply exits_raise_1
    | apply exits_raise_CalledProcessError
    | apply exits_run_process
    | apply exits_read_input
    | apply exits_prepend
    | apply exits_on_fs_syscall
    | apply exits_create_symlinks
    | apply exits_try_CalledProcessError
    | apply exits_try; [|intros ?]
    | apply exits_bind; [|intros ?]
    | progress cbv zeta
    | match goal with
      | |- exits_with_1 (if ?b then _ else _) => destruct b
      | |- exits_with_1 (let '(_, _) := ?r in _) => destruct r
      end ].

Lemma exits_run_command cmd description check :
  exits_with_1 (run_command cmd description check).
Proof. unfold Setup.run_command. exits. Qed.

Lemma exits_check_command_exists cmd :
  exits_with_1 (check_command_exists cmd).
Proof. unfold Setup.check_command_exists. exits. Qed.

Ltac exits_steps :=
  repeat first
    [ apply exits_check_command_exists
    | apply exits_run_command
    | progress exits ].

Lemma exits_install_xcode_clt : exits_with_1 install_xcode_clt.
Proof. unfold Setup.install_xcode_clt. exits_steps. Qed.

Lemma exits_install_homebrew : exits_with_1 install_homebrew.
Proof. unfold Setup.install_homebrew. exits_steps. Qed.

Lemma exits_create_config_structure home :
  exits_with_1 (create_config_structure home).
Proof. unfold Setup.create_config_structure. exits. Qed.

Lemma exits_install_brewfile repo_root :
  exits_with_1 (install_brewfile repo_root).
Proof. unfold Setup.install_brewfile. exits_steps. Qed.

Lemma exits_setup_fish_shell : exits_with_1 setup_fish_shell.
Proof.
  unfold Setup.setup_fish_shell, Setup.run_process_checked. exits_steps.
Qed.

Lemma exits_verify_all cs all_good : exits_with_1 (verify_all cs all_good).
Proof.
  revert all_good; induction cs as [|[name cmd] cs IH]; intros all_good;
    cbn [Setup.verify_all]; [apply exits_ret|].
  apply exits_bind; [apply exits_check_command_exists|].
  intros [|]; (apply exits_bind; [apply exits_print | intros _; apply IH]).
Qed.

(** X12.  On a machine where starting a program and reading the terminal
    raise nothing but ordinary exceptions, the exit status of [setup.py] is
    0 or 1 on every run, whatever the steps do, return or raise: no run
    ends with the status 2 or with any other status. *)
Theorem setup_exits_with_0_or_1 home repo_root (w : World Ext) :
  exit_status (outcome_of (main home repo_root w)) = 0%Z \/
  exit_status (outcome_of (main home repo_root w)) = 1%Z.
Proof.
  assert (E : forall c : M (World Ext) Z,
             exits_with_1 c ->
             (forall w' n, outcome_of (c w') = Ret n -> n = 0%Z \/ n = 1%Z) ->
             exit_status (outcome_of (c w)) = 0%Z \/
             exit_status (outcome_of (c w)) = 1%Z).
  { intros c He Hr. specialize (He w). specialize (Hr w).
    destruct (outcome_of (c w)) as [n|e]; cbn.
    - now apply Hr.
    - destruct e; auto. }
  apply E.
  - unfold Setup.main.
    repeat first
      [ apply exits_install_xcode_clt | apply exits_install_homebrew
      | apply exits_create_config_structure
      | apply exits_create_symlinks
      | apply exits_install_brewfile | apply exits_setup_fish_shell
      | apply exits_verify_all
      | apply exits_ret | apply exits_print
      | apply exits_bind; [|intros ?]
      | match goal with
        | |- exits_with_1 (if ?b then _ else _) => destruct b
        end ].
  - intros w' n. unfold Setup.main.
    repeat (rewrite outcome_of_bind;
            match goal with
            | |- context [match ?c ?s with _ => _ end] =>
                destruct (c s) as [[[[]|?] ?] ?]
            end; cbn [negb]; try discriminate).
    all: try (intros [= <-]; auto).
Qed.

End World.

End StepsSpec.

Module LinkStepSpec.
Import Text FS Eff Links FSFacts EffFacts LinksFacts LoopFacts BackupFacts
  LinksSpec DirFacts.
Local Open Scope eff_scope.

(** One iteration on a destination that holds a directory: either nothing
    changes, or the directory is at the backup path, which was free. *)
Lemma link_one_keeps_directory repo_root src_rel dst es success fs :
  lstat fs dst = Some (Dir es) ->
  (state_of (link_one repo_root (src_rel, dst) success fs) = fs) \/
  (lstat (state_of (link_one repo_root (src_rel, dst) success fs))
     (backup_of dst) = Some (Dir es) /\
   exists_ fs (backup_of dst) = false).
Proof.
  intros Hd.
  pose proof (exists_not_link _ _ _ Hd eq_refl) as E1.
  pose proof (is_symlink_not_link _ _ _ Hd eq_refl) as E2.
  destruct (exists_ fs (repo_root ++ src_rel)) eqn:Hs;
    [|rewrite (link_one_skip _ _ _ _ _ Hs); now left].
  destruct (exists_ fs (backup_of dst)) eqn:Hb.
  - left.
    unfold link_one, link_body, clear_destination, make_link, try_except,
      bind, gets, print_status, ret, syscall, unlink.
    repeat (cbv beta iota zeta delta [orb negb fst snd is_Exception state_of];
            rewrite ?Hs, ?E1, ?E2, ?Hb, ?Hd).
    reflexivity.
  - destruct (rename fs dst (backup_of dst)) as [fs1|e] eqn:R.
    + right. split; [|reflexivity].
      assert (Hne : dst <> []).
      { intros ->. unfold rename in R. cbn in R. discriminate. }
      pose proof (rename_moves _ _ _ _ R) as Hm. rewrite Hd in Hm.
      pose proof (make_link_frame src_rel (repo_root ++ src_rel) dst
                    (backup_of dst) (Some (Dir es))
                    (apart_backup dst Hne) fs1 Hm) as F.
      cbv beta in F.
      assert (E : state_of (link_one repo_root (src_rel, dst) success fs) =
                  state_of (make_link src_rel (repo_root ++ src_rel) dst fs1)).
      { unfold link_one, link_body, clear_destination, try_except,
          bind, gets, print_status, ret, syscall.
        repeat (cbv beta iota zeta delta [orb negb fst snd state_of];
                rewrite ?Hs, ?E1, ?E2, ?Hb, ?R).
        destruct (make_link src_rel (repo_root ++ src_rel) dst fs1)
          as [[[u|e] fs2] l2]; [reflexivity|].
        destruct (is_Exception e); reflexivity. }
      now rewrite E.
    + left.
      unfold link_one, link_body, clear_destination, make_link, try_except,
        bind, gets, print_status, ret, syscall.
      repeat (cbv beta iota zeta delta [orb negb fst snd is_Exception state_of];
              rewrite ?Hs, ?E1, ?E2, ?Hb, ?R).
      reflexivity.
Qed.

(** Each destination of the [symlinks] dictionary and its backup path are
    out of the way of all the other mappings. *)
Lemma symlinks_leave_alone home ms1 src_rel dst ms2 :
  symlinks home = ms1 ++ (src_rel, dst) :: ms2 ->
  leaves_alone dst (ms1 ++ ms2) = true /\
  leaves_alone (backup_of dst) (ms1 ++ ms2) = true.
Proof.
  unfold symlinks. intros H.
  do 6 (destruct ms1 as [|? ms1];
        [ injection H as <- <- <-;
          unfold leaves_alone; cbn [forallb app snd];
          rewrite <- ?app_assoc;
          rewrite ?backup_of_app by discriminate;
          rewrite ?apart_app_both;
          split; reflexivity
        | injection H as <- H ]).
  destruct ms1; discriminate.
Qed.

(** X13.  [create_symlinks] never deletes a directory that stands at one of
    its six destinations: after the run, whatever happened to the other
    mappings and whether a source was missing or a step failed, the
    directory is still at the destination or it is at the backup path of
    the destination, with the entries it had. *)
Theorem create_symlinks_keeps_directories home repo_root src_rel dst es fs :
  In (src_rel, dst) (symlinks home) ->
  lstat fs dst = Some (Dir es) ->
  lstat (state_of (create_symlinks home repo_root fs)) dst = Some (Dir es) \/
  lstat (state_of (create_symlinks home repo_root fs)) (backup_of dst)
  = Some (Dir es).
Proof.
  intros Hin Hd. apply in_split in Hin as (ms1 & ms2 & E).
  destruct (symlinks_leave_alone _ _ _ _ _ E) as [L1 L2].
  rewrite leaves_alone_app in L1, L2.
  apply andb_true_iff in L1 as [L1a L1b].
  apply andb_true_iff in L2 as [L2a L2b].
  unfold create_symlinks. rewrite E.
  destruct (link_all_app_state repo_root ms1 ((src_rel, dst) :: ms2) true fs)
    as [s1 Hs1].
  unfold mapping in Hs1. rewrite Hs1. clear Hs1.
  pose proof (link_all_frame repo_root ms1 true dst _ L1a fs Hd) as H1.
  cbv beta in H1.
  set (fs1 := state_of (link_all repo_root ms1 true fs)) in *.
  cbn [link_all]. rewrite state_of_bind.
  destruct (link_one_returns repo_root (src_rel, dst) s1 fs1) as [b Hb].
  pose proof (link_one_keeps_directory repo_root src_rel dst es s1 fs1 H1)
    as K.
  unfold outcome_of, state_of in Hb, K.
  destruct (link_one repo_root (src_rel, dst) s1 fs1) as [[r fs2] l2].
  cbn [fst snd] in Hb, K. subst r.
  destruct K as [->|[K _]].
  - left. exact (link_all_frame repo_root ms2 b dst _ L1b fs1 H1).
  - right. exact (link_all_frame repo_root ms2 b (backup_of dst) _ L2b fs2 K).
Qed.

(** X14.  A symbolic link at the destination is replaced without a
    backup: when the source exists, the iteration removes the link, makes
    the new one to the resolved source, prints the two lines and keeps
    [success]; what stands at the backup path, if anything, is as it
    was. *)
Theorem link_one_replaces_symlink repo_root src_rel par c old success fs :
  exists_ fs (repo_root ++ src_rel) = true ->
  lstat fs (par ++ [c]) = Some (Link old) ->
  exists fs1 fs',
    unlink fs (par ++ [c]) = Ok fs1 /\
    link_one repo_root (src_rel, par ++ [c]) success fs =
    (Ret success, fs',
     [(INFO,
       String.append "Replaced existing symlink: " (path_str (par ++ [c])));
      (SUCCESS,
       String.append "Symlink created: "
         (String.append (name (par ++ [c]))
            (String.append " → " (String.concat "/" src_rel))))]) /\
    lstat fs' (par ++ [c]) = Some (Link (resolve fs1 (repo_root ++ src_rel))) /\
    lstat fs' (backup_of (par ++ [c])) = lstat fs (backup_of (par ++ [c])).
Proof.
  intros Hs Hd.
  assert (E2 : is_symlink fs (par ++ [c]) = true)
    by (unfold is_symlink; now rewrite Hd).
  assert (E1 : exists_ fs (par ++ [c]) || is_symlink fs (par ++ [c]) = true)
    by (rewrite E2; apply orb_true_r).
  destruct (store_ok fs par c _ None Hd) as [fs1 S1].
  assert (U : unlink fs (par ++ [c]) = Ok fs1)
    by (unfold unlink; now rewrite Hd).
  destruct (lstat_parent_after_store _ _ _ _ _ S1) as [es Hp].
  assert (M : mkdir_parents fs1 (parent (par ++ [c])) = Ok fs1).
  { unfold mkdir_parents, parent. rewrite removelast_last, Hp.
    unfold is_dir. now rewrite (stat_not_link _ _ _ Hp eq_refl). }
  pose proof (lstat_store_same _ _ _ _ S1) as Hgone.
  destruct (store_sibling_ok _ _ _ _ _ c
              (Some (Link (resolve fs1 (repo_root ++ src_rel)))) S1)
    as [fs2 S2].
  assert (Y : symlink fs1 (resolve fs1 (repo_root ++ src_rel)) (par ++ [c])
              = Ok fs2)
    by (unfold symlink; now rewrite Hgone).
  exists fs1, fs2. split; [exact U|]. split; [|split].
  - unfold link_one, link_body, clear_destination, make_link, try_except,
      bind, gets, print_status, ret, syscall.
    repeat (cbv beta iota zeta delta [negb fst snd is_Exception];
            rewrite ?Hs, ?E1, ?E2, ?U, ?M, ?Y).
    reflexivity.
  - eapply lstat_store_same; eassumption.
  - pose proof (apart_backup (par ++ [c]) (snoc_not_nil par c)) as A.
    rewrite (lstat_store_apart _ _ _ _ _ S2 A).
    now rewrite (lstat_store_apart _ _ _ _ _ S1 A).
Qed.

(** X15.  A free destination: when the source exists, nothing stands at
    the destination, and its parent, not a symbolic link itself, is a
    directory or can be created with the directories above it, the
    iteration creates what is missing of the parent, makes the link to the
    resolved source, prints one success line and keeps [success]; it makes
    no backup. *)
Theorem link_one_links_free_destination
  repo_root src_rel par c success fs fs1 :
  exists_ fs (repo_root ++ src_rel) = true ->
  lstat fs (par ++ [c]) = None ->
  is_symlink fs par = false ->
  mkdir_parents fs par = Ok fs1 ->
  exists fs',
    link_one repo_root (src_rel, par ++ [c]) success fs =
    (Ret success, fs',
     [(SUCCESS,
       String.append "Symlink created: "
         (String.append (name (par ++ [c]))
            (String.append " → " (String.concat "/" src_rel))))]) /\
    lstat fs' (par ++ [c]) = Some (Link (resolve fs1 (repo_root ++ src_rel))) /\
    is_dir fs' par = true /\
    lstat fs' (backup_of (par ++ [c])) = lstat fs (backup_of (par ++ [c])).
Proof.
  intros Hs Hd Hl Hm.
  pose proof (exists_absent _ _ Hd) as E1.
  assert (E2 : is_symlink fs (par ++ [c]) = false)
    by (unfold is_symlink; now rewrite Hd).
  assert (Hp : exists es, lstat fs1 par = Some (Dir es)).
  { revert Hm. unfold mkdir_parents.
    destruct (lstat fs par) as [x|] eqn:L.
    - unfold is_dir. unfold is_symlink in Hl. rewrite L in Hl.
      destruct x as [d|t|es]; try discriminate;
        rewrite (stat_not_link _ _ _ L eq_refl); try discriminate.
      intros [= <-]. eauto.
    - apply create_dirs_dir. }
  destruct Hp as [es Hp].
  pose proof (mkdir_parents_frame _ _ _ (par ++ [c]) Hm (is_prefix_snoc par c))
    as Hd1.
  rewrite Hd in Hd1.
  destruct (store_in_dir fs1 par es c
              (Some (Link (resolve fs1 (repo_root ++ src_rel)))) Hp)
    as [fs2 S2].
  assert (Y : symlink fs1 (resolve fs1 (repo_root ++ src_rel)) (par ++ [c])
              = Ok fs2)
    by (unfold symlink; now rewrite Hd1).
  assert (P : parent (par ++ [c]) = par) by apply removelast_last.
  exists fs2. split; [|split; [|split]].
  - unfold link_one, link_body, clear_destination, make_link, try_except,
      bind, gets, print_status, ret, syscall.
    repeat (cbv beta iota zeta delta [orb negb fst snd is_Exception];
            rewrite ?Hs, ?E1, ?E2, ?P, ?Hm, ?Y).
    reflexivity.
  - eapply lstat_store_same; eassumption.
  - destruct (lstat_parent_after_store _ _ _ _ _ S2) as [es' Hp'].
    unfold is_dir. now rewrite (stat_not_link _ _ _ Hp' eq_refl).
  - pose proof (apart_backup (par ++ [c]) (snoc_not_nil par c)) as A.
    rewrite (lstat_store_apart _ _ _ _ _ S2 A).
    apply (mkdir_parents_frame _ _ _ _ Hm).
    rewrite backup_of_snoc. apply is_prefix_snoc.
Qed.

(** What the loop does to the file system does not depend on [success]. *)
Lemma link_all_state_flag repo_root ms success fs :
  state_of (link_all repo_root ms success fs) =
  state_of (link_all repo_root ms true fs).
Proof.
  revert success fs; induction ms as [|[sr dst] ms IH]; intros success fs;
    cbn [link_all]; [reflexivity|].
  rewrite !state_of_bind.
  destruct (link_one_result repo_root sr dst success fs) as (_ & Hs & _).
  destruct (link_one_returns repo_root (sr, dst) success fs) as [b Hb].
  destruct (link_one_returns repo_root (sr, dst) true fs) as [b' Hb'].
  unfold state_of, outcome_of in *.
  destruct (link_one repo_root (sr, dst) success fs) as [[r fs1] l1].
  destruct (link_one repo_root (sr, dst) true fs) as [[r' fs1'] l1'].
  cbn [fst snd] in *. subst r r' fs1'.
  rewrite (IH b). now rewrite (IH b').
Qed.

(** X16.  A failure is not forgotten and does not change what is done to
    the mappings after it: once the loop over a first part of the list has
    given [False], the loop over the whole list gives [False], and it
    leaves the file system that processing the rest from there leaves. *)
Theorem failure_is_kept repo_root ms1 ms2 fs :
  outcome_of (link_all repo_root ms1 true fs) = Ret false ->
  outcome_of (link_all repo_root (ms1 ++ ms2) true fs) = Ret false /\
  state_of (link_all repo_root (ms1 ++ ms2) true fs) =
  state_of (link_all repo_root ms2 true
              (state_of (link_all repo_root ms1 true fs))).
Proof.
  intros H. rewrite link_all_app, outcome_of_bind, state_of_bind.
  unfold outcome_of, state_of in *.
  destruct (link_all repo_root ms1 true fs) as [[r fs1] l1].
  cbn [fst snd] in *. subst r. split.
  - exact (proj1 (link_all_result repo_root ms2 false fs1)).
  - apply link_all_state_flag.
Qed.

(** X17.  A regular file at the destination is deleted for good when a
    backup already exists: the iteration removes the file and makes the
    link, the backup keeps what it held, and every path out of the way of
    the destination and of the backup path is as it was, so that the
    content of the file is kept nowhere. *)
Theorem backed_up_file_is_lost repo_root src_rel par c data b success fs :
  exists_ fs (repo_root ++ src_rel) = true ->
  lstat fs (par ++ [c]) = Some (File data) ->
  lstat fs (backup_of (par ++ [c])) = Some b -> not_link b = true ->
  outcome_of (link_one repo_root (src_rel, par ++ [c]) success fs)
  = Ret success /\
  (exists target,
     lstat (state_of (link_one repo_root (src_rel, par ++ [c]) success fs))
       (par ++ [c]) = Some (Link target)) /\
  lstat (state_of (link_one repo_root (src_rel, par ++ [c]) success fs))
    (backup_of (par ++ [c])) = Some b /\
  forall q,
    apart (par ++ [c]) q = true ->
    apart (backup_of (par ++ [c])) q = true ->
    lstat (state_of (link_one repo_root (src_rel, par ++ [c]) success fs)) q
    = lstat fs q.
Proof.
  intros Hs Hd Hb Hn.
  destruct (backed_up_file_is_replaced repo_root src_rel par c data b success
              fs Hs Hd Hb Hn) as (fs' & E & Hl & Hk).
  rewrite E. cbn [outcome_of state_of fst snd].
  split; [reflexivity|]. split; [exact Hl|]. split; [exact Hk|].
  intros q A1 A2.
  pose proof (link_one_frame repo_root src_rel (par ++ [c]) success q
                (lstat fs q) A1 A2 fs eq_refl) as F.
  cbv beta in F. unfold path in F. now rewrite E in F.
Qed.

End LinkStepSpec.

Module AstroNvimSpec.
Import Text FS Eff AstroNvim FSFacts EffFacts LinksFacts BackupFacts DirFacts.
Local Open Scope eff_scope.

Lemma append_length (s t : string) :
  String.length (String.append s t) = String.length s + String.length t.
Proof. induction s as [|a s IH]; cbn; [reflexivity | now rewrite IH]. Qed.

Lemma name_suffix_neq (c s : string) :
  s <> EmptyString -> String.eqb c (String.append c s) = false.
Proof.
  intros Hs. apply String.eqb_neq. intros E.
  apply (f_equal String.length) in E. rewrite append_length in E.
  destruct s; [congruence | cbn in E; lia].
Qed.

Lemma backup_name_snoc par c ts :
  backup_name (par ++ [c]) ts =
  par ++ [String.append c (String.append ".backup." ts)].
Proof.
  unfold backup_name, parent, name. now rewrite removelast_last, last_last.
Qed.

Lemma backup_name_neq c ts :
  String.eqb c (String.append c (String.append ".backup." ts)) = false.
Proof. apply name_suffix_neq. discriminate. Qed.

Lemma backup_name_apart par c ts :
  apart (par ++ [c]) (backup_name (par ++ [c]) ts) = true.
Proof. rewrite backup_name_snoc. apply apart_siblings, backup_name_neq. Qed.

(** X18.  An existing configuration is moved, not copied or merged: when
    something exists at [nvim] and the backup name of this second is free,
    the backup and the clone both succeed; afterwards the checkout stands
    at [nvim], what stood there before stands at the backup name, and every
    path out of the way of these two is as it was. *)
Theorem backup_and_clone_existing ts checkout par c x fs :
  lstat fs (par ++ [c]) = Some x ->
  exists_ fs (par ++ [c]) = true ->
  lstat fs (backup_name (par ++ [c]) ts) = None ->
  exists fs',
    backup_and_clone ts checkout (par ++ [c]) fs = (Ret tt, fs', []) /\
    lstat fs' (par ++ [c]) = Some checkout /\
    lstat fs' (backup_name (par ++ [c]) ts) = Some x /\
    forall q,
      apart (par ++ [c]) q = true ->
      apart (backup_name (par ++ [c]) ts) q = true ->
      lstat fs' q = lstat fs q.
Proof.
  intros Hx He Hb.
  pose proof (backup_name_apart par c ts) as A.
  rewrite backup_name_snoc in *.
  destruct (rename_to_free fs par c _ x Hx Hb (backup_name_neq c ts))
    as (fs1 & R & Hb1).
  pose proof (rename_source_gone _ _ _ _ R A) as Hgone.
  assert (S2 : exists fs2, store fs1 (par ++ [c]) (Some checkout) = Ok fs2).
  { revert R. unfold rename. rewrite Hx. cbv iota.
    destruct (path_eqb _ _); [intros [= <-]; congruence|].
    destruct (is_prefix _ _); [discriminate|].
    rewrite Hb. destruct (store fs (par ++ [c]) None) as [fs0|e] eqn:S0;
      [|discriminate].
    intros S1.
    destruct (store_sibling_ok _ _ _ _ _ c (Some checkout) S1) as [fs2 S2].
    eauto. }
  destruct S2 as [fs2 S2].
  exists fs2. split; [|split; [|split]].
  - unfold backup_and_clone, backup_existing, clone_astronvim, bind, gets,
      syscall, ret.
    rewrite backup_name_snoc.
    repeat (cbv beta iota zeta; rewrite ?He, ?R, ?Hgone, ?S2).
    reflexivity.
  - eapply lstat_store_same; eassumption.
  - rewrite (lstat_store_apart _ _ _ _ _ S2 A). exact Hb1.
  - intros q A1 A2. rewrite (lstat_store_apart _ _ _ _ _ S2 A1).
    exact (rename_frame _ _ _ _ _ R A1 A2).
Qed.

(** X19.  A symbolic link at [nvim] whose target is gone is not backed
    up, since [nvim.exists()] follows it; the clone then finds the path
    taken and fails: the two calls raise [CalledProcessError] and leave the
    file system as it was. *)
Theorem backup_and_clone_dangling_link ts checkout nvim target fs :
  lstat fs nvim = Some (Link target) ->
  exists_ fs nvim = false ->
  backup_and_clone ts checkout nvim fs =
  (Raise (CalledProcessError 128), fs, []).
Proof.
  intros Hl He.
  unfold backup_and_clone, backup_existing, clone_astronvim, bind, gets, ret.
  now rewrite He, Hl.
Qed.

(** X20.  A first installation: when nothing stands at [nvim] and its
    parent is a directory, no backup is made; the clone succeeds, the
    checkout stands at [nvim], and every path out of the way of [nvim] is
    as it was. *)
Theorem backup_and_clone_fresh ts checkout par c es fs :
  lstat fs (par ++ [c]) = None ->
  lstat fs par = Some (Dir es) ->
  exists fs',
    backup_and_clone ts checkout (par ++ [c]) fs = (Ret tt, fs', []) /\
    lstat fs' (par ++ [c]) = Some checkout /\
    forall q, apart (par ++ [c]) q = true -> lstat fs' q = lstat fs q.
Proof.
  intros Hn Hp.
  pose proof (exists_absent _ _ Hn) as He.
  destruct (store_in_dir fs par es c (Some checkout) Hp) as [fs' S].
  exists fs'. split; [|split].
  - unfold backup_and_clone, backup_existing, clone_astronvim, bind, gets,
      ret.
    now rewrite He, Hn, S.
  - eapply lstat_store_same; eassumption.
  - intros q A. exact (lstat_store_apart _ _ _ _ _ S A).
Qed.

End AstroNvimSpec.

Module Examples.
Import Text FS Eff Links Setup AstroNvim FishCheck Runtimes.
Import FishCheckSpec RuntimesSpec StepsSpec LinkStepSpec AstroNvimSpec.
Local Open Scope string_scope.

(** The three binaries [main] asks for. *)
Lemma binaries_distinct : NoDup [txt "python"; txt "rustc"; txt "bun"].
Proof. repeat constructor; simpl; intuition discriminate. Qed.

Lemma verify_bins_in_fish_verdict_witness :
  verify_bins_in_fish (map fst Cases.rustc_missing)
    (Some (session_lines Cases.rustc_missing)) = false.
Proof.
  exact (verify_bins_in_fish_verdict Cases.rustc_missing
           binaries_distinct eq_refl).
Defined.

Lemma verify_bins_in_fish_reports_found_binary_witness :
  In (txt "rustc")
    (missing (map fst Cases.python_missing)
       (scan (session_lines Cases.python_missing) [])).
Proof.
  exact (verify_bins_in_fish_reports_found_binary []
           (txt "python") (txt "rustc") (txt "/Users/me/.cargo/bin/rustc")
           [(txt "bun", Some (txt "/Users/me/.bun/bin/bun"))]
           binaries_distinct eq_refl eq_refl).
Defined.

Lemma verify_bins_in_fish_stray_heading_witness :
  forallb has_path Cases.all_found = true /\
  verify_bins_in_fish (map fst Cases.all_found)
    (Some (txt "Loaded plugins:" :: session_lines Cases.all_found)) = false.
Proof.
  split; [reflexivity|].
  exact (verify_bins_in_fish_stray_heading (txt "Loaded plugins:")
           (txt "python") (txt "/Users/me/.local/share/mise/shims/python")
           (tl Cases.all_found)
           eq_refl binaries_distinct eq_refl).
Defined.

Lemma install_runtimes_tries_all_witness :
  install_runtimes Cases.no_mise ["python"; "rust"; "bun"] [] =
  (Ret tt,
   [["mise"; "install"; "bun"]; ["mise"; "install"; "rust"];
    ["mise"; "install"; "python"]],
   []).
Proof.
  apply (install_runtimes_tries_all _ Cases.no_mise
           ["python"; "rust"; "bun"] []).
  intros cmd w'. reflexivity.
Defined.

Lemma run_command_strict_witness :
  outcome_of
    (run_command (Cases.scripted [("false", 1%Z)]) ["false"] "" true
       (Sample.machine Sample.ready_disk))
  = Raise (SystemExit 1).
Proof.
  refine (proj1 (run_command_strict unit (Cases.scripted [("false", 1%Z)])
                   ["false"] ""
                   {| returncode := 1; stdout := []; stderr := [] |}
                   (Sample.machine Sample.ready_disk)
                   (Sample.machine Sample.ready_disk) eq_refl _)).
  discriminate.
Defined.

Lemma verify_installation_report_witness :
  let r := verify_installation (Sample.programs ["starship"])
             (Sample.machine Sample.ready_disk) in
  List.length (printed r) = List.length checks /\
  (false = true <-> warned (printed r) = false).
Proof.
  exact (verify_installation_report unit (Sample.programs ["starship"])
           (Sample.machine Sample.ready_disk)
           (state_of (verify_installation (Sample.programs ["starship"])
                        (Sample.machine Sample.ready_disk)))
           false
           (printed (verify_installation (Sample.programs ["starship"])
                       (Sample.machine Sample.ready_disk)))
           eq_refl).
Defined.

Lemma install_homebrew_needs_PATH_witness :
  outcome_of
    (install_homebrew (Cases.scripted [("which", 1%Z)]) Cases.without_PATH)
  = Raise KeyError.
Proof.
  refine (proj1 (install_homebrew_needs_PATH unit
                   (Cases.scripted [("which", 1%Z)]) Sample.keyboard
                   {| returncode := 1; stdout := []; stderr := [] |}
                   {| returncode := 0; stdout := []; stderr := [] |}
                   Cases.without_PATH Cases.without_PATH Cases.without_PATH
                   eq_refl _ eq_refl eq_refl eq_refl eq_refl)).
  discriminate.
Defined.

Lemma create_config_structure_blocked_witness :
  create_config_structure unit Sample.home
    (Sample.machine Cases.blocked_disk) =
  (Ret false, Sample.machine Cases.blocked_disk,
   [(ERROR, "Failed to create config directory: File exists")]).
Proof.
  exact (proj1 (create_config_structure_blocked unit (Sample.programs [])
                  Sample.keyboard Sample.home (txt "theme=dark")
                  (Sample.machine Cases.blocked_disk) eq_refl)).
Defined.

Lemma install_xcode_clt_status_1_witness :
  install_xcode_clt
    (Cases.scripted [("which", 1%Z); ("xcode-select", 1%Z)]) Sample.keyboard
    (Sample.machine Sample.ready_disk) =
  (Ret true, Sample.machine Sample.ready_disk,
   [(INFO, "Installing Xcode Command Line Tools...");
    (INFO, "Initializing Xcode CLT installer");
    (SUCCESS, "Xcode Command Line Tools already installed")]).
Proof.
  refine (install_xcode_clt_status_1 unit
            (Cases.scripted [("which", 1%Z); ("xcode-select", 1%Z)])
            Sample.keyboard
            {| returncode := 1; stdout := []; stderr := [] |}
            {| returncode := 1; stdout := []; stderr := [] |}
            (Sample.machine Sample.ready_disk)
            (Sample.machine Sample.ready_disk)
            (Sample.machine Sample.ready_disk)
            eq_refl _ eq_refl eq_refl).
  discriminate.
Defined.

Lemma setup_exits_with_0_or_1_witness :
  let status :=
    exit_status
      (outcome_of
         (main (Cases.scripted [("which", 1%Z); ("xcode-select", 7%Z)])
            Sample.keyboard Sample.home Sample.repo_root
            (Sample.machine Sample.ready_disk))) in
  status = 0%Z \/ status = 1%Z.
Proof.
  apply (setup_exits_with_0_or_1 unit
           (Cases.scripted [("which", 1%Z); ("xcode-select", 7%Z)])
           Sample.keyboard).
  - intros cmd w. exact I.
  - intros prompt w. exact I.
Defined.

Lemma create_symlinks_keeps_directories_witness :
  let after :=
    state_of (create_symlinks Sample.home Sample.repo_root Sample.disk) in
  lstat after Sample.fish_dst = Some Sample.own_fish \/
  lstat after (backup_of Sample.fish_dst) = Some Sample.own_fish.
Proof.
  apply (create_symlinks_keeps_directories Sample.home Sample.repo_root
           ["fish"] Sample.fish_dst
           [("config.fish", File (txt "alias v vim"))] Sample.disk).
  - right. left. reflexivity.
  - reflexivity.
Defined.

Lemma link_one_replaces_symlink_witness :
  let linked :=
    state_of (create_symlinks Sample.home Sample.repo_root Sample.disk) in
  lstat linked Sample.fish_dst = Some (Link ["Users"; "me"; "dotfiles"; "fish"])
  /\
  exists fs',
    link_one Sample.repo_root (["fish"], Sample.fish_dst) true linked =
    (Ret true, fs',
     [(INFO, "Replaced existing symlink: /Users/me/.config/fish");
      (SUCCESS, "Symlink created: fish → fish")]) /\
    lstat fs' (backup_of Sample.fish_dst) = Some Sample.own_fish.
Proof.
  split; [reflexivity|].
  destruct (link_one_replaces_symlink Sample.repo_root ["fish"]
              ["Users"; "me"; ".config"] "fish"
              ["Users"; "me"; "dotfiles"; "fish"] true
              (state_of (create_symlinks Sample.home Sample.repo_root
                           Sample.disk))
              eq_refl eq_refl) as (fs1 & fs' & _ & H1 & _ & H2).
  exists fs'. split; [exact H1 | exact H2].
Defined.

Lemma link_one_links_free_destination_witness :
  exists fs',
    link_one Sample.repo_root (["ghostty"], Sample.ghostty_dst) true
      Sample.ready_disk =
    (Ret true, fs', [(SUCCESS, "Symlink created: ghostty → ghostty")]) /\
    lstat fs' Sample.ghostty_dst =
    Some (Link ["Users"; "me"; "dotfiles"; "ghostty"]) /\
    is_dir fs' ["Users"; "me"; ".config"] = true /\
    lstat fs' (backup_of Sample.ghostty_dst) = None.
Proof.
  exact (link_one_links_free_destination Sample.repo_root ["ghostty"]
           ["Users"; "me"; ".config"] "ghostty" true
           Sample.ready_disk Sample.ready_disk
           eq_refl eq_refl eq_refl eq_refl).
Defined.

Lemma failure_is_kept_witness :
  outcome_of
    (link_all Sample.repo_root (symlinks Sample.home) true Sample.disk)
  = Ret false.
Proof.
  exact (proj1 (failure_is_kept Sample.repo_root
                  (firstn 4 (symlinks Sample.home))
                  (skipn 4 (symlinks Sample.home)) Sample.disk eq_refl)).
Defined.

Lemma backed_up_file_is_lost_witness :
  let after :=
    state_of (link_one Sample.repo_root (["tmux"; "tmux.conf"], Cases.tmux_dst)
                true Cases.tmux_disk) in
  lstat Cases.tmux_disk Cases.tmux_dst
  = Some (File (txt "set -g prefix C-a")) /\
  (exists target, lstat after Cases.tmux_dst = Some (Link target)) /\
  lstat after (backup_of Cases.tmux_dst)
  = Some (File (txt "set -g prefix C-b")).
Proof.
  split; [reflexivity|].
  destruct (backed_up_file_is_lost Sample.repo_root ["tmux"; "tmux.conf"]
              ["Users"; "me"] ".tmux.conf" (txt "set -g prefix C-a")
              (File (txt "set -g prefix C-b")) true Cases.tmux_disk
              eq_refl eq_refl eq_refl eq_refl) as (_ & Hl & Hb & _).
  split; [exact Hl | exact Hb].
Defined.

Lemma backup_and_clone_existing_witness :
  exists fs',
    backup_and_clone "20260101120000" Sample.checkout Sample.nvim_dst
      Sample.disk = (Ret tt, fs', []) /\
    lstat fs' Sample.nvim_dst = Some Sample.checkout /\
    lstat fs' (backup_name Sample.nvim_dst "20260101120000")
    = Some Sample.own_nvim.
Proof.
  destruct (backup_and_clone_existing "20260101120000" Sample.checkout
              ["Users"; "me"; ".config"] "nvim" Sample.own_nvim Sample.disk
              eq_refl eq_refl eq_refl) as (fs' & H1 & H2 & H3 & _).
  exists fs'. split; [exact H1|]. split; [exact H2 | exact H3].
Defined.

Lemma backup_and_clone_dangling_link_witness :
  backup_and_clone "20260101120000" Sample.checkout Sample.nvim_dst
    Cases.dangling_disk =
  (Raise (CalledProcessError 128), Cases.dangling_disk, []).
Proof.
  exact (backup_and_clone_dangling_link "20260101120000" Sample.checkout
           Sample.nvim_dst ["Users"; "me"; "old-nvim"] Cases.dangling_disk
           eq_refl eq_refl).
Defined.

Lemma backup_and_clone_fresh_witness :
  exists fs',
    backup_and_clone "20260101120000" Sample.checkout Sample.nvim_dst
      Sample.ready_disk = (Ret tt, fs', []) /\
    lstat fs' Sample.nvim_dst = Some Sample.checkout.
Proof.
  destruct (backup_and_clone_fresh "20260101120000" Sample.checkout
              ["Users"; "me"; ".config"] "nvim" [] Sample.ready_disk
              eq_refl eq_refl) as (fs' & H1 & H2 & _).
  exists fs'. split; [exact H1 | exact H2].
Defined.

End Examples.
